(** * GunboundWC avatar editor: the DAT record codec, verified

    A shallow embedding of [dat_avatar_gui_v1.3.py]: the byte helpers, the two
    record layouts, [DATModel] (size detection, parsing, saving, the two SQL
    exports) and the two edit paths of the editor window, followed by the
    properties proved about them.

    Conventions of the embedding.
    - A [bytes]/[bytearray] object is a [list byte]; Python's [int] is [Z].
    - A Python [str] is the list of its code points ([pystr]).
    - A function that can raise returns a [result]; [try/except] is a match
      on it.
    - [print] calls only produce diagnostics and are left out. *)

From Stdlib Require Import ZArith Lia List Ascii String SpecFloat.
From Stdlib Require Import Strings.Byte DecimalString.
From stdpp Require Import gmap strings list.

Local Open Scope Z_scope.

(** ** Exceptions and results *)

Inductive exn : Set :=
| IndexError | StructError | TypeError | ValueError | OverflowError
| ZeroDivisionError | RuntimeError | PermissionError | OSError.

Inductive result (A : Type) : Type :=
| Ok (a : A)
| Raise (e : exn).
Arguments Ok {A} a.
Arguments Raise {A} e.

#[global] Instance result_ret : MRet result := fun A a => Ok a.

#[global] Instance result_bind : MBind result := fun A B k r =>
  match r with
  | Ok a => k a
  | Raise e => Raise e
  end.

Definition is_ok {A : Type} (r : result A) : bool :=
  match r with Ok _ => true | Raise _ => false end.

(** ** Byte sequences with Python's indexing rules *)

Abbreviation bytes := (list byte) (only parsing).

Definition len {A : Type} (l : list A) : Z := Z.of_nat (length l).

Definition byte_to_Z (b : byte) : Z := Z.of_N (Byte.to_N b).

(** The byte with value [z]; callers pass [0 <= z < 256]. *)
Definition byte_of_Z (z : Z) : byte :=
  match Byte.of_N (Z.to_N z) with
  | Some b => b
  | None => x00
  end.

(** [b[i]] for an integer subscript: a negative [i] counts from the end. *)
Definition py_index (n i : Z) : option nat :=
  if i <? 0 then
    if i + n <? 0 then None else Some (Z.to_nat (i + n))
  else if i <? n then Some (Z.to_nat i) else None.

(** The bounds of [b[start:stop]]: each end is shifted by the length when
    negative and clamped to the sequence. *)
Definition slice_end (n i : Z) : nat :=
  Z.to_nat (if i <? 0 then Z.max 0 (i + n) else Z.min i n).

Definition get_slice {A : Type} (l : list A) (start stop : Z) : list A :=
  let lo := slice_end (len l) start in
  let hi := slice_end (len l) stop in
  take (hi - lo)%nat (drop lo l).

(** [l[start:stop] = x] on a bytearray: the slice is replaced by [x], whatever
    the length of [x] is. *)
Definition set_slice {A : Type} (l : list A) (start stop : Z) (x : list A)
  : list A :=
  let lo := slice_end (len l) start in
  let hi := Nat.max lo (slice_end (len l) stop) in
  take lo l ++ x ++ drop hi l.

(** [b'\x00' * n] *)
Definition zeros (n : Z) : bytes := replicate (Z.to_nat n) x00.

(** ** [struct] with the formats ["<I"] and ["<i"] *)

Definition le_decode (bs : bytes) : Z :=
  foldr (fun b acc => byte_to_Z b + 256 * acc) 0 bs.

Definition le_encode4 (v : Z) : bytes :=
  [ byte_of_Z (Z.land v 255);
    byte_of_Z (Z.land (Z.shiftr v 8) 255);
    byte_of_Z (Z.land (Z.shiftr v 16) 255);
    byte_of_Z (Z.land (Z.shiftr v 24) 255) ].

(** Where a 4-byte item at [off] lies in a buffer of [n] bytes, following
    [unpack_from] and [pack_into]: a negative offset counts from the end and
    must leave room for the item. *)
Definition struct_offset (n off : Z) : result nat :=
  if off <? 0 then
    if 0 <? off + 4 then Raise StructError
    else if off + n <? 0 then Raise StructError
    else Ok (Z.to_nat (off + n))
  else if n - off <? 4 then Raise StructError
  else Ok (Z.to_nat off).

Definition unpack_from4 (b : bytes) (off : Z) : result bytes :=
  i ← struct_offset (len b) off;
  Ok (take 4 (drop i b)).

(** [pack_into] checks the offset first and packs the value after that;
    [item] is the packed value, or the error packing it raises. *)
Definition pack_into4 (barr : bytes) (off : Z) (item : result bytes)
  : result bytes :=
  i ← struct_offset (len barr) off;
  bs ← item;
  Ok (take i barr ++ bs ++ drop (i + 4) barr).

Definition pack_I (v : Z) : result bytes :=
  if (0 <=? v) && (v <? 2 ^ 32) then Ok (le_encode4 v) else Raise StructError.

Definition pack_i (v : Z) : result bytes :=
  if (- 2 ^ 31 <=? v) && (v <? 2 ^ 31) then Ok (le_encode4 v)
  else Raise StructError.

Definition unpack_I (bs : bytes) : Z := le_decode bs.

Definition unpack_i (bs : bytes) : Z :=
  let u := le_decode bs in
  if u <? 2 ^ 31 then u else u - 2 ^ 32.

(** ** Helpers for endianness and bytes *)

Definition read_u32_le (b : bytes) (off : Z) : result Z :=
  bs ← unpack_from4 b off;
  Ok (unpack_I bs).

Definition write_u32_le (barr : bytes) (off : Z) (val : Z) : result bytes :=
  pack_into4 barr off (pack_I val).

Definition read_i32_le (b : bytes) (off : Z) : result Z :=
  bs ← unpack_from4 b off;
  Ok (unpack_i bs).

Definition write_i32_le (barr : bytes) (off : Z) (val : Z) : result bytes :=
  pack_into4 barr off (pack_i val).

Definition read_u8 (b : bytes) (off : Z) : result Z :=
  match py_index (len b) off with
  | Some i =>
      match b !! i with
      | Some x => Ok (byte_to_Z x)
      | None => Raise IndexError
      end
  | None => Raise IndexError
  end.

Definition write_u8 (barr : bytes) (off : Z) (val : Z) : result bytes :=
  match py_index (len barr) off with
  | Some i => Ok (<[i := byte_of_Z (Z.land val 255)]> barr)
  | None => Raise IndexError
  end.

(** ** Python strings and UTF-8 *)

(** A [str] is the list of its code points. *)
Abbreviation pystr := (list Z) (only parsing).

(** A source literal (ASCII) as a [str]. *)
Definition lit (s : string) : pystr :=
  map (fun a => Z.of_nat (nat_of_ascii a)) (list_ascii_of_string s).

(** [str(n)] for an integer. *)
Definition str_of_int (z : Z) : pystr :=
  lit (NilZero.string_of_int (Z.to_int z)).

Definition is_surrogate (c : Z) : bool := (0xD800 <=? c) && (c <=? 0xDFFF).

(** [c.encode("utf-8", errors="ignore")] for one code point: a lone
    surrogate cannot be encoded and is dropped. *)
Definition utf8_encode_char (c : Z) : bytes :=
  if c <? 0x80 then [byte_of_Z c]
  else if c <? 0x800 then
    [byte_of_Z (0xC0 + c / 64); byte_of_Z (0x80 + c mod 64)]
  else if c <? 0x10000 then
    if is_surrogate c then []
    else [byte_of_Z (0xE0 + c / 4096);
          byte_of_Z (0x80 + (c / 64) mod 64);
          byte_of_Z (0x80 + c mod 64)]
  else
    [byte_of_Z (0xF0 + c / 262144);
     byte_of_Z (0x80 + (c / 4096) mod 64);
     byte_of_Z (0x80 + (c / 64) mod 64);
     byte_of_Z (0x80 + c mod 64)].

Definition utf8_encode (s : pystr) : bytes :=
  flat_map utf8_encode_char s.

(** A byte between [lo] and [hi], as the integer under its six low bits. *)
Definition cont_in (lo hi : Z) (b : byte) : option Z :=
  let x := byte_to_Z b in
  if (lo <=? x) && (x <=? hi) then Some (x - 0x80) else None.

(** [bs.decode("utf-8")], strict: overlong forms, surrogates, code points
    above U+10FFFF and truncated sequences are errors. *)
Fixpoint utf8_decode (bs : bytes) : option pystr :=
  match bs with
  | [] => Some []
  | b0 :: r0 =>
      let x0 := byte_to_Z b0 in
      if x0 <? 0x80 then
        s ← utf8_decode r0; Some (x0 :: s)
      else if x0 <? 0xC2 then None
      else if x0 <? 0xE0 then
        match r0 with
        | b1 :: r1 =>
            y1 ← cont_in 0x80 0xBF b1;
            s ← utf8_decode r1;
            Some ((x0 - 0xC0) * 64 + y1 :: s)
        | _ => None
        end
      else if x0 <? 0xF0 then
        match r0 with
        | b1 :: b2 :: r2 =>
            y1 ← cont_in (if x0 =? 0xE0 then 0xA0 else 0x80)
                         (if x0 =? 0xED then 0x9F else 0xBF) b1;
            y2 ← cont_in 0x80 0xBF b2;
            s ← utf8_decode r2;
            Some ((x0 - 0xE0) * 4096 + y1 * 64 + y2 :: s)
        | _ => None
        end
      else if x0 <? 0xF5 then
        match r0 with
        | b1 :: b2 :: b3 :: r3 =>
            y1 ← cont_in (if x0 =? 0xF0 then 0x90 else 0x80)
                         (if x0 =? 0xF4 then 0x8F else 0xBF) b1;
            y2 ← cont_in 0x80 0xBF b2;
            y3 ← cont_in 0x80 0xBF b3;
            s ← utf8_decode r3;
            Some ((x0 - 0xF0) * 262144 + y1 * 4096 + y2 * 64 + y3 :: s)
        | _ => None
        end
      else None
  end.

(** [bs.decode("latin-1")]: every byte is the code point of its value. *)
Definition latin1_decode (bs : bytes) : option pystr :=
  Some (map byte_to_Z bs).

Definition hex_digit (n : Z) : Z :=
  if n <? 10 then 48 + n else 87 + n.

(** [bs.hex()] *)
Definition hex (bs : bytes) : pystr :=
  flat_map (fun b => [hex_digit (byte_to_Z b / 16);
                      hex_digit (byte_to_Z b mod 16)]) bs.

(** [s.split(b'\x00', 1)[0]]: the bytes before the first zero byte. *)
Fixpoint before_nul (s : bytes) : bytes :=
  match s with
  | [] => []
  | b :: r => if Byte.eqb b x00 then [] else b :: before_nul r
  end.

Definition read_str (b : bytes) (off length : Z) : pystr :=
  let s := get_slice b off (off + length) in
  let s := before_nul s in
  match utf8_decode s with
  | Some t => t
  | None =>
      match latin1_decode s with
      | Some t => t
      | None => hex s
      end
  end.

Definition write_str (barr : bytes) (off length : Z) (text : pystr) : bytes :=
  let raw := get_slice (utf8_encode text) 0 length in
  let barr := set_slice barr off (off + length) (zeros length) in
  set_slice barr off (off + length) (raw ++ zeros (length - len raw)).

(** ** Values held in a record's dictionary *)

Inductive value : Type :=
| VInt (z : Z)
| VStr (s : pystr)
| VNone.

#[global] Instance value_eq_dec : EqDecision value.
Proof. solve_decision. Defined.

(** [str(v)] *)
Definition py_str (v : value) : pystr :=
  match v with
  | VInt z => str_of_int z
  | VStr s => s
  | VNone => lit "None"
  end.

(** Truth value of [v], as [v or ...] and [if v] use it. *)
Definition truthy (v : value) : bool :=
  match v with
  | VInt z => negb (z =? 0)
  | VStr s => match s with [] => false | _ => true end
  | VNone => false
  end.

(** [v == n] and [v != n] against an integer literal. *)
Definition eq_int (v : value) (n : Z) : bool :=
  match v with
  | VInt z => z =? n
  | _ => false
  end.

Definition ne_int (v : value) (n : Z) : bool := negb (eq_int v n).

(** ** Record maps *)

Definition NORMAL_SIZE : Z := 644.
Definition EXITEM_SIZE : Z := 684.

(** The type tags ["u32"], ["i32"], ["u8"] and ["str"]. *)
Inductive ftype : Set := U32 | I32 | U8 | Str.

#[global] Instance ftype_eq_dec : EqDecision ftype.
Proof. solve_decision. Defined.

(** An entry [(offset, type, length)] of a record map. *)
Definition fieldspec : Type := Z * ftype * option Z.

Definition NORMAL_MAP : list (string * fieldspec) :=
  [ ("avatar_code", (0, U32, None));
    ("image_number", (4, U32, None));
    ("name", (12, Str, Some 19));
    ("show_in_shop", (35, U8, None));
    ("sell_weekly", (37, U8, None));
    ("sell_monthly", (60, U8, None));
    ("sell_eternal", (84, U8, None));
    ("price_weekly_gold", (40, U32, None));
    ("price_weekly_cash", (44, U32, None));
    ("price_monthly_gold", (64, U32, None));
    ("price_monthly_cash", (68, U32, None));
    ("price_eternal_gold", (88, U32, None));
    ("price_eternal_cash", (92, U32, None));
    ("enable_sale_gold", (96, U8, None));
    ("enable_sale_cash", (97, U8, None));
    ("description", (132, Str, Some 63));
    ("crater_attack", (104, I32, None));
    ("attack", (108, I32, None));
    ("defense", (112, I32, None));
    ("energy", (116, I32, None));
    ("shield_regen", (120, I32, None));
    ("item_delay", (124, I32, None));
    ("popularity", (128, I32, None)) ]%string.

Definition EXITEM_MAP : list (string * fieldspec) :=
  [ ("avatar_code", (0, U32, None));
    ("ex_number", (8, U32, None));
    ("name", (20, Str, Some 19));
    ("show_in_shop", (43, U8, None));
    ("sell_weekly", (45, U8, None));
    ("sell_monthly", (68, U8, None));
    ("sell_eternal", (92, U8, None));
    ("price_weekly_gold", (48, U32, None));
    ("price_weekly_cash", (52, U32, None));
    ("price_monthly_gold", (72, U32, None));
    ("price_monthly_cash", (76, U32, None));
    ("price_eternal_gold", (96, U32, None));
    ("price_eternal_cash", (100, U32, None));
    ("enable_sale_gold", (104, U8, None));
    ("enable_sale_cash", (105, U8, None));
    ("description", (132, Str, Some 63)) ]%string.

(** The stat fields that only a Normal record has, as both edit paths and
    [_parse] list them. *)
Definition STAT_FIELDS : list string :=
  [ "crater_attack"; "attack"; "defense"; "energy"; "shield_regen";
    "item_delay"; "popularity" ]%string.

(** ** Records *)

(** [Record.type]: ["Normal"] or ["Ex-item"]. *)
Inductive rtype : Set := Normal | ExItem.

#[global] Instance rtype_eq_dec : EqDecision rtype.
Proof. solve_decision. Defined.

Record Rec : Type := mkRec {
  index : Z;
  type : rtype;
  raw_off : Z;
  data : gmap string value
}.

Definition map_of (t : rtype) : list (string * fieldspec) :=
  match t with
  | Normal => NORMAL_MAP
  | ExItem => EXITEM_MAP
  end.

Definition size_of (t : rtype) : Z :=
  match t with
  | Normal => NORMAL_SIZE
  | ExItem => EXITEM_SIZE
  end.

(** [d.get(k, dflt)] and [d.setdefault(k, v)] *)
Definition get (d : gmap string value) (k : string) (dflt : value) : value :=
  default dflt (d !! k).

Definition setdefault (k : string) (v : value) (d : gmap string value)
  : gmap string value :=
  match d !! k with
  | Some _ => d
  | None => <[k := v]> d
  end.

(** ** DATModel: detection and parsing *)

Definition header : Z := 4.

Definition detect_record_size (total : Z) : Z :=
  let payload := Z.max 0 (total - 4) in
  if payload mod NORMAL_SIZE =? 0 then NORMAL_SIZE
  else if payload mod EXITEM_SIZE =? 0 then EXITEM_SIZE
  else NORMAL_SIZE.

(** [range(n)] *)
Definition range (n : Z) : list Z :=
  map Z.of_nat (seq 0 (Z.to_nat n)).

(** The body of the [try] block of [_parse] for one field. *)
Definition decode_field (d : bytes) (oo : Z) (k : string) (t : ftype)
    (L : option Z) : result value :=
  if len d <=? oo then Raise IndexError
  else
    match t with
    | U32 => v ← read_u32_le d oo; Ok (VInt v)
    | I32 => v ← read_i32_le d oo; Ok (VInt v)
    | U8 =>
        val ← read_u8 d oo;
        if String.eqb k "show_in_shop"
        then Ok (VInt (if negb (val =? 0) then 1 else 0))
        else Ok (VInt val)
    | Str =>
        match L with
        | Some n => Ok (VStr (read_str d oo n))
        | None => Raise TypeError
        end
    end.

(** The [try/except] around it: any exception leaves [None] in the field. *)
Definition parse_field (d : bytes) (oo : Z) (k : string) (t : ftype)
    (L : option Z) : value :=
  match decode_field d oo k t L with
  | Ok v => v
  | Raise _ => VNone
  end.

(** The loop over [m.items()] filling the dictionary [rec]. *)
Definition parse_fields (d : bytes) (off : Z) (m : list (string * fieldspec))
  : gmap string value :=
  foldl (fun rec '(k, (o, t, L)) => <[k := parse_field d (off + o) k t L]> rec)
        ∅ m.

(** One iteration of the loop over [range(count)]. *)
Definition parse_record (d : bytes) (size : Z) (i : Z) : Rec :=
  let off := header + i * size in
  let rtype := if size =? NORMAL_SIZE then Normal else ExItem in
  let m := map_of rtype in
  let rec := parse_fields d off m in
  let rec :=
    match rtype with
    | Normal => setdefault "ex_number" VNone rec
    | ExItem =>
        foldl (fun rec field => setdefault field VNone rec)
              (setdefault "image_number" VNone rec) STAT_FIELDS
    end in
  mkRec i rtype off rec.

(** [DATModel._parse], as a function of the buffer [self.data]: the new
    value of [self.records]. *)
Definition _parse (d : bytes) : list Rec :=
  let total := len d in
  let size := detect_record_size total in
  let count := (total - header) / size in
  map (parse_record d size) (range count).

(** ** Files *)

(** What the operating system lets the process do with an existing file:
    [ReadOnly] fails [os.access(_, os.W_OK)], [Locked] passes it but cannot
    be opened for writing. *)
Inductive access : Set := Writable | ReadOnly | Locked.

(** The files by path, and the paths at which no file can be created. *)
Record filesystem : Type := mkFs {
  files : gmap string (access * bytes);
  blocked : gset string
}.

(** The check at the head of [save]: nothing is done for a path with no file;
    an existing file must be writable, and is opened in append mode and closed
    again, which leaves its content as it is. *)
Definition check_writable (fs : filesystem) (out : string) : result unit :=
  match files fs !! out with
  | None => Ok tt
  | Some (ReadOnly, _) => Raise PermissionError
  | Some (Locked, _) => Raise PermissionError
  | Some (Writable, _) => Ok tt
  end.

(** [open(out, "wb")] followed by one [write] of the whole of [content]. *)
Definition write_file (fs : filesystem) (out : string) (content : bytes)
  : result filesystem :=
  match files fs !! out with
  | Some (ReadOnly, _) => Raise PermissionError
  | Some (Locked, _) => Raise PermissionError
  | Some (Writable, _) =>
      Ok (mkFs (<[out := (Writable, content)]> (files fs)) (blocked fs))
  | None =>
      if bool_decide (out ∈ blocked fs) then Raise OSError
      else Ok (mkFs (<[out := (Writable, content)]> (files fs)) (blocked fs))
  end.

(** ** DATModel: state and saving *)

Record DATModel : Type := mkModel {
  path : option string;
  buffer : bytes;          (* [self.data] *)
  records : list Rec
}.

(** [path or self.path], then [if not out]. *)
Definition nonempty (p : option string) : option string :=
  match p with
  | Some s => if String.eqb s EmptyString then None else Some s
  | None => None
  end.

Definition out_path (self : DATModel) (p : option string) : option string :=
  match nonempty p with
  | Some s => Some s
  | None => nonempty (path self)
  end.

Section Model.

(** Python's built-in [int] applied to a [str]: the integer the text
    denotes, or [ValueError]. It is not code of the editor. *)
Variable int_of_str : pystr -> result Z.

(** [int(v)] *)
Definition py_int (v : value) : result Z :=
  match v with
  | VInt z => Ok z
  | VStr s => int_of_str s
  | VNone => Raise TypeError
  end.

(** The body of the [try] block of [save] for one field present in the
    record. *)
Definition encode_field (d : bytes) (oo : Z) (k : string) (t : ftype)
    (L : option Z) (val : value) : result bytes :=
  if len d <=? oo then Raise IndexError
  else
    match t with
    | U32 => z ← py_int val; write_u32_le d oo z
    | I32 => z ← py_int val; write_i32_le d oo z
    | U8 =>
        if String.eqb k "show_in_shop"
        then write_u8 d oo (if ne_int val 0 then 1 else 0)
        else z ← py_int val; write_u8 d oo z
    | Str =>
        let text := py_str (if truthy val then val else VStr []) in
        match L with
        | Some n => Ok (write_str d oo n text)
        | None => Raise TypeError
        end
    end.

(** The loop over [m.items()] of [save] for the record at [base]: the
    buffer after it, and whether it ran to its end. Any exception of a
    field becomes [RuntimeError] and ends the loop. *)
Fixpoint save_fields (d : bytes) (base : Z) (rdata : gmap string value)
    (m : list (string * fieldspec)) : bytes * result unit :=
  match m with
  | [] => (d, Ok tt)
  | (k, (o, t, L)) :: m' =>
      match rdata !! k with
      | None => save_fields d base rdata m'
      | Some val =>
          match encode_field d (base + o) k t L val with
          | Ok d' => save_fields d' base rdata m'
          | Raise _ => (d, Raise RuntimeError)
          end
      end
  end.

(** The loop over [self.records] of [save]. *)
Fixpoint save_records (d : bytes) (recs : list Rec) : bytes * result unit :=
  match recs with
  | [] => (d, Ok tt)
  | rec :: rest =>
      match save_fields d (raw_off rec) (data rec) (map_of (type rec)) with
      | (d', Ok _) => save_records d' rest
      | (d', Raise e) => (d', Raise e)
      end
  end.

(** [DATModel.save]: what it returns or raises, the model after it (the
    buffer is updated in place, also when a later field fails) and the
    files after it. *)
Definition save (fs : filesystem) (self : DATModel) (p : option string)
  : result unit * DATModel * filesystem :=
  match out_path self p with
  | None => (Raise RuntimeError, self, fs)
  | Some out =>
      match check_writable fs out with
      | Raise PermissionError => (Raise PermissionError, self, fs)
      | Raise _ => (Raise RuntimeError, self, fs)
      | Ok _ =>
          let '(d, r) := save_records (buffer self) (records self) in
          let self' := mkModel (path self) d (records self) in
          match r with
          | Raise e => (Raise e, self', fs)
          | Ok _ =>
              match write_file fs out d with
              | Ok fs' => (Ok tt, self', fs')
              | Raise _ => (Raise RuntimeError, self', fs)
              end
          end
      end
  end.

End Model.

(** [DATModel.load], given the content of the file. *)
Definition load (p : string) (content : bytes) : DATModel :=
  mkModel (Some p) content (_parse content).

(** ** Floating point, as the item export uses it *)

(** A Python [float] is an IEEE 754 binary64 number. *)
Definition float : Type := spec_float.

Definition float_of_int (z : Z) : float := binary_normalize 53 1024 z 0 false.

(** [a / b] for two integers: the quotient rounded once to the nearest
    float; a quotient too large for a float raises. *)
Definition int_truediv (a b : Z) : result float :=
  match a, b with
  | _, Z0 => Raise ZeroDivisionError
  | Z0, _ => Ok (S754_zero false)
  | _, _ =>
      let operand z :=
        match z with
        | Zpos p => S754_finite false p 0
        | Zneg p => S754_finite true p 0
        | Z0 => S754_zero false
        end in
      match SFdiv 53 1024 (operand a) (operand b) with
      | S754_infinity _ => Raise OverflowError
      | q => Ok q
      end
  end.

(** [x * n] for a float and an integer that converts to a float exactly. *)
Definition float_mul_int (x : float) (n : Z) : float :=
  SFmul 53 1024 x (float_of_int n).

(** [math.floor(x)] *)
Definition math_floor (x : float) : result Z :=
  match x with
  | S754_zero _ => Ok 0
  | S754_finite s m e =>
      let z := if s then Zneg m else Zpos m in
      Ok (if 0 <=? e then z * 2 ^ e else z / 2 ^ (- e))
  | S754_infinity _ => Raise OverflowError
  | S754_nan => Raise ValueError
  end.

(** [math.floor((v / 100) * 60)] for a value of the dictionary. *)
Definition refund (v : value) : result Z :=
  match v with
  | VInt z => q ← int_truediv z 100; math_floor (float_mul_int q 60)
  | _ => Raise TypeError
  end.

(** ** DATModel: the two SQL exports *)

Definition nl : pystr := [10].

Definition banner : pystr :=
  lit "#################################" ++ nl ++
  lit "###   BY FIRELORDZ(Agasready)   ###" ++ nl ++
  lit "#################################" ++ nl ++ nl.

(** [rec.data.get("show_in_shop", 0) != 1]: the record is passed over. *)
Definition not_shown (rec : Rec) : bool :=
  ne_int (get (data rec) "show_in_shop" (VInt 0)) 1.

(** [rec.data.get(price, 0) if rec.data.get(enable, 0) == 1 and
    rec.data.get(sell, 0) == 1 else 0] *)
Definition price_if (rec : Rec) (price enable sell : string) : value :=
  if eq_int (get (data rec) enable (VInt 0)) 1
     && eq_int (get (data rec) sell (VInt 0)) 1
  then get (data rec) price (VInt 0)
  else VInt 0.

(** The statement the menu export adds for a record it does not pass over. *)
Definition menu_statement (rec : Rec) : pystr :=
  let gold_weekly := price_if rec "price_weekly_gold" "enable_sale_gold" "sell_weekly" in
  let gold_monthly := price_if rec "price_monthly_gold" "enable_sale_gold" "sell_monthly" in
  let gold_eternal := price_if rec "price_eternal_gold" "enable_sale_gold" "sell_eternal" in
  let cash_weekly := price_if rec "price_weekly_cash" "enable_sale_cash" "sell_weekly" in
  let cash_monthly := price_if rec "price_monthly_cash" "enable_sale_cash" "sell_monthly" in
  let cash_eternal := price_if rec "price_eternal_cash" "enable_sale_cash" "sell_eternal" in
  let avatar_code := get (data rec) "avatar_code" (VInt 0) in
  lit "INSERT INTO menu (No, Item1, PriceByGoldForW, PriceByGoldForM, PriceByGoldForI, PriceByCashForW, PriceByCashForM, PriceByCashForI, Period1, Volume1) VALUES ('"
  ++ py_str avatar_code ++ lit "', '" ++ py_str avatar_code
  ++ lit "', '" ++ py_str gold_weekly
  ++ lit "', '" ++ py_str gold_monthly
  ++ lit "', '" ++ py_str gold_eternal
  ++ lit "', '" ++ py_str cash_weekly
  ++ lit "', '" ++ py_str cash_monthly
  ++ lit "', '" ++ py_str cash_eternal
  ++ lit "', '86400', '1');" ++ nl.

(** The text [sql] that [export_sql_menu] builds before it opens the file. *)
Definition menu_sql (recs : list Rec) : pystr :=
  foldl (fun sql rec => if not_shown rec then sql else sql ++ menu_statement rec)
        banner recs.

(** The statement the item export adds for a record it does not pass over;
    the arithmetic can raise. *)
Definition item_statement (rec : Rec) : result pystr :=
  let price_eternal_gold := get (data rec) "price_eternal_gold" (VInt 0) in
  preco ← refund price_eternal_gold;
  let avatar_code := get (data rec) "avatar_code" (VInt 0) in
  Ok (lit "INSERT INTO item (No, Refund_C, Refund_G, Refund_T, Refund_E) VALUES ('"
      ++ py_str avatar_code
      ++ lit "', '" ++ str_of_int preco
      ++ lit "', '" ++ str_of_int preco
      ++ lit "', '" ++ str_of_int preco
      ++ lit "', '" ++ str_of_int preco
      ++ lit "');" ++ nl).

(** The text [sql] that [export_sql_item] builds, or the exception that
    leaves the loop. *)
Definition item_sql (recs : list Rec) : result pystr :=
  foldl (fun acc rec =>
           sql ← acc;
           if not_shown rec then Ok sql
           else line ← item_statement rec; Ok (sql ++ line))
        (Ok banner) recs.

(** [text.encode("utf-8")] with the default error handling: a lone surrogate
    raises [UnicodeEncodeError], a [ValueError]. *)
Definition utf8_encode_strict (text : pystr) : result bytes :=
  if existsb is_surrogate text then Raise ValueError
  else Ok (utf8_encode text).

(** [open(p, "w", encoding="utf-8")] and one [write] of the text: opening
    empties the file, the text is encoded as a whole and written; a failure
    is reported as [RuntimeError]. The newline translation of the platform
    is left out. *)
Definition write_text (fs : filesystem) (p : string) (text : pystr)
  : result unit * filesystem :=
  match write_file fs p [] with
  | Raise _ => (Raise RuntimeError, fs)
  | Ok fs0 =>
      match utf8_encode_strict text with
      | Raise _ => (Raise RuntimeError, fs0)
      | Ok content =>
          match write_file fs0 p content with
          | Ok fs' => (Ok tt, fs')
          | Raise _ => (Raise RuntimeError, fs0)
          end
      end
  end.

Definition export_sql_menu (fs : filesystem) (self : DATModel) (p : string)
  : result unit * filesystem :=
  write_text fs p (menu_sql (records self)).

Definition export_sql_item (fs : filesystem) (self : DATModel) (p : string)
  : result unit * filesystem :=
  match item_sql (records self) with
  | Ok sql => write_text fs p sql
  | Raise e => (Raise e, fs)
  end.

(** ** The editor's two edit paths *)

(** What an edit path does besides changing the record: nothing, an error
    dialog after which the loop goes on, or an error dialog after which the
    handler returns. *)
Inductive notice : Type :=
| Silent
| ErrorShown (msg : string)
| ErrorReturn (msg : string).

Definition is_stat_field (f : string) : bool :=
  bool_decide (f ∈ STAT_FIELDS).

(** The columns that [on_double_click_cell] stores as integers. *)
Definition INT_COLUMNS : list string :=
  [ "avatar_code"; "image_number"; "ex_number"; "sell_weekly"; "sell_monthly";
    "sell_eternal"; "enable_sale_gold"; "enable_sale_cash";
    "price_weekly_gold"; "price_weekly_cash"; "price_monthly_gold";
    "price_monthly_cash"; "price_eternal_gold"; "price_eternal_cash";
    "crater_attack"; "attack"; "defense"; "energy"; "shield_regen";
    "item_delay"; "popularity" ]%string.

Definition set_field (rec : Rec) (k : string) (v : value) : Rec :=
  mkRec (index rec) (type rec) (raw_off rec) (<[k := v]> (data rec)).

Section Editor.

Variable int_of_str : pystr -> result Z.

(** The [show_in_shop] branch, the same in both paths: the text must
    denote 0 or 1. *)
Definition edit_show_in_shop (rec : Rec) (k : string) (txt : pystr)
  : Rec * notice :=
  match int_of_str txt with
  | Ok val =>
      if (val =? 0) || (val =? 1)
      then (set_field rec k (VInt (if negb (val =? 0) then 1 else 0)), Silent)
      else (rec, ErrorReturn "Visible harus 0 atau 1")
  | Raise _ => (rec, ErrorReturn "Visible harus 0 atau 1")
  end.

(** One iteration of the loop of [apply_batch] over the selected rows, for
    the record [rec] of the row; [vtxt] is the stripped text of the value
    box. The exception of a name that cannot be encoded leaves the
    handler. *)
Definition apply_batch_row (field : string) (vtxt : pystr) (rec : Rec)
  : result (Rec * notice) :=
  if is_stat_field field && bool_decide (type rec = ExItem)
  then Ok (rec, Silent)
  else if String.eqb field "name" then
    raw ← utf8_encode_strict vtxt;
    if 19 <? len raw
    then Ok (rec, ErrorShown "Nama maksimal 19 karakter (UTF-8).")
    else Ok (set_field rec field (VStr vtxt), Silent)
  else if String.eqb field "show_in_shop" then
    Ok (edit_show_in_shop rec field vtxt)
  else
    match int_of_str vtxt with
    | Ok val => Ok (set_field rec field (VInt val), Silent)
    | Raise _ => Ok (rec, ErrorReturn (field +:+ " harus angka"))
    end.

(** The loop of [apply_batch]: [sels] are the indices of the selected
    rows; the records after it and the dialogs shown, oldest first. *)
Fixpoint apply_batch_rows (field : string) (vtxt : pystr)
    (recs : list Rec) (sels : list Z) : result (list Rec * list string) :=
  match sels with
  | [] => Ok (recs, [])
  | idx :: rest =>
      match py_index (len recs) idx with
      | None => Raise IndexError
      | Some i =>
          match recs !! i with
          | None => Raise IndexError
          | Some rec =>
              '(rec', n) ← apply_batch_row field vtxt rec;
              let recs' := <[i := rec']> recs in
              match n with
              | Silent => apply_batch_rows field vtxt recs' rest
              | ErrorShown msg =>
                  '(recs'', msgs) ← apply_batch_rows field vtxt recs' rest;
                  Ok (recs'', msg :: msgs)
              | ErrorReturn msg => Ok (recs', [msg])
              end
          end
      end
  end.

(** [apply_batch]: nothing is edited without a field, a value or a selected
    row; [vtxt] is the stripped text of the value box, and the dialogs
    shown, of whatever kind, are listed oldest first. *)
Definition apply_batch (field : string) (vtxt : pystr) (recs : list Rec)
    (sels : list Z) : result (list Rec * list string) :=
  if String.eqb field EmptyString
  then Ok (recs, ["Pilih field untuk diedit."%string])
  else
    match vtxt, sels with
    | [], _ => Ok (recs, ["Masukkan nilai."%string])
    | _, [] => Ok (recs, ["Tidak ada baris yang dipilih."%string])
    | _, _ => apply_batch_rows field vtxt recs sels
    end.

(** [finish], the handler that [on_double_click_cell] binds to the entry
    box, for the record of the row and the column of the cell; [newv] is
    the stripped text of the entry box. *)
Definition finish (column : string) (newv : pystr) (rec : Rec)
  : result (Rec * notice) :=
  if is_stat_field column && bool_decide (type rec = ExItem)
  then Ok (rec, ErrorReturn (column +:+ " tidak tersedia untuk Ex-item"))
  else if String.eqb column "name" then
    raw ← utf8_encode_strict newv;
    if 19 <? len raw
    then Ok (rec, ErrorReturn "Nama maksimal 19 karakter (UTF-8).")
    else Ok (set_field rec column (VStr newv), Silent)
  else if String.eqb column "show_in_shop" then
    Ok (edit_show_in_shop rec column newv)
  else if String.eqb column "description" then
    raw ← utf8_encode_strict newv;
    if 63 <? len raw
    then Ok (rec, ErrorReturn "Deskripsi maksimal 63 karakter (UTF-8).")
    else Ok (set_field rec column (VStr newv), Silent)
  else if bool_decide (column ∈ INT_COLUMNS) then
    match int_of_str newv with
    | Ok val => Ok (set_field rec column (VInt val), Silent)
    | Raise _ => Ok (rec, ErrorReturn (column +:+ " harus angka"))
    end
  else Ok (rec, ErrorReturn ("Kolom " +:+ column +:+ " tidak dapat diedit")).

End Editor.

(** ** Vocabulary of the statements *)

(** The field [k] of the record holds the integer 1. *)
Definition is_one (rec : Rec) (k : string) : Prop :=
  data rec !! k = Some (VInt 1).

#[global] Instance is_one_dec (rec : Rec) (k : string) : Decision (is_one rec k).
Proof. unfold is_one. apply _. Defined.

(** The value stored under [k]; 0 when the record has no such key. *)
Definition stored (rec : Rec) (k : string) : value :=
  default (VInt 0) (data rec !! k).

(** A price column of the menu report: the stored price when both flags
    hold 1, else 0. *)
Definition gated (rec : Rec) (enable sell price : string) : value :=
  if decide (is_one rec enable ∧ is_one rec sell) then stored rec price
  else VInt 0.

(** A line of the menu report with the given columns. *)
Definition menu_line (no gold_w gold_m gold_e cash_w cash_m cash_e : value)
  : pystr :=
  let column (v : value) : pystr := py_str v ++ lit "', '" in
  lit "INSERT INTO menu (No, Item1, PriceByGoldForW, PriceByGoldForM, PriceByGoldForI, PriceByCashForW, PriceByCashForM, PriceByCashForI, Period1, Volume1) VALUES ('"
  ++ column no ++ column no
  ++ column gold_w ++ column gold_m ++ column gold_e
  ++ column cash_w ++ column cash_m ++ column cash_e
  ++ lit "86400', '1');" ++ nl.

(** A reading of decimal ASCII text, used where a statement needs some
    [int] at hand. *)
Definition int_of_ascii (s : pystr) : result Z :=
  let digits (t : pystr) : option Z :=
    match t with
    | [] => None
    | _ =>
        foldl (λ acc c,
                 a ← acc;
                 if (48 <=? c) && (c <=? 57) then Some (10 * a + (c - 48))
                 else None)
              (Some 0) t
    end in
  let signed :=
    match s with
    | 45 :: t => Z.opp <$> digits t
    | 43 :: t => digits t
    | _ => digits s
    end in
  match signed with
  | Some z => Ok z
  | None => Raise ValueError
  end.

(** The field names every parsed record has: those of the Normal layout
    and [ex_number]. *)
Definition FIELD_NAMES : list string := NORMAL_MAP.*1 ++ ["ex_number"%string].

(** The fields [_parse] sets to [None] because the layout of the record
    does not have them. *)
Definition other_fields (t : rtype) : list string :=
  match t with
  | Normal => ["ex_number"%string]
  | ExItem => "image_number"%string :: STAT_FIELDS
  end.

(** The single-byte flags other than [show_in_shop]. *)
Definition SALE_FLAGS : list string :=
  [ "sell_weekly"; "sell_monthly"; "sell_eternal";
    "enable_sale_gold"; "enable_sale_cash" ]%string.

(** The entry of [k] in a record map. *)
Fixpoint spec_of (m : list (string * fieldspec)) (k : string)
  : option fieldspec :=
  match m with
  | [] => None
  | (k', s) :: m' => if decide (k' = k) then Some s else spec_of m' k
  end.

(** The number of bytes a field takes in the file. *)
Definition width (t : ftype) (L : option Z) : Z :=
  match t with
  | U32 | I32 => 4
  | U8 => 1
  | Str => default 0 L
  end.

(** The variant [_parse] reads a record size as. *)
Definition variant_of (size : Z) : rtype :=
  if size =? NORMAL_SIZE then Normal else ExItem.

(** An entry of a record map lies inside a record of [size] bytes, takes at
    least one byte, and has a length when it is a string. *)
Definition fits (size : Z) (e : string * fieldspec) : bool :=
  let '(k, (o, t, L)) := e in
  (0 <=? o) && (0 <? width t L) && (o + width t L <=? size)
  && match t with Str => bool_decide (is_Some L) | _ => true end.

(** No two entries of a record map overlap. *)
Fixpoint no_overlap (m : list (string * fieldspec)) : bool :=
  match m with
  | [] => true
  | (_, (o, t, L)) :: rest =>
      forallb (λ '(_, (o', t', L')),
                 (o + width t L <=? o') || (o' + width t' L' <=? o)) rest
      && no_overlap rest
  end.

(** The buffer [d] with the bytes [bs] written over those at [a]. *)
Definition splice (d : bytes) (a : nat) (bs : bytes) : bytes :=
  take a d ++ bs ++ drop (a + length bs) d.

(** The [w] bytes of [d] at [a]. *)
Definition slice (d : bytes) (a w : nat) : bytes := take w (drop a d).

(** A code point that UTF-8 can encode: not a surrogate, at most U+10FFFF. *)
Definition is_scalar (c : Z) : bool :=
  (0 <=? c) && (c <=? 0x10FFFF) && negb (is_surrogate c).

(** Text that a zero-terminated field can hold: encodable, with no NUL. *)
Definition plain_text (s : pystr) : bool :=
  forallb (λ c, is_scalar c && negb (c =? 0)) s.

(** The text that [read_str] makes of the bytes before the terminator:
    UTF-8 if they decode, else Latin-1. *)
Definition decode_text (s : bytes) : pystr :=
  match utf8_decode s with
  | Some t => t
  | None => map byte_to_Z s
  end.

(** The content of a fixed-width field of [n] bytes holding [text]: its
    encoding cut to [n] bytes, then zeros. *)
Definition fixed_field (n : Z) (text : pystr) : bytes :=
  let raw := take (Z.to_nat n) (utf8_encode text) in
  raw ++ zeros (n - len raw).

(** ** Valid records *)

(** A value that the layout can hold in a field and give back: an integer
    of the field's range (0 or 1 for [show_in_shop], which is coerced), or
    a text with no NUL whose encoding fits the field. *)
Definition valid_value (k : string) (t : ftype) (L : option Z) (v : value)
  : bool :=
  match t, v with
  | U32, VInt z => (0 <=? z) && (z <? 2 ^ 32)
  | I32, VInt z => (- 2 ^ 31 <=? z) && (z <? 2 ^ 31)
  | U8, VInt z =>
      if String.eqb k "show_in_shop" then (z =? 0) || (z =? 1)
      else (0 <=? z) && (z <? 256)
  | Str, VStr s =>
      match L with
      | Some n => plain_text s && (len (utf8_encode s) <=? n)
      | None => false
      end
  | _, _ => false
  end.

(** The dictionary of a record of variant [T]: a valid value in every
    field of the layout, [None] in the fields of the other layout, and no
    other key. *)
Definition valid_data (T : rtype) (m : gmap string value) : bool :=
  forallb (λ '(k, (o, t, L)),
             match m !! k with
             | Some v => valid_value k t L v
             | None => false
             end) (map_of T)
  && forallb (λ k, bool_decide (m !! k = Some VNone)) (other_fields T)
  && bool_decide (dom m = list_to_set FIELD_NAMES).

(** The record is the [i]-th of a file of variant [T]. *)
Definition well_formed (T : rtype) (i : Z) (r : Rec) : bool :=
  (index r =? i) && bool_decide (type r = T)
  && (raw_off r =? header + i * size_of T) && valid_data T (data r).

(** The records are those of a file of variant [T], from index [i] on. *)
Fixpoint laid_out (T : rtype) (i : Z) (recs : list Rec) : bool :=
  match recs with
  | [] => true
  | r :: rest => well_formed T i r && laid_out T (i + 1) rest
  end.

(** ** Saving as a list of writes *)

(** The bytes of the file that hold the value [v] of a field. *)
Definition field_bytes (k : string) (t : ftype) (L : option Z) (v : value)
  : bytes :=
  match t, v with
  | U32, VInt z | I32, VInt z => le_encode4 z
  | U8, VInt z => [byte_of_Z z]
  | Str, VStr s => fixed_field (default 0 L) s
  | _, _ => []
  end.

(** The entry [e] of a record map names a field of the dictionary that holds
    a valid value and lies between [lo] and [hi] in the file, for a record
    at [base]. *)
Definition field_ok (lo hi base : Z) (rdata : gmap string value)
    (e : string * fieldspec) : Prop :=
  let '(k, (o, t, L)) := e in
  ∃ v, rdata !! k = Some v ∧ valid_value k t L v = true ∧
       0 < width t L ∧ lo <= base + o ∧ base + o + width t L <= hi.

(** The write that saving the field of the entry comes to. *)
Definition field_write (base : Z) (rdata : gmap string value)
    (e : string * fieldspec) : nat * bytes :=
  let '(k, (o, t, L)) := e in
  (Z.to_nat (base + o), field_bytes k t L (default VNone (rdata !! k))).

(** The writes that saving a record comes to: where, and which bytes. *)
Definition record_writes (r : Rec) : list (nat * bytes) :=
  map (field_write (raw_off r) (data r)) (map_of (type r)).

Definition apply_writes (d : bytes) (ws : list (nat * bytes)) : bytes :=
  foldl (λ d w, splice d w.1 w.2) d ws.

(** Two writes touch no common byte. *)
Definition apart (w1 w2 : nat * bytes) : Prop :=
  (w1.1 + length w1.2 <= w2.1 ∨ w2.1 + length w2.2 <= w1.1)%nat.

(** No two writes of the list touch a common byte. *)
Fixpoint all_apart (ws : list (nat * bytes)) : Prop :=
  match ws with
  | [] => True
  | w :: rest => Forall (apart w) rest ∧ all_apart rest
  end.

(** ** Sample inputs *)

(** A record read with no visibility flag, next to one that is shown. *)
Definition flagless : Rec :=
  mkRec 0 Normal 4 {[ "show_in_shop" := VNone; "avatar_code" := VInt 7 ]}.

Definition shown_sample : Rec :=
  mkRec 1 Normal 648
    {[ "show_in_shop" := VInt 1; "avatar_code" := VInt 9;
       "price_eternal_gold" := VInt 1000 ]}.

(** A record in the shop whose eternal gold price is 205. *)
Definition priced_205 : Rec :=
  mkRec 0 Normal 4
    {[ "show_in_shop" := VInt 1; "avatar_code" := VInt 9;
       "price_eternal_gold" := VInt 205 ]}.

(** An Ex-item record as [_parse] leaves it, read from zero bytes. *)
Definition exitem_sample : Rec := parse_record (replicate 688 x00) 684 0.

(** A file cut short inside its first record: the header and 36 bytes. *)
Definition truncated_buffer : bytes :=
  replicate 4 x00 ++ [x2a; x00; x00; x00] ++ replicate 31 x00 ++ [x05].

(** A Normal file of one record whose [sell_weekly] byte is 5 and whose
    [show_in_shop] byte is 7. *)
Definition flags_buffer : bytes :=
  replicate 4 x00 ++ <[37%nat := x05]> (<[35%nat := x07]> (replicate 644 x00)).

(** A name of three characters with a NUL in the middle. *)
Definition nul_text : pystr := [97; 0; 98].

(** A Normal file of one record, and the record as an editor session may
    leave it: named, numbered, put in the shop and given an attack. *)
Definition one_record_buffer : bytes := replicate 648 x00.

Definition hero : Rec :=
  set_field
    (set_field
       (set_field
          (set_field (parse_record one_record_buffer 644 0)
             "name" (VStr (lit "Hero")))
          "avatar_code" (VInt 20))
       "show_in_shop" (VInt 1))
    "attack" (VInt (-5)).

(** An Ex-item file of 161 records, all zero bytes, and the records that
    [_parse] would give if it read the file as Ex-item. *)
Definition exitem_161_buffer : bytes := replicate (Z.to_nat 110128) x00.

Definition exitem_161 : list Rec :=
  map (λ i, mkRec i ExItem (header + i * EXITEM_SIZE) (data exitem_sample))
      (range 161).

(** The record that [_parse] reads from the file of one zero record. *)
Definition hero_file_record : Rec := parse_record one_record_buffer 644 0.

(** The file of one zero record under another header. *)
Definition relabelled_buffer : bytes :=
  [x47; x42; x57; x43] ++ replicate 644 x00.

(** The field of the entry [e], of a record at [base] in a buffer of [n]
    bytes, lies inside the buffer, and what the dictionary holds for it is
    of the kind its type tag writes without an error. *)
Definition encodable (n base : Z) (rdata : gmap string value)
    (e : string * fieldspec) : Prop :=
  let '(k, (o, t, L)) := e in
  0 <= base + o ∧ 0 < width t L ∧ base + o + width t L <= n ∧
  match rdata !! k with
  | None => True
  | Some v =>
      match t with
      | U32 => ∃ z, v = VInt z ∧ 0 <= z < 2 ^ 32
      | I32 => ∃ z, v = VInt z ∧ - 2 ^ 31 <= z < 2 ^ 31
      | U8 => k = "show_in_shop"%string ∨ ∃ z, v = VInt z
      | Str => is_Some L
      end
  end.

(** The byte [p] of the file lies in no field of the records. *)
Definition outside_fields (recs : list Rec) (p : nat) : Prop :=
  ∀ r k o t L, r ∈ recs → (k, (o, t, L)) ∈ map_of (type r) →
    Z.of_nat p < raw_off r + o ∨ raw_off r + o + width t L <= Z.of_nat p.

(** The records have the variant and the places of those of the file [d];
    their dictionaries may have been edited. *)
Definition records_of_file (d : bytes) (recs : list Rec) : Prop :=
  Forall2 (λ r0 r, type r = type r0 ∧ raw_off r = raw_off r0) (_parse d) recs.

(** The record of the file of one zero record after two edits: a new
    avatar code, and a defense of 2^31, one more than a signed field
    holds. *)
Definition overflowing : Rec :=
  set_field (set_field hero_file_record "avatar_code" (VInt 20))
            "defense" (VInt (2 ^ 31)).

(** Where the last whole record of a file of [total] bytes ends. *)
Definition whole_records_end (total : Z) : Z :=
  header
  + (total - header) / detect_record_size total * detect_record_size total.

(** The integers that the type tag [t] packs: 32 bits for ["u32"], 32 bits
    with sign for ["i32"]. *)
Definition int_range (t : ftype) (z : Z) : Prop :=
  match t with
  | U32 => 0 <= z < 2 ^ 32
  | I32 => - 2 ^ 31 <= z < 2 ^ 31
  | _ => True
  end.

(** Two records of the same variant at the same place whose dictionaries
    agree on the keys of the layout of the variant. *)
Definition agree_on_layout (r r' : Rec) : Prop :=
  type r = type r' ∧ raw_off r = raw_off r' ∧
  ∀ k, k ∈ (map_of (type r)).*1 → data r !! k = data r' !! k.

(** The record of the file of one zero record, given an Ex-item number. *)
Definition numbered : Rec := set_field hero_file_record "ex_number" (VInt 7).

(** ** The image number box *)

Section ImageNumber.

Variable int_of_str : pystr → result Z.

(** One iteration of the loop of [on_change_image_number]: the number goes
    to [image_number] in a Normal record and to [ex_number] in an Ex-item
    record. *)
Definition change_image_row (newval : Z) (rec : Rec) : Rec :=
  if bool_decide (type rec = Normal)
  then set_field rec "image_number" (VInt newval)
  else set_field rec "ex_number" (VInt newval).

Fixpoint change_image_rows (newval : Z) (recs : list Rec) (sels : list Z)
  : result (list Rec) :=
  match sels with
  | [] => Ok recs
  | idx :: rest =>
      match py_index (len recs) idx with
      | None => Raise IndexError
      | Some i =>
          match recs !! i with
          | None => Raise IndexError
          | Some rec =>
              change_image_rows newval
                (<[i := change_image_row newval rec]> recs) rest
          end
      end
  end.

(** [on_change_image_number]: [txt] is the text of the box and [sels] are
    the indices of the selected rows; the records after it and the dialogs
    shown. *)
Definition on_change_image_number (txt : pystr) (recs : list Rec)
    (sels : list Z) : result (list Rec * list string) :=
  match sels with
  | [] => Ok (recs, [])
  | _ =>
      match int_of_str txt with
      | Raise _ => Ok (recs, ["Pilih angka"%string])
      | Ok newval =>
          recs' ← change_image_rows newval recs sels;
          Ok (recs', [])
      end
  end.

End ImageNumber.

(** One step of an editing session: a cell edit on the record of a row, a
    batch edit or a change of the image number, when the handler returns. *)
Inductive edit_step (int_of_str : pystr → result Z)
  : list Rec → list Rec → Prop :=
| cell_edit (column : string) (newv : pystr) (recs : list Rec) (i : nat)
    (rec rec' : Rec) (n : notice) :
    recs !! i = Some rec →
    finish int_of_str column newv rec = Ok (rec', n) →
    edit_step int_of_str recs (<[i := rec']> recs)
| batch_edit (field : string) (vtxt : pystr) (recs : list Rec)
    (sels : list Z) (recs' : list Rec) (msgs : list string) :
    apply_batch int_of_str field vtxt recs sels = Ok (recs', msgs) →
    edit_step int_of_str recs recs'
| image_edit (txt : pystr) (recs : list Rec) (sels : list Z)
    (recs' : list Rec) (msgs : list string) :
    on_change_image_number int_of_str txt recs sels = Ok (recs', msgs) →
    edit_step int_of_str recs recs'.

(** What no edit changes of a record: its index, its variant, its place,
    and the presence of a key. *)
Definition same_place (r r' : Rec) : Prop :=
  index r' = index r ∧ type r' = type r ∧ raw_off r' = raw_off r ∧
  dom (data r) ⊆ dom (data r').

(** A Normal file of one record named "Hat", with a [show_in_shop] byte
    of 7. *)
Definition named_buffer : bytes :=
  replicate 16 x00 ++ [x48; x61; x74] ++ replicate 20 x00 ++ [x07]
  ++ replicate 608 x00.

(** ** What the bytes of a field denote *)

(** The integer that four bytes hold, the first byte the lowest. *)
Definition little_endian (b0 b1 b2 b3 : byte) : Z :=
  byte_to_Z b0 + 256 * byte_to_Z b1 + 65536 * byte_to_Z b2
  + 16777216 * byte_to_Z b3.

(** The value that the bytes [bs] of a field named [k] of type [t] denote:
    an unsigned or a signed 32-bit integer, a single byte ([show_in_shop]
    as 0 or 1), or the text before the first zero byte. It is stated from
    the format, not from the reading code. *)
Definition decodes_to (k : string) (t : ftype) (bs : bytes) (v : value)
  : Prop :=
  match t with
  | U32 =>
      ∃ b0 b1 b2 b3, bs = [b0; b1; b2; b3] ∧
                     v = VInt (little_endian b0 b1 b2 b3)
  | I32 =>
      ∃ b0 b1 b2 b3, bs = [b0; b1; b2; b3] ∧
                     v = VInt (if little_endian b0 b1 b2 b3 <? 2 ^ 31
                               then little_endian b0 b1 b2 b3
                               else little_endian b0 b1 b2 b3 - 2 ^ 32)
  | U8 =>
      ∃ b, bs = [b] ∧
           v = VInt (if String.eqb k "show_in_shop"
                     then (if byte_to_Z b =? 0 then 0 else 1)
                     else byte_to_Z b)
  | Str =>
      ∃ pre, (bs = pre ∨ ∃ post, bs = pre ++ x00 :: post) ∧ (x00 ∉ pre) ∧
             v = VStr (decode_text pre)
  end.

(** The record [hero] with a price that is too large for a float. *)
Definition overpriced : Rec :=
  set_field hero "price_eternal_gold" (VInt (10 ^ 400)).

(** * Properties *)

(** ** Size detection *)

Lemma length_range (n : Z) : length (range n) = Z.to_nat n.
Proof. unfold range. by rewrite length_map, length_seq. Qed.

Lemma elem_of_range (n i : Z) : i ∈ range n ↔ 0 <= i < n.
Proof.
  unfold range. rewrite list_elem_of_fmap. split.
  - intros (k & -> & Hk). apply elem_of_seq in Hk. lia.
  - intros H. exists (Z.to_nat i). split; [lia|]. apply elem_of_seq. lia.
Qed.

Lemma detect_record_size_cases (total : Z) :
  detect_record_size total = NORMAL_SIZE ∨
  detect_record_size total = EXITEM_SIZE.
Proof. unfold detect_record_size. repeat case_match; auto. Qed.

Lemma detect_record_size_pos (total : Z) : 0 < detect_record_size total.
Proof.
  destruct (detect_record_size_cases total) as [-> | ->];
    unfold NORMAL_SIZE, EXITEM_SIZE; lia.
Qed.

Lemma length_parse (d : bytes) :
  length (_parse d)
  = Z.to_nat ((len d - header) / detect_record_size (len d)).
Proof. unfold _parse. by rewrite length_map, length_range. Qed.

(** The number of records is the payload divided by the record size, also
    for a file shorter than its header. *)
Lemma count_payload (total size : Z) :
  0 < size →
  Z.to_nat ((total - header) / size) = Z.to_nat (Z.max 0 (total - 4) / size).
Proof.
  intros Hs. unfold header. destruct (Z.le_gt_cases 4 total) as [H | H].
  - by rewrite Z.max_r by lia.
  - rewrite Z.max_l by lia. rewrite Z.div_0_l by lia.
    assert ((total - 4) / size < 0) by (apply Z.div_lt_upper_bound; lia).
    lia.
Qed.

(** C2. Size detection: with [payload = max(0, T - 4)], the record size is
    that of Normal when 644 divides the payload, else that of Ex-item when
    684 divides it, else that of Normal again, so a payload that both divide
    is read as Normal; and the number of records parsed is the payload
    divided by the chosen size, rounded down, each record of the variant
    chosen. *)
Theorem size_detection :
  (∀ T : Z,
     let payload := Z.max 0 (T - 4) in
     (payload mod 644 = 0 → detect_record_size T = 644) ∧
     (payload mod 644 ≠ 0 → payload mod 684 = 0 → detect_record_size T = 684) ∧
     (payload mod 644 ≠ 0 → payload mod 684 ≠ 0 → detect_record_size T = 644) ∧
     (payload mod 644 = 0 → payload mod 684 = 0 → detect_record_size T = 644)) ∧
  (∀ d : bytes,
     let payload := Z.max 0 (len d - 4) in
     let size := detect_record_size (len d) in
     length (_parse d) = Z.to_nat (payload / size) ∧
     Forall (λ r, type r = if decide (size = 644) then Normal else ExItem)
            (_parse d)).
Proof.
  split.
  - intros T payload. unfold detect_record_size, NORMAL_SIZE, EXITEM_SIZE.
    fold payload.
    destruct (Z.eqb_spec (payload mod 644) 0) as [H1 | H1];
      destruct (Z.eqb_spec (payload mod 684) 0) as [H2 | H2];
      repeat split; intros; congruence.
  - intros d payload size. split.
    + rewrite length_parse. apply count_payload, detect_record_size_pos.
    + unfold _parse. fold size. apply Forall_fmap, Forall_forall.
      intros i _. simpl. unfold NORMAL_SIZE.
      destruct (Z.eqb_spec size 644); destruct (decide (size = 644));
        congruence.
Qed.

(** ** The SQL exports *)

Lemma not_shown_is_one (rec : Rec) :
  not_shown rec = false ↔ is_one rec "show_in_shop".
Proof.
  unfold not_shown, ne_int, eq_int, get, is_one.
  destruct (data rec !! "show_in_shop") as [[z | s |] |] eqn:E; simpl;
    try (split; [discriminate | intros ?; discriminate]).
  destruct (Z.eqb_spec z 1) as [-> | Hz]; simpl.
  - done.
  - split; [discriminate | intros [= ?]; contradiction].
Qed.

Lemma eq_int_is_one (rec : Rec) (k : string) :
  eq_int (get (data rec) k (VInt 0)) 1 = bool_decide (is_one rec k).
Proof.
  destruct (decide (is_one rec k)) as [H | H].
  - rewrite bool_decide_eq_true_2 by done. unfold get. by rewrite H.
  - rewrite bool_decide_eq_false_2 by done. unfold is_one in H.
    unfold eq_int, get.
    destruct (data rec !! k) as [[z | s |] |]; simpl; try done.
    destruct (Z.eqb_spec z 1) as [-> | Hz]; [done | done].
Qed.

Lemma price_if_gated (rec : Rec) (price enable sell : string) :
  price_if rec price enable sell = gated rec enable sell price.
Proof.
  unfold price_if, gated. rewrite !eq_int_is_one.
  destruct (decide (is_one rec enable ∧ is_one rec sell)) as [[H1 H2] | H].
  - by rewrite !bool_decide_eq_true_2.
  - destruct (decide (is_one rec enable)); destruct (decide (is_one rec sell));
      try tauto.
    + by rewrite (bool_decide_eq_false_2 (is_one rec sell)), andb_false_r.
    + by rewrite (bool_decide_eq_false_2 (is_one rec enable)).
    + by rewrite (bool_decide_eq_false_2 (is_one rec enable)).
Qed.

Lemma menu_statement_line (rec : Rec) :
  menu_statement rec
  = menu_line (stored rec "avatar_code")
      (gated rec "enable_sale_gold" "sell_weekly" "price_weekly_gold")
      (gated rec "enable_sale_gold" "sell_monthly" "price_monthly_gold")
      (gated rec "enable_sale_gold" "sell_eternal" "price_eternal_gold")
      (gated rec "enable_sale_cash" "sell_weekly" "price_weekly_cash")
      (gated rec "enable_sale_cash" "sell_monthly" "price_monthly_cash")
      (gated rec "enable_sale_cash" "sell_eternal" "price_eternal_cash").
Proof.
  unfold menu_statement, menu_line. rewrite !price_if_gated.
  unfold get, stored. cbv zeta. rewrite <- ?app_assoc. reflexivity.
Qed.

Lemma menu_sql_from (acc : pystr) (recs : list Rec) :
  foldl (λ sql rec, if not_shown rec then sql else sql ++ menu_statement rec)
        acc recs
  = acc ++ flat_map menu_statement
             (filter (λ rec, is_one rec "show_in_shop") recs).
Proof.
  revert acc. induction recs as [| rec recs IH]; intros acc; simpl.
  - by rewrite app_nil_r.
  - rewrite IH. destruct (not_shown rec) eqn:E.
    + rewrite filter_cons_False; [done |].
      intros H. apply not_shown_is_one in H. congruence.
    + rewrite filter_cons_True by (by apply not_shown_is_one).
      simpl. by rewrite <- app_assoc.
Qed.

(** C4. Menu export gating: the menu report is the banner followed by one
    line for each record whose [show_in_shop] is 1, in order, and by nothing
    for any other record; on a line, each gold price column is the stored
    gold price of its duration when [enable_sale_gold] and the [sell_] flag
    of the duration are both 1 and 0 otherwise, and each cash price column
    follows the same rule with [enable_sale_cash]. *)
Theorem menu_export_gating (recs : list Rec) :
  menu_sql recs
  = banner ++
    flat_map
      (λ rec,
         menu_line (stored rec "avatar_code")
           (gated rec "enable_sale_gold" "sell_weekly" "price_weekly_gold")
           (gated rec "enable_sale_gold" "sell_monthly" "price_monthly_gold")
           (gated rec "enable_sale_gold" "sell_eternal" "price_eternal_gold")
           (gated rec "enable_sale_cash" "sell_weekly" "price_weekly_cash")
           (gated rec "enable_sale_cash" "sell_monthly" "price_monthly_cash")
           (gated rec "enable_sale_cash" "sell_eternal" "price_eternal_cash"))
      (filter (λ rec, is_one rec "show_in_shop") recs).
Proof.
  unfold menu_sql. rewrite menu_sql_from. f_equal.
  apply flat_map_ext. intros rec. apply menu_statement_line.
Qed.

Lemma item_sql_app (l1 l2 : list Rec) :
  item_sql (l1 ++ l2)
  = foldl (λ acc rec,
             sql ← acc;
             if not_shown rec then Ok sql
             else line ← item_statement rec; Ok (sql ++ line))
          (item_sql l1) l2.
Proof. unfold item_sql. by rewrite foldl_app. Qed.

Lemma menu_sql_app (l1 l2 : list Rec) :
  menu_sql (l1 ++ l2)
  = foldl (λ sql rec, if not_shown rec then sql else sql ++ menu_statement rec)
          (menu_sql l1) l2.
Proof. unfold menu_sql. by rewrite foldl_app. Qed.

Lemma not_shown_absent (rec : Rec) :
  data rec !! "show_in_shop" = Some VNone → not_shown rec = true.
Proof. intros H. unfold not_shown, get. by rewrite H. Qed.

Lemma not_shown_zero (rec : Rec) :
  not_shown (set_field rec "show_in_shop" (VInt 0)) = true.
Proof. unfold not_shown, get, set_field. simpl. by rewrite lookup_insert_eq. Qed.

Lemma exports_skip (pre post : list Rec) (rec : Rec) :
  not_shown rec = true →
  menu_sql (pre ++ rec :: post) = menu_sql (pre ++ post) ∧
  item_sql (pre ++ rec :: post) = item_sql (pre ++ post).
Proof.
  intros H. rewrite !menu_sql_app, !item_sql_app. simpl. rewrite H.
  split; [done |]. f_equal. by destruct (item_sql pre).
Qed.

(** C10. A record whose [show_in_shop] is [None] is passed over by both
    exports: the reports are those of the list without the record, and the
    same as if the flag held 0. *)
Theorem absent_flag_not_exported (pre post : list Rec) (rec : Rec) :
  data rec !! "show_in_shop" = Some VNone →
  (menu_sql (pre ++ rec :: post) = menu_sql (pre ++ post) ∧
   item_sql (pre ++ rec :: post) = item_sql (pre ++ post)) ∧
  (menu_sql (pre ++ rec :: post)
   = menu_sql (pre ++ set_field rec "show_in_shop" (VInt 0) :: post) ∧
   item_sql (pre ++ rec :: post)
   = item_sql (pre ++ set_field rec "show_in_shop" (VInt 0) :: post)).
Proof.
  intros H. apply not_shown_absent in H.
  destruct (exports_skip pre post rec H) as [Hm Hi].
  destruct (exports_skip pre post _ (not_shown_zero rec)) as [Hm0 Hi0].
  repeat split; congruence.
Qed.

Lemma absent_flag_not_exported_witness :
  data flagless !! "show_in_shop" = Some VNone ∧
  (menu_sql ([] ++ flagless :: [shown_sample]) = menu_sql ([] ++ [shown_sample]) ∧
   item_sql ([] ++ flagless :: [shown_sample]) = item_sql ([] ++ [shown_sample])).
Proof.
  assert (H : data flagless !! "show_in_shop" = Some VNone) by reflexivity.
  split; [exact H |].
  exact (proj1 (absent_flag_not_exported [] [shown_sample] flagless H)).
Defined.

(** ** The refund of the item export *)

(** C5 at work: the refund of 205 is computed as 122, one less than
    [205 * 60 / 100] over the integers, and the item report of a record
    priced 205 carries 122 in its four refund columns; 1000 and 999 give 600
    and 599. *)
Theorem refund_of_205 :
  refund (VInt 205) = Ok 122 ∧ 205 * 60 / 100 = 123 ∧
  item_sql [priced_205]
  = Ok (banner
        ++ lit "INSERT INTO item (No, Refund_C, Refund_G, Refund_T, Refund_E) VALUES ('9', '122', '122', '122', '122');"
        ++ nl) ∧
  refund (VInt 1000) = Ok 600 ∧ refund (VInt 999) = Ok 599.
Proof. repeat split; vm_compute; reflexivity. Qed.

(** ** Edits of a stat field on an Ex-item record *)

Lemma stat_field_guard (f : string) (rec : Rec) :
  type rec = ExItem → f ∈ STAT_FIELDS →
  is_stat_field f && bool_decide (type rec = ExItem) = true.
Proof.
  intros Ht Hf. unfold is_stat_field.
  by rewrite !bool_decide_eq_true_2.
Qed.

(** C8, as the editor has it: there is no field-set operation in
    [DATModel]; the check is made by the two edit paths of the window. For
    an Ex-item record and a stat field of the Normal layout, both leave the
    record as it is: the cell edit shows an error and returns, the batch
    edit goes on to the next row and shows nothing. *)
Theorem stat_edit_on_exitem (int_of_str : pystr → result Z)
    (f : string) (txt : pystr) (rec : Rec) :
  type rec = ExItem → f ∈ STAT_FIELDS →
  finish int_of_str f txt rec
  = Ok (rec, ErrorReturn (f +:+ " tidak tersedia untuk Ex-item")) ∧
  apply_batch_row int_of_str f txt rec = Ok (rec, Silent).
Proof.
  intros Ht Hf. unfold finish, apply_batch_row.
  by rewrite (stat_field_guard f rec Ht Hf).
Qed.

Lemma stat_edit_on_exitem_witness :
  (type exitem_sample = ExItem ∧ "attack"%string ∈ STAT_FIELDS) ∧
  finish int_of_ascii "attack" (lit "5") exitem_sample
  = Ok (exitem_sample, ErrorReturn "attack tidak tersedia untuk Ex-item") ∧
  apply_batch_row int_of_ascii "attack" (lit "5") exitem_sample
  = Ok (exitem_sample, Silent).
Proof.
  assert (Ht : type exitem_sample = ExItem) by reflexivity.
  assert (Hf : "attack"%string ∈ STAT_FIELDS) by (by apply (bool_decide_unpack _)).
  split; [by split |].
  exact (stat_edit_on_exitem int_of_ascii "attack" (lit "5") exitem_sample Ht Hf).
Defined.

(** The batch edit of a stat field on an Ex-item record reports no error:
    it returns without a dialog, where the cell edit shows one. *)
Lemma batch_edit_reports_nothing :
  type exitem_sample = ExItem ∧
  apply_batch_row int_of_ascii "attack" (lit "5") exitem_sample
  = Ok (exitem_sample, Silent) ∧
  apply_batch int_of_ascii "attack" (lit "5") [exitem_sample] [0]
  = Ok ([exitem_sample], []).
Proof. repeat split. Qed.

(** ** The dictionary of a parsed record *)

Lemma NORMAL_MAP_NoDup : NoDup NORMAL_MAP.*1.
Proof. apply (bool_decide_unpack _). vm_compute. exact I. Qed.

Lemma EXITEM_MAP_NoDup : NoDup EXITEM_MAP.*1.
Proof. apply (bool_decide_unpack _). vm_compute. exact I. Qed.

Lemma map_of_NoDup (t : rtype) : NoDup (map_of t).*1.
Proof. destruct t; [apply NORMAL_MAP_NoDup | apply EXITEM_MAP_NoDup]. Qed.

Lemma spec_of_None (m : list (string * fieldspec)) (k : string) :
  spec_of m k = None ↔ k ∉ m.*1.
Proof.
  induction m as [| [k' s'] m IH]; simpl.
  - split; [intros _ H; inversion H | done].
  - rewrite not_elem_of_cons. destruct (decide (k' = k)) as [-> | Hne].
    + split; [discriminate | intros [? _]; done].
    + rewrite IH. split; [by split | by intros [_ ?]].
Qed.

Lemma spec_of_Some (m : list (string * fieldspec)) (k : string) (s : fieldspec) :
  NoDup m.*1 → (spec_of m k = Some s ↔ (k, s) ∈ m).
Proof.
  induction m as [| [k' s'] m IH]; intros Hnd.
  - simpl. split; [discriminate | intros H; inversion H].
  - apply NoDup_cons in Hnd as [Hk' Hnd]. simpl.
    destruct (decide (k' = k)) as [-> | Hne].
    + split.
      * intros [= ->]. left.
      * intros H. apply elem_of_cons in H as [[= ->] | H]; [done |].
        exfalso. apply Hk'. apply list_elem_of_fmap. by exists (k, s).
    + rewrite elem_of_cons, (IH Hnd). split; [by right |].
      intros [[= ? ?] | H]; [congruence | done].
Qed.

Lemma lookup_parse_fields_from (d : bytes) (off : Z)
    (m : list (string * fieldspec)) (acc : gmap string value) (k : string) :
  NoDup m.*1 →
  foldl (λ rec '(k, (o, t, L)), <[k := parse_field d (off + o) k t L]> rec)
        acc m !! k
  = match spec_of m k with
    | Some (o, t, L) => Some (parse_field d (off + o) k t L)
    | None => acc !! k
    end.
Proof.
  revert acc. induction m as [| [k' [[o' t'] L']] m IH]; intros acc Hnd.
  - done.
  - apply NoDup_cons in Hnd as [Hk' Hnd]. simpl in Hk'. simpl foldl. rewrite (IH _ Hnd).
    simpl spec_of. destruct (decide (k' = k)) as [-> | Hne].
    + apply spec_of_None in Hk'. rewrite Hk'. by rewrite lookup_insert_eq.
    + destruct (spec_of m k) as [[[o2 t2] L2] |]; [done |].
      by rewrite lookup_insert_ne.
Qed.

Lemma lookup_parse_fields (d : bytes) (off : Z)
    (m : list (string * fieldspec)) (k : string) :
  NoDup m.*1 →
  parse_fields d off m !! k
  = match spec_of m k with
    | Some (o, t, L) => Some (parse_field d (off + o) k t L)
    | None => None
    end.
Proof.
  intros Hnd. unfold parse_fields. rewrite lookup_parse_fields_from by done.
  by destruct (spec_of m k) as [[[o t] L] |].
Qed.

Lemma lookup_setdefault (k k' : string) (v : value) (m : gmap string value) :
  setdefault k v m !! k'
  = match m !! k' with
    | Some x => Some x
    | None => if decide (k' = k) then Some v else None
    end.
Proof.
  unfold setdefault. destruct (m !! k) as [x |] eqn:E.
  - destruct (m !! k') as [x' |] eqn:E'; [done |].
    destruct (decide (k' = k)) as [-> | ?]; [congruence | done].
  - destruct (decide (k' = k)) as [-> | Hne].
    + by rewrite lookup_insert_eq, E.
    + rewrite lookup_insert_ne by done. by destruct (m !! k').
Qed.

Lemma lookup_setdefaults (l : list string) (k' : string) (v : value)
    (m : gmap string value) :
  foldl (λ rec field, setdefault field v rec) m l !! k'
  = match m !! k' with
    | Some x => Some x
    | None => if decide (k' ∈ l) then Some v else None
    end.
Proof.
  revert m. induction l as [| k l IH]; intros m; cbn [foldl].
  - destruct (m !! k'); [done |]. rewrite decide_False; [done |].
    apply not_elem_of_nil.
  - rewrite IH, lookup_setdefault. destruct (m !! k') as [x |]; [done |].
    destruct (decide (k' = k)) as [-> | Hne].
    + rewrite decide_True; [done | left].
    + destruct (decide (k' ∈ l)).
      * rewrite decide_True; [done | by right].
      * rewrite decide_False; [done |]. by apply not_elem_of_cons.
Qed.

(** What a parsed record holds under any key. *)
Lemma lookup_parse_record (d : bytes) (size i : Z) (k : string) :
  data (parse_record d size i) !! k
  = match spec_of (map_of (variant_of size)) k with
    | Some (o, t, L) => Some (parse_field d (header + i * size + o) k t L)
    | None =>
        if decide (k ∈ other_fields (variant_of size)) then Some VNone
        else None
    end.
Proof.
  unfold parse_record, variant_of.
  destruct (size =? NORMAL_SIZE); cbn [data other_fields].
  - rewrite lookup_setdefault, lookup_parse_fields by apply NORMAL_MAP_NoDup.
    destruct (spec_of _ k) as [[[o t] L] |]; [done |].
    destruct (decide (k = "ex_number")) as [-> | Hne].
    + rewrite decide_True; [done | left].
    + rewrite decide_False; [done |].
      apply not_elem_of_cons. split; [done | apply not_elem_of_nil].
  - rewrite lookup_setdefaults, lookup_setdefault, lookup_parse_fields
      by apply EXITEM_MAP_NoDup.
    destruct (spec_of _ k) as [[[o t] L] |]; [done |].
    destruct (decide (k = "image_number")) as [-> | Hne].
    + rewrite decide_True; [done | left].
    + destruct (decide (k ∈ STAT_FIELDS)).
      * rewrite decide_True; [done | by right].
      * rewrite decide_False; [done |]. by apply not_elem_of_cons.
Qed.

(** ** Parsing goes on after a field that cannot be read *)

Lemma fields_of_variant (t : rtype) :
  (list_to_set ((map_of t).*1 ++ other_fields t) : gset string)
  = list_to_set FIELD_NAMES.
Proof. destruct t; apply (bool_decide_unpack _); vm_compute; exact I. Qed.

Lemma type_parse_record (d : bytes) (size i : Z) :
  type (parse_record d size i) = variant_of size.
Proof. done. Qed.

Lemma raw_off_parse_record (d : bytes) (size i : Z) :
  raw_off (parse_record d size i) = header + i * size.
Proof. done. Qed.

Lemma dom_parse_record (d : bytes) (size i : Z) :
  dom (data (parse_record d size i)) = list_to_set FIELD_NAMES.
Proof.
  rewrite <- (fields_of_variant (variant_of size)).
  apply set_eq. intros k.
  rewrite elem_of_dom, lookup_parse_record, elem_of_list_to_set, elem_of_app.
  destruct (spec_of _ k) as [[[o t] L] |] eqn:E.
  - split; [intros _; left | by eexists].
    apply spec_of_Some in E; [| apply map_of_NoDup].
    apply list_elem_of_fmap. by exists (k, (o, t, L)).
  - apply spec_of_None in E. destruct (decide (k ∈ other_fields _)).
    + split; [by right | by eexists].
    + split; [by intros [? ?] | by intros [? | ?]].
Qed.

(** ** Buffers: writing over a range and reading one *)

Lemma len_nonneg {A : Type} (l : list A) : 0 <= len l.
Proof. unfold len. lia. Qed.

Lemma length_splice (d : bytes) (a : nat) (bs : bytes) :
  (a + length bs <= length d)%nat → length (splice d a bs) = length d.
Proof.
  intros H. unfold splice.
  rewrite !length_app, length_take, length_drop. lia.
Qed.

Lemma slice_splice_same (d : bytes) (a : nat) (bs : bytes) :
  (a <= length d)%nat → slice (splice d a bs) a (length bs) = bs.
Proof.
  intros H. unfold slice, splice.
  rewrite drop_app_length' by (rewrite length_take; lia).
  by rewrite take_app_length.
Qed.

Lemma slice_splice_disjoint (d : bytes) (a : nat) (bs : bytes) (a' w : nat) :
  (a + length bs <= length d)%nat →
  (a' + w <= a)%nat ∨ (a + length bs <= a')%nat →
  slice (splice d a bs) a' w = slice d a' w.
Proof.
  intros Hin [H | H]; unfold slice, splice.
  - rewrite drop_app_le by (rewrite length_take; lia).
    rewrite take_app_le by (rewrite length_drop, length_take; lia).
    rewrite !take_drop_commute, take_take. do 2 f_equal. lia.
  - rewrite app_assoc.
    rewrite drop_app_ge by (rewrite length_app, length_take; lia).
    rewrite length_app, length_take, drop_drop. do 2 f_equal. lia.
Qed.

Lemma slice_end_in (n i : Z) : 0 <= i <= n → slice_end n i = Z.to_nat i.
Proof.
  intros H. unfold slice_end.
  destruct (Z.ltb_spec i 0); [lia |]. by rewrite Z.min_l by lia.
Qed.

Lemma slice_end_over (n i : Z) : 0 <= n <= i → slice_end n i = Z.to_nat n.
Proof.
  intros H. unfold slice_end.
  destruct (Z.ltb_spec i 0); [lia |]. by rewrite Z.min_r by lia.
Qed.

Lemma get_slice_in (d : bytes) (off n : Z) :
  0 <= off → 0 <= n → off + n <= len d →
  get_slice d off (off + n) = slice d (Z.to_nat off) (Z.to_nat n).
Proof.
  intros H1 H2 H3. unfold get_slice, slice.
  rewrite !slice_end_in by lia. f_equal. lia.
Qed.

Lemma set_slice_in (d : bytes) (off n : Z) (x : bytes) :
  0 <= off → 0 <= n → off + n <= len d → length x = Z.to_nat n →
  set_slice d off (off + n) x = splice d (Z.to_nat off) x.
Proof.
  intros H1 H2 H3 Hx. unfold set_slice, splice.
  rewrite !slice_end_in by lia. rewrite Hx. do 3 f_equal. lia.
Qed.

Lemma struct_offset_in (n off : Z) :
  0 <= off → off + 4 <= n → struct_offset n off = Ok (Z.to_nat off).
Proof.
  intros H1 H2. unfold struct_offset.
  destruct (Z.ltb_spec off 0); [lia |].
  destruct (Z.ltb_spec (n - off) 4); [lia | done].
Qed.

Lemma py_index_in (n i : Z) : 0 <= i < n → py_index n i = Some (Z.to_nat i).
Proof.
  intros H. unfold py_index.
  destruct (Z.ltb_spec i 0); [lia |]. destruct (Z.ltb_spec i n); [done | lia].
Qed.

Lemma py_index_lt (n i : Z) (j : nat) :
  0 <= n → py_index n i = Some j → Z.of_nat j < n.
Proof.
  unfold py_index. intros Hn.
  destruct (Z.ltb_spec i 0).
  - destruct (Z.ltb_spec (i + n) 0); [done |]. intros [= <-]. lia.
  - destruct (Z.ltb_spec i n); [| done]. intros [= <-]. lia.
Qed.

Lemma insert_splice (d : bytes) (i : nat) (b : byte) :
  (i < length d)%nat → <[i := b]> d = splice d i [b].
Proof.
  intros H. rewrite insert_take_drop by done. unfold splice.
  cbn [length app]. by rewrite Nat.add_1_r.
Qed.

Lemma lookup_slice1 (d : bytes) (i : nat) (b : byte) :
  d !! i = Some b ↔ slice d i 1 = [b].
Proof.
  unfold slice. replace (d !! i) with (drop i d !! 0%nat)
    by (by rewrite lookup_drop, Nat.add_0_r).
  destruct (drop i d) as [| x l]; simpl; [split; discriminate |].
  rewrite take_0. split; congruence.
Qed.

(** ** Integers in the buffer *)

Lemma byte_to_Z_range (b : byte) : 0 <= byte_to_Z b < 256.
Proof.
  unfold byte_to_Z. pose proof (Byte.to_N_bounded b) as H. lia.
Qed.

Lemma byte_to_of_Z (z : Z) : 0 <= z < 256 → byte_to_Z (byte_of_Z z) = z.
Proof.
  intros H. unfold byte_to_Z, byte_of_Z.
  destruct (Byte.of_N (Z.to_N z)) as [b |] eqn:E.
  - apply Byte.to_of_N in E. lia.
  - apply Byte.of_N_None_iff in E. lia.
Qed.

Lemma byte_of_to_Z (b : byte) : byte_of_Z (byte_to_Z b) = b.
Proof.
  unfold byte_to_Z, byte_of_Z. by rewrite N2Z.id, Byte.of_to_N.
Qed.

Lemma byte_to_Z_inj (b1 b2 : byte) : byte_to_Z b1 = byte_to_Z b2 → b1 = b2.
Proof. intros H. by rewrite <- (byte_of_to_Z b1), H, byte_of_to_Z. Qed.

Lemma land_255 (z : Z) : Z.land z 255 = z mod 256.
Proof. change 255 with (Z.ones 8). by rewrite Z.land_ones. Qed.

Lemma le_decode_encode4 (v : Z) : le_decode (le_encode4 v) = v mod 2 ^ 32.
Proof.
  unfold le_decode, le_encode4. cbn [foldr].
  rewrite !land_255, !Z.shiftr_div_pow2 by lia.
  rewrite !byte_to_of_Z by (apply Z.mod_pos_bound; lia).
  change (2 ^ 8) with 256. change (2 ^ 16) with 65536.
  change (2 ^ 24) with 16777216. change (2 ^ 32) with 4294967296.
  Z.div_mod_to_equations. lia.
Qed.

Lemma length_le_encode4 (v : Z) : length (le_encode4 v) = 4%nat.
Proof. done. Qed.

Lemma unpack_pack_I (v : Z) :
  0 <= v < 2 ^ 32 → pack_I v = Ok (le_encode4 v) ∧ unpack_I (le_encode4 v) = v.
Proof.
  intros H. unfold pack_I, unpack_I. rewrite le_decode_encode4.
  rewrite Z.mod_small by done.
  destruct (Z.leb_spec 0 v); [| lia]. destruct (Z.ltb_spec v (2 ^ 32)); [| lia].
  done.
Qed.

Lemma unpack_pack_i (v : Z) :
  - 2 ^ 31 <= v < 2 ^ 31 →
  pack_i v = Ok (le_encode4 v) ∧ unpack_i (le_encode4 v) = v.
Proof.
  intros H. unfold pack_i, unpack_i. rewrite le_decode_encode4.
  destruct (Z.leb_spec (- 2 ^ 31) v); [| lia].
  destruct (Z.ltb_spec v (2 ^ 31)); [| lia]. split; [done |].
  change (2 ^ 32) with 4294967296 in *. change (2 ^ 31) with 2147483648 in *.
  destruct (Z.ltb_spec (v mod 4294967296) 2147483648);
    Z.div_mod_to_equations; lia.
Qed.

Lemma read_u32_le_in (d : bytes) (off : Z) :
  0 <= off → off + 4 <= len d →
  read_u32_le d off = Ok (unpack_I (slice d (Z.to_nat off) 4)).
Proof.
  intros H1 H2. unfold read_u32_le, unpack_from4.
  by rewrite struct_offset_in.
Qed.

Lemma read_i32_le_in (d : bytes) (off : Z) :
  0 <= off → off + 4 <= len d →
  read_i32_le d off = Ok (unpack_i (slice d (Z.to_nat off) 4)).
Proof.
  intros H1 H2. unfold read_i32_le, unpack_from4.
  by rewrite struct_offset_in.
Qed.

Lemma pack_into4_in (d : bytes) (off : Z) (bs : bytes) :
  0 <= off → off + 4 <= len d → length bs = 4%nat →
  pack_into4 d off (Ok bs) = Ok (splice d (Z.to_nat off) bs).
Proof.
  intros H1 H2 Hbs. unfold pack_into4. rewrite struct_offset_in by done.
  unfold splice. by rewrite Hbs.
Qed.

Lemma read_u8_in (d : bytes) (off : Z) :
  0 <= off < len d →
  ∃ b, slice d (Z.to_nat off) 1 = [b] ∧ read_u8 d off = Ok (byte_to_Z b).
Proof.
  intros H. unfold read_u8. rewrite py_index_in by done.
  destruct (d !! Z.to_nat off) as [b |] eqn:E.
  - exists b. split; [by apply lookup_slice1 | done].
  - apply lookup_ge_None in E. unfold len in H. lia.
Qed.

Lemma write_u8_in (d : bytes) (off val : Z) :
  0 <= off < len d →
  write_u8 d off val
  = Ok (splice d (Z.to_nat off) [byte_of_Z (Z.land val 255)]).
Proof.
  intros H. unfold write_u8. rewrite py_index_in by done.
  rewrite insert_splice; [done |]. unfold len in H. lia.
Qed.

(** ** UTF-8 *)

(** The base-64 digits of a code point, as the encoder takes them. *)
Lemma digits64 (c : Z) :
  0 <= c →
  ∃ a3 a2 a1 a0 : Z,
    c = 262144 * a3 + 4096 * a2 + 64 * a1 + a0 ∧
    0 <= a3 ∧ 0 <= a2 < 64 ∧ 0 <= a1 < 64 ∧ 0 <= a0 < 64 ∧
    c / 262144 = a3 ∧ c / 4096 = 64 * a3 + a2 ∧ (c / 4096) mod 64 = a2 ∧
    c / 64 = 4096 * a3 + 64 * a2 + a1 ∧ (c / 64) mod 64 = a1 ∧
    c mod 64 = a0.
Proof.
  intros H.
  exists (c / 262144), ((c / 4096) mod 64), ((c / 64) mod 64), (c mod 64).
  Z.div_mod_to_equations. lia.
Qed.

Lemma is_scalar_spec (c : Z) :
  is_scalar c = true ↔ 0 <= c <= 0x10FFFF ∧ (c < 0xD800 ∨ 0xDFFF < c).
Proof. unfold is_scalar, is_surrogate. lia. Qed.

Lemma is_scalar_not_surrogate (c : Z) :
  is_scalar c = true → is_surrogate c = false.
Proof.
  unfold is_scalar. intros H. apply andb_prop in H as [_ H].
  by apply negb_true_iff.
Qed.

(** Settles the comparisons of the goal whose outcome follows from the
    hypotheses by linear arithmetic. *)
Ltac settle_tests :=
  repeat match goal with
    | |- context [?a <? ?b] =>
        first [ rewrite (proj2 (Z.ltb_lt a b)) by lia
              | rewrite (proj2 (Z.ltb_ge a b)) by lia ]
    | |- context [?a <=? ?b] =>
        first [ rewrite (proj2 (Z.leb_le a b)) by lia
              | rewrite (proj2 (Z.leb_gt a b)) by lia ]
    | |- context [?a =? ?b] =>
        first [ rewrite (proj2 (Z.eqb_eq a b)) by lia
              | rewrite (proj2 (Z.eqb_neq a b)) by lia ]
    end.

Lemma utf8_decode_char (c : Z) (bs : bytes) :
  is_scalar c = true →
  utf8_decode (utf8_encode_char c ++ bs) = (s ← utf8_decode bs; Some (c :: s)).
Proof.
  intros H. unfold utf8_encode_char.
  rewrite (is_scalar_not_surrogate c H).
  apply is_scalar_spec in H as [[H0 H1] Hs].
  destruct (digits64 c H0)
    as (a3 & a2 & a1 & a0 & Hc & B3 & B2 & B1 & B0 & -> & E2 & -> & E1 & -> & ->).
  clear E1 E2.
  destruct (Z.ltb_spec c 0x80); [| destruct (Z.ltb_spec c 0x800);
    [| destruct (Z.ltb_spec c 0x10000)]].
  - cbn [app utf8_decode]. rewrite byte_to_of_Z by lia. by settle_tests.
  - assert (c / 64 = a1) as -> by (subst c; Z.div_mod_to_equations; lia).
    cbn [app utf8_decode]. unfold cont_in. rewrite !byte_to_of_Z by lia.
    settle_tests. cbn. destruct (utf8_decode bs); cbn; [| done].
    do 2 f_equal. lia.
  - assert (c / 4096 = a2) as -> by (subst c; Z.div_mod_to_equations; lia).
    cbn [app utf8_decode]. unfold cont_in. rewrite !byte_to_of_Z by lia.
    destruct (Z.eq_dec a2 0) as [-> | ?]; [| destruct (Z.eq_dec a2 13) as [-> | ?]];
      settle_tests; cbn; destruct (utf8_decode bs); cbn; try done;
      do 2 f_equal; lia.
  - cbn [app utf8_decode]. unfold cont_in. rewrite !byte_to_of_Z by lia.
    destruct (Z.eq_dec a3 0) as [-> | ?]; [| destruct (Z.eq_dec a3 4) as [-> | ?]];
      settle_tests; cbn; destruct (utf8_decode bs); cbn; try done;
      do 2 f_equal; lia.
Qed.

Lemma utf8_decode_encode (s : pystr) :
  forallb is_scalar s = true → utf8_decode (utf8_encode s) = Some s.
Proof.
  induction s as [| c s IH]; [done |]. cbn [forallb]. intros H.
  apply andb_prop in H as [Hc Hs]. unfold utf8_encode. cbn [flat_map].
  rewrite utf8_decode_char by done. fold (utf8_encode s). by rewrite IH.
Qed.

Lemma utf8_encode_app (s1 s2 : pystr) :
  utf8_encode (s1 ++ s2) = utf8_encode s1 ++ utf8_encode s2.
Proof. apply flat_map_app. Qed.

Lemma byte_of_Z_nonzero (z : Z) : 0 < z < 256 → byte_of_Z z ≠ x00.
Proof.
  intros Hz Hb. apply (f_equal byte_to_Z) in Hb.
  rewrite byte_to_of_Z in Hb by lia. vm_compute in Hb. lia.
Qed.

Lemma utf8_encode_char_nonzero (c : Z) :
  0 < c <= 0x10FFFF → Forall (λ b, b ≠ x00) (utf8_encode_char c).
Proof.
  intros H. unfold utf8_encode_char.
  destruct (Z.ltb_spec c 0x80); [| destruct (Z.ltb_spec c 0x800);
    [| destruct (Z.ltb_spec c 0x10000)]];
    [| | destruct (is_surrogate c); [constructor |] |];
    repeat (apply Forall_cons; split;
            [apply byte_of_Z_nonzero; Z.div_mod_to_equations; lia |]);
    apply Forall_nil_2.
Qed.

Lemma plain_text_spec (s : pystr) :
  plain_text s = true ↔
  forallb is_scalar s = true ∧ Forall (λ c, 0 < c <= 0x10FFFF) s.
Proof.
  unfold plain_text. induction s as [| c s IH]; cbn [forallb].
  - split; [by split | done].
  - rewrite !andb_true_iff, IH, Forall_cons, negb_true_iff, Z.eqb_neq.
    rewrite is_scalar_spec. intuition lia.
Qed.

Lemma utf8_encode_nonzero (s : pystr) :
  plain_text s = true → Forall (λ b, b ≠ x00) (utf8_encode s).
Proof.
  intros H. apply plain_text_spec in H as [_ H]. unfold utf8_encode.
  induction H as [| c s Hc _ IH]; cbn [flat_map]; [constructor |].
  apply Forall_app. split; [by apply utf8_encode_char_nonzero | done].
Qed.

Lemma before_nul_app_zeros (bs : bytes) (n : Z) :
  Forall (λ b, b ≠ x00) bs → before_nul (bs ++ zeros n) = bs.
Proof.
  induction 1 as [| b bs Hb _ IH]; cbn [app before_nul].
  - unfold zeros. by destruct (Z.to_nat n).
  - destruct (Byte.eqb b x00) eqn:E; [| by rewrite IH].
    by apply Byte.byte_dec_bl in E.
Qed.

Lemma before_nul_nonzero (bs : bytes) :
  Forall (λ b, b ≠ x00) bs → before_nul bs = bs.
Proof.
  intros H. rewrite <- (app_nil_r bs) at 1.
  by apply (before_nul_app_zeros bs 0).
Qed.

(** ** Fixed-width strings *)

Lemma length_zeros (n : Z) : length (zeros n) = Z.to_nat n.
Proof. unfold zeros. apply length_replicate. Qed.

Lemma length_fixed_field (n : Z) (text : pystr) :
  0 <= n → length (fixed_field n text) = Z.to_nat n.
Proof.
  intros H. unfold fixed_field. cbv zeta.
  rewrite length_app, length_zeros. unfold len.
  rewrite length_take. lia.
Qed.

Lemma get_slice_prefix (l : bytes) (n : Z) :
  0 <= n → get_slice l 0 n = take (Z.to_nat n) l.
Proof.
  intros H. unfold get_slice.
  rewrite (slice_end_in (len l) 0) by (pose proof (len_nonneg l); lia).
  rewrite drop_0, Nat.sub_0_r.
  destruct (Z.le_gt_cases n (len l)).
  - by rewrite slice_end_in by lia.
  - rewrite slice_end_over by (pose proof (len_nonneg l); lia).
    unfold len in *. rewrite !take_ge by lia. done.
Qed.

(** Assigning [n] bytes to [d[off:off+n]] when [off] lies in the buffer:
    the bytes from [off + n] on, if any, stay. *)
Lemma set_slice_at (d : bytes) (off n : Z) (x : bytes) :
  0 <= off <= len d → 0 <= n →
  set_slice d off (off + n) x
  = take (Z.to_nat off) d ++ x ++ drop (Z.to_nat (off + n)) d.
Proof.
  intros H1 H2. unfold set_slice.
  rewrite (slice_end_in (len d) off) by lia.
  destruct (Z.le_gt_cases (off + n) (len d)).
  - rewrite slice_end_in by lia. do 3 f_equal. lia.
  - rewrite slice_end_over by (pose proof (len_nonneg d); lia).
    unfold len in *. rewrite !drop_ge by lia. done.
Qed.

Lemma write_str_at (d : bytes) (off n : Z) (text : pystr) :
  0 <= off <= len d → 0 <= n →
  write_str d off n text
  = take (Z.to_nat off) d ++ fixed_field n text ++ drop (Z.to_nat (off + n)) d.
Proof.
  intros H1 H2. unfold write_str. rewrite get_slice_prefix by done.
  fold (fixed_field n text). rewrite (set_slice_at d) by done.
  set (d1 := take (Z.to_nat off) d ++ zeros n ++ drop (Z.to_nat (off + n)) d).
  assert (Hlen : len d1 = off + n + len (drop (Z.to_nat (off + n)) d)).
  { unfold d1, len in *. rewrite !length_app, length_take, length_zeros. lia. }
  rewrite set_slice_at by (pose proof (len_nonneg (drop (Z.to_nat (off + n)) d)); lia).
  unfold d1. f_equal.
  - rewrite take_app_le by (rewrite length_take; unfold len in *; lia).
    rewrite take_take. f_equal. unfold len in *. lia.
  - f_equal. rewrite app_assoc. rewrite drop_app_length'; [done |].
    rewrite length_app, length_take, length_zeros. unfold len in *. lia.
Qed.

Lemma write_str_in (d : bytes) (off n : Z) (text : pystr) :
  0 <= off → 0 <= n → off + n <= len d →
  write_str d off n text = splice d (Z.to_nat off) (fixed_field n text).
Proof.
  intros H1 H2 H3. rewrite write_str_at by lia. unfold splice.
  rewrite length_fixed_field by done. do 3 f_equal. lia.
Qed.

Lemma read_str_in (d : bytes) (off n : Z) :
  0 <= off → 0 <= n → off + n <= len d →
  read_str d off n
  = decode_text (before_nul (slice d (Z.to_nat off) (Z.to_nat n))).
Proof.
  intros H1 H2 H3. unfold read_str, decode_text, latin1_decode.
  by rewrite get_slice_in.
Qed.

Lemma before_nul_zeros (bs : bytes) (n : Z) :
  before_nul (bs ++ zeros n) = before_nul bs.
Proof.
  induction bs as [| b bs IH]; cbn [app before_nul].
  - unfold zeros. by destruct (Z.to_nat n).
  - by rewrite IH.
Qed.

(** What a field reads as after [write_str]. *)
Lemma read_write_str (d : bytes) (off n : Z) (text : pystr) :
  0 <= off <= len d → 0 <= n →
  read_str (write_str d off n text) off n
  = decode_text (before_nul (take (Z.to_nat n) (utf8_encode text))).
Proof.
  intros H1 H2. rewrite write_str_at by done.
  pose proof (length_fixed_field n text H2) as Hf.
  rewrite read_str_in; [| lia | lia |].
  - unfold slice. rewrite drop_app_length' by (rewrite length_take; unfold len in *; lia).
    rewrite take_app_length' by done.
    unfold fixed_field. cbv zeta. by rewrite before_nul_zeros.
  - unfold len in *. rewrite !length_app, length_take, Hf. lia.
Qed.

Lemma decode_text_plain (s : pystr) :
  plain_text s = true → decode_text (before_nul (utf8_encode s)) = s.
Proof.
  intros H. rewrite before_nul_nonzero by (by apply utf8_encode_nonzero).
  unfold decode_text. apply plain_text_spec in H as [H _].
  by rewrite utf8_decode_encode.
Qed.

(** C9, within its limits. For an offset inside the buffer, [write_str]
    replaces the bytes from [off] to [off + length] (all that are left, when
    the buffer ends before) by exactly [length] bytes: the UTF-8 encoding of
    the text cut to [length] bytes and then zeros, nothing of the old content
    staying. The field then reads as the decoding of the bytes of that cut
    encoding before its first zero byte: a text with no NUL, no lone
    surrogate and an encoding of at most [length] bytes reads back equal, and
    of a longer text whose cut falls between two characters the part before
    the cut reads back. *)
Theorem fixed_string_write_read (d : bytes) (off length : Z) (text : pystr) :
  0 <= off <= len d → 0 <= length →
  let raw := take (Z.to_nat length) (utf8_encode text) in
  let d' := write_str d off length text in
  d' = take (Z.to_nat off) d ++ (raw ++ zeros (length - len raw))
       ++ drop (Z.to_nat (off + length)) d ∧
  len (raw ++ zeros (length - len raw)) = length ∧
  read_str d' off length = decode_text (before_nul raw) ∧
  (plain_text text = true → len (utf8_encode text) <= length →
   read_str d' off length = text) ∧
  (∀ s1 s2 : pystr,
     text = s1 ++ s2 → plain_text s1 = true → len (utf8_encode s1) = length →
     read_str d' off length = s1).
Proof.
  intros H1 H2 raw d'. subst d'. repeat split.
  - by apply write_str_at.
  - pose proof (length_fixed_field length text H2) as Hf.
    unfold fixed_field in Hf. cbv zeta in Hf. fold raw in Hf.
    unfold len at 1. lia.
  - by apply read_write_str.
  - intros Hp Hl. rewrite read_write_str by done.
    rewrite take_ge by (unfold len in Hl; lia). by apply decode_text_plain.
  - intros s1 s2 -> Hp Hl. rewrite read_write_str by done.
    rewrite utf8_encode_app, take_app_length' by (unfold len in Hl; lia).
    by apply decode_text_plain.
Qed.

Lemma fixed_string_write_read_witness :
  (0 <= 4 <= len (replicate 30 x00 : bytes) ∧ 0 <= 19) ∧
  read_str (write_str (replicate 30 x00) 4 19 (lit "Hero")) 4 19 = lit "Hero".
Proof.
  assert (H1 : 0 <= 4 <= len (replicate 30 x00 : bytes)) by (by vm_compute).
  assert (H2 : 0 <= 19) by lia.
  split; [by split |].
  apply (fixed_string_write_read (replicate 30 x00) 4 19 (lit "Hero") H1 H2);
    by vm_compute.
Defined.

(** A text with a NUL in it, three bytes in UTF-8, does not read back: the
    field reads as the part before the NUL. *)
Lemma nul_text_not_read_back :
  len (utf8_encode nul_text) = 3 ∧
  read_str (write_str (replicate 23 x00) 4 19 nul_text) 4 19 = [97] ∧
  nul_text = [97; 0; 98].
Proof. by vm_compute. Qed.

(** ** Where the fields of a parsed record lie *)

Lemma map_of_fits (T : rtype) : forallb (fits (size_of T)) (map_of T) = true.
Proof. by destruct T. Qed.

Lemma field_fits (T : rtype) (k : string) (o : Z) (t : ftype) (L : option Z) :
  (k, (o, t, L)) ∈ map_of T →
  0 <= o ∧ 0 < width t L ∧ o + width t L <= size_of T ∧
  (t = Str → ∃ n, L = Some n ∧ 0 < n).
Proof.
  intros H. pose proof (map_of_fits T) as Hf.
  rewrite forallb_forall in Hf. apply list_elem_of_In, Hf in H.
  unfold fits in H. repeat (apply andb_prop in H as [H ?]).
  repeat split; try lia.
  intros ->. destruct L as [n |]; [| done]. exists n. simpl in *. split; [done | lia].
Qed.

Lemma size_of_variant_detect (total : Z) :
  size_of (variant_of (detect_record_size total)) = detect_record_size total.
Proof. by destruct (detect_record_size_cases total) as [-> | ->]. Qed.

(** A record that [_parse] reads lies inside the buffer. *)
Lemma record_in_buffer (total size i : Z) :
  0 < size → 0 <= i < (total - header) / size →
  header + i * size + size <= total.
Proof.
  intros Hs Hi. unfold header in *.
  pose proof (Z.mul_div_le (total - 4) size Hs). nia.
Qed.

Lemma elem_of_parse (d : bytes) (r : Rec) :
  r ∈ _parse d →
  ∃ i, r = parse_record d (detect_record_size (len d)) i ∧
       0 <= i < (len d - header) / detect_record_size (len d).
Proof.
  unfold _parse. intros H. apply list_elem_of_fmap in H as (i & -> & Hi).
  exists i. split; [done |]. by apply elem_of_range.
Qed.

(** A field of a parsed record lies inside the buffer. *)
Lemma parsed_field_in_buffer (d : bytes) (r : Rec) (k : string) (o : Z)
    (t : ftype) (L : option Z) :
  r ∈ _parse d → (k, (o, t, L)) ∈ map_of (type r) →
  0 <= raw_off r + o ∧ raw_off r + o + width t L <= len d ∧
  data r !! k = Some (parse_field d (raw_off r + o) k t L).
Proof.
  intros Hr Hk. apply elem_of_parse in Hr as (i & -> & Hi).
  rewrite type_parse_record in Hk. rewrite raw_off_parse_record.
  pose proof (field_fits _ k o t L Hk) as (Ho & Hw & Hs & _).
  rewrite size_of_variant_detect in Hs.
  pose proof (record_in_buffer (len d) _ i (detect_record_size_pos _) Hi).
  unfold header in *. repeat split; [nia | nia |].
  rewrite lookup_parse_record.
  apply spec_of_Some in Hk; [| apply map_of_NoDup]. by rewrite Hk.
Qed.

(** ** Flags *)

Lemma show_in_shop_spec (T : rtype) :
  ∃ o, ("show_in_shop"%string, (o, U8, None)) ∈ map_of T.
Proof.
  destruct T; [exists 35 | exists 43]; apply (bool_decide_unpack _); by vm_compute.
Qed.

Lemma sale_flag_spec (T : rtype) (k : string) :
  k ∈ SALE_FLAGS →
  k ≠ "show_in_shop"%string ∧ ∃ o, (k, (o, U8, None)) ∈ map_of T.
Proof.
  intros H. unfold SALE_FLAGS in H.
  repeat (apply elem_of_cons in H as [-> | H]);
    try (by apply elem_of_nil in H);
    (split; [done |]); destruct T; eexists;
    (apply spec_of_Some; [apply map_of_NoDup | vm_compute; reflexivity]).
Qed.

Lemma parse_u8_field (d : bytes) (r : Rec) (k : string) (o : Z) :
  r ∈ _parse d → (k, (o, U8, None)) ∈ map_of (type r) →
  ∃ raw, read_u8 d (raw_off r + o) = Ok raw ∧
    data r !! k
    = Some (VInt (if String.eqb k "show_in_shop"
                  then (if negb (raw =? 0) then 1 else 0) else raw)).
Proof.
  intros Hr Hk.
  destruct (parsed_field_in_buffer d r k o U8 None Hr Hk) as (H0 & H1 & ->).
  cbn [width] in H1.
  destruct (read_u8_in d (raw_off r + o)) as (b & _ & Hb); [lia |].
  exists (byte_to_Z b). split; [done |].
  unfold parse_field, decode_field.
  rewrite (proj2 (Z.leb_gt _ _)) by lia. rewrite Hb. cbn.
  by destruct (String.eqb k "show_in_shop").
Qed.

(** C3, as the code has it. Of the single-byte flags only [show_in_shop]
    is coerced: a parsed record holds 0 for a zero byte and 1 for any other
    byte, and saving writes the byte 0 for the value 0 and the byte 1 for
    any other value. The sell and enable flags hold the byte as it is read,
    and saving writes their value modulo 256. *)
Theorem flag_coercion (int_of_str : pystr → result Z) :
  (∀ (d : bytes) (r : Rec), r ∈ _parse d →
     ∃ o raw, ("show_in_shop"%string, (o, U8, None)) ∈ map_of (type r) ∧
       read_u8 d (raw_off r + o) = Ok raw ∧
       data r !! "show_in_shop"
       = Some (VInt (if decide (raw = 0) then 0 else 1))) ∧
  (∀ (d : bytes) (r : Rec) (k : string), r ∈ _parse d → k ∈ SALE_FLAGS →
     ∃ o raw, (k, (o, U8, None)) ∈ map_of (type r) ∧
       read_u8 d (raw_off r + o) = Ok raw ∧
       data r !! k = Some (VInt raw)) ∧
  (∀ (d : bytes) (oo : Z) (val : value), 0 <= oo < len d →
     ∃ b, encode_field int_of_str d oo "show_in_shop" U8 None val
          = Ok (<[Z.to_nat oo := b]> d) ∧
       (b = x00 ∨ b = x01) ∧ (b = x00 ↔ val = VInt 0)) ∧
  (∀ (d : bytes) (oo : Z) (k : string) (z : Z),
     0 <= oo < len d → k ∈ SALE_FLAGS →
     encode_field int_of_str d oo k U8 None (VInt z)
     = Ok (<[Z.to_nat oo := byte_of_Z (z mod 256)]> d)).
Proof.
  repeat split.
  - intros d r Hr. destruct (show_in_shop_spec (type r)) as [o Ho].
    destruct (parse_u8_field d r _ o Hr Ho) as (raw & Hraw & Hd).
    exists o, raw. repeat split; [done | done |]. rewrite Hd. cbn.
    destruct (Z.eqb_spec raw 0); by destruct (decide (raw = 0)).
  - intros d r k Hr Hk.
    destruct (sale_flag_spec (type r) k Hk) as (Hne & o & Ho).
    destruct (parse_u8_field d r _ o Hr Ho) as (raw & Hraw & Hd).
    exists o, raw. repeat split; [done | done |]. rewrite Hd.
    by rewrite (proj2 (String.eqb_neq _ _) Hne).
  - intros d oo val H. unfold encode_field.
    rewrite (proj2 (Z.leb_gt _ _)) by lia. cbn.
    unfold write_u8. rewrite py_index_in by done.
    eexists. split; [reflexivity |].
    destruct val as [z | s |]; cbn; try (split; [by right | by split]).
    unfold ne_int. cbn. destruct (Z.eqb_spec z 0) as [-> | Hz]; cbn.
    + split; [by left | by split].
    + split; [by right |]. split; [done | intros [= ?]; done].
  - intros d oo k z H Hk. unfold encode_field.
    rewrite (proj2 (Z.leb_gt _ _)) by lia.
    destruct (sale_flag_spec Normal k Hk) as (Hne & _).
    rewrite (proj2 (String.eqb_neq _ _) Hne). cbn.
    unfold write_u8. rewrite py_index_in by done. by rewrite land_255.
Qed.

(** A [sell_weekly] byte of 5 is read as 5 and written back as 5, next to
    a [show_in_shop] byte of 7 that is read as 1 and written back as 1. *)
Lemma sale_flag_not_coerced :
  ∃ r, _parse flags_buffer = [r] ∧
    data r !! "sell_weekly" = Some (VInt 5) ∧
    data r !! "show_in_shop" = Some (VInt 1) ∧
    ∃ d, save_records int_of_ascii flags_buffer [r] = (d, Ok tt) ∧
      d !! 41%nat = Some x05 ∧ d !! 39%nat = Some x01.
Proof.
  eexists. split; [by vm_compute |].
  split; [by vm_compute |]. split; [by vm_compute |].
  eexists. split; [by vm_compute |]. split; by vm_compute.
Qed.

(** ** Saving writes the file last *)

Section Saving.

Variable int_of_str : pystr → result Z.

Lemma encode_field_out_of_range (d : bytes) (oo : Z) (k : string) (t : ftype)
    (L : option Z) (v : value) :
  len d <= oo → encode_field int_of_str d oo k t L v = Raise IndexError.
Proof.
  intros H. unfold encode_field. by rewrite (proj2 (Z.leb_le _ _) H).
Qed.

Lemma save_fields_app (d : bytes) (base : Z) (rdata : gmap string value)
    (m1 m2 : list (string * fieldspec)) :
  save_fields int_of_str d base rdata (m1 ++ m2)
  = match save_fields int_of_str d base rdata m1 with
    | (d1, Ok _) => save_fields int_of_str d1 base rdata m2
    | (d1, Raise e) => (d1, Raise e)
    end.
Proof.
  revert d. induction m1 as [| [k [[o t] L]] m1 IH]; intros d; [done |].
  cbn [app save_fields]. destruct (rdata !! k) as [v |]; [| apply IH].
  destruct (encode_field int_of_str d (base + o) k t L v); [apply IH | done].
Qed.

Lemma save_records_app (d : bytes) (l1 l2 : list Rec) :
  save_records int_of_str d (l1 ++ l2)
  = match save_records int_of_str d l1 with
    | (d1, Ok _) => save_records int_of_str d1 l2
    | (d1, Raise e) => (d1, Raise e)
    end.
Proof.
  revert d. induction l1 as [| r l1 IH]; intros d; [done |].
  cbn [app save_records].
  destruct (save_fields int_of_str d (raw_off r) (data r) (map_of (type r)))
    as [d1 [[] | e]]; [apply IH | done].
Qed.

(** The loop stops with [RuntimeError] at a field whose offset is out of
    range when the loop comes to it. *)
Lemma save_records_out_of_range (d d1 d2 : bytes) (pre post : list Rec)
    (r : Rec) (m1 m2 : list (string * fieldspec)) (k : string) (o : Z)
    (t : ftype) (L : option Z) (v : value) :
  save_records int_of_str d pre = (d1, Ok tt) →
  map_of (type r) = m1 ++ (k, (o, t, L)) :: m2 →
  save_fields int_of_str d1 (raw_off r) (data r) m1 = (d2, Ok tt) →
  data r !! k = Some v →
  len d2 <= raw_off r + o →
  save_records int_of_str d (pre ++ r :: post) = (d2, Raise RuntimeError).
Proof.
  intros Hpre Hm Hm1 Hv Hout. rewrite save_records_app, Hpre.
  cbn [save_records]. rewrite Hm, save_fields_app, Hm1.
  cbn [save_fields]. rewrite Hv. by rewrite encode_field_out_of_range.
Qed.

(** C6. Save write-error atomicity: [save] writes the file only after the
    loop over all fields of all records has run to its end, and then writes
    the whole buffer in one operation; when the re-encoding of a field fails
    (as it does at an offset that is out of range when the loop comes to it)
    the call raises and the files are as they were. *)
Theorem save_write_atomicity (fs : filesystem) (self : DATModel)
    (p : option string) :
  let res := save int_of_str fs self p in
  let enc := save_records int_of_str (buffer self) (records self) in
  (∀ e, enc.2 = Raise e → ∃ e', res.1.1 = Raise e' ∧ res.2 = fs) ∧
  (∀ e, res.1.1 = Raise e → res.2 = fs) ∧
  (res.1.1 = Ok tt →
     ∃ out, out_path self p = Some out ∧ enc.2 = Ok tt ∧
       res.2 = mkFs (<[out := (Writable, enc.1)]> (files fs)) (blocked fs) ∧
       buffer res.1.2 = enc.1) ∧
  (∀ (d : bytes) (oo : Z) k t L v,
     len d <= oo → encode_field int_of_str d oo k t L v = Raise IndexError) ∧
  (∀ d1 d2 pre post r m1 m2 k o t L v,
     records self = pre ++ r :: post →
     save_records int_of_str (buffer self) pre = (d1, Ok tt) →
     map_of (type r) = m1 ++ (k, (o, t, L)) :: m2 →
     save_fields int_of_str d1 (raw_off r) (data r) m1 = (d2, Ok tt) →
     data r !! k = Some v →
     len d2 <= raw_off r + o →
     enc = (d2, Raise RuntimeError)).
Proof.
  intros res enc. subst res enc. unfold save.
  destruct (out_path self p) as [out |]; cbn.
  2: { repeat split; try done; eauto using encode_field_out_of_range.
       intros. subst. rewrite H. eauto using save_records_out_of_range. }
  destruct (check_writable fs out) as [[] | e0] eqn:Hc; cbn.
  2: { repeat split; try (by destruct e0; cbn; eauto);
         eauto using encode_field_out_of_range.
       intros. rewrite H. eauto using save_records_out_of_range. }
  destruct (save_records int_of_str (buffer self) (records self))
    as [d [[] | e]] eqn:Hs; cbn.
  - destruct (write_file fs out d) as [fs' | e1] eqn:Hw; cbn.
    + repeat split; try done; eauto using encode_field_out_of_range.
      * intros _. exists out. repeat split.
        unfold write_file in Hw.
        destruct (files fs !! out) as [[[] c] |]; try done;
          [by injection Hw as <- |].
        destruct (bool_decide (out ∈ blocked fs)); [done | by injection Hw as <-].
      * intros. rewrite H in Hs. rewrite <- Hs.
        eauto using save_records_out_of_range.
    + repeat split; try done; eauto using encode_field_out_of_range.
      intros. rewrite H in Hs. rewrite <- Hs.
      eauto using save_records_out_of_range.
  - repeat split; try done; eauto using encode_field_out_of_range.
    intros. rewrite H in Hs. rewrite <- Hs.
    eauto using save_records_out_of_range.
Qed.

End Saving.

(** ** A valid value is written and read back *)

Section RoundTrip.

Variable int_of_str : pystr → result Z.

Lemma length_field_bytes (k : string) (t : ftype) (L : option Z) (v : value) :
  valid_value k t L v = true → 0 <= width t L →
  length (field_bytes k t L v) = Z.to_nat (width t L).
Proof.
  intros Hv Hw.
  destruct t, v as [z | s |]; try done; cbn [field_bytes width] in *.
  by apply length_fixed_field.
Qed.

Lemma encode_field_valid (d : bytes) (oo : Z) (k : string) (t : ftype)
    (L : option Z) (v : value) :
  valid_value k t L v = true →
  0 <= oo → 0 < width t L → oo + width t L <= len d →
  encode_field int_of_str d oo k t L v
  = Ok (splice d (Z.to_nat oo) (field_bytes k t L v)).
Proof.
  intros Hv H0 Hw H1. unfold encode_field.
  rewrite (proj2 (Z.leb_gt _ _)) by lia.
  destruct t, v as [z | s |]; try done; cbn [valid_value width field_bytes] in *.
  - apply andb_prop in Hv as [Ha Hb]. apply Z.leb_le in Ha. apply Z.ltb_lt in Hb.
    destruct (unpack_pack_I z) as [Hp _]; [lia |].
    cbn. unfold write_u32_le. rewrite Hp. by rewrite pack_into4_in.
  - apply andb_prop in Hv as [Ha Hb]. apply Z.leb_le in Ha. apply Z.ltb_lt in Hb.
    destruct (unpack_pack_i z) as [Hp _]; [lia |].
    cbn. unfold write_i32_le. rewrite Hp. by rewrite pack_into4_in.
  - destruct (String.eqb k "show_in_shop").
    + rewrite write_u8_in by lia. unfold ne_int, eq_int.
      apply orb_prop in Hv as [Hz | Hz]; apply Z.eqb_eq in Hz; by subst z.
    + apply andb_prop in Hv as [Ha Hb]. apply Z.leb_le in Ha.
      apply Z.ltb_lt in Hb. cbn. rewrite write_u8_in by lia.
      rewrite land_255, Z.mod_small by lia. done.
  - destruct L as [n |]; [| done]. cbn [from_option] in *. unfold id in *.
    rewrite write_str_in by lia. by destruct s.
Qed.

Lemma parse_field_valid (d : bytes) (oo : Z) (k : string) (t : ftype)
    (L : option Z) (v : value) :
  valid_value k t L v = true →
  0 <= oo → 0 < width t L → oo + width t L <= len d →
  slice d (Z.to_nat oo) (Z.to_nat (width t L)) = field_bytes k t L v →
  parse_field d oo k t L = v.
Proof.
  intros Hv H0 Hw H1 Hs. unfold parse_field, decode_field.
  rewrite (proj2 (Z.leb_gt _ _)) by lia.
  destruct t, v as [z | s |]; try done; cbn [valid_value width field_bytes] in *.
  - apply andb_prop in Hv as [Ha Hb]. apply Z.leb_le in Ha. apply Z.ltb_lt in Hb.
    destruct (unpack_pack_I z) as [_ Hu]; [lia |].
    rewrite read_u32_le_in by lia.
    change (Z.to_nat 4) with 4%nat in Hs. rewrite Hs, Hu. done.
  - apply andb_prop in Hv as [Ha Hb]. apply Z.leb_le in Ha. apply Z.ltb_lt in Hb.
    destruct (unpack_pack_i z) as [_ Hu]; [lia |].
    rewrite read_i32_le_in by lia.
    change (Z.to_nat 4) with 4%nat in Hs. rewrite Hs, Hu. done.
  - destruct (read_u8_in d oo) as (b & Hb & ->); [lia |].
    change (Z.to_nat 1) with 1%nat in Hs. rewrite Hs in Hb.
    injection Hb as <-. cbn.
    destruct (String.eqb k "show_in_shop").
    + apply orb_prop in Hv as [Hz | Hz]; apply Z.eqb_eq in Hz; by subst z.
    + apply andb_prop in Hv as [Ha Hb]. apply Z.leb_le in Ha.
      apply Z.ltb_lt in Hb. by rewrite byte_to_of_Z by lia.
  - destruct L as [n |]; [| done]. cbn [from_option] in *. unfold id in *.
    apply andb_prop in Hv as [Hp Hl]. apply Z.leb_le in Hl.
    rewrite read_str_in by lia. rewrite Hs. unfold fixed_field. cbv zeta.
    rewrite before_nul_zeros, take_ge by (unfold len in Hl; lia).
    by rewrite decode_text_plain.
Qed.

(** *** A list of writes that keep apart *)

Lemma length_apply_writes (d : bytes) (ws : list (nat * bytes)) :
  Forall (λ w, (w.1 + length w.2 <= length d)%nat) ws →
  length (apply_writes d ws) = length d.
Proof.
  revert d. induction ws as [| w ws IH]; intros d H; [done |].
  apply Forall_cons in H as [Hw H]. cbn [apply_writes foldl].
  fold (apply_writes (splice d w.1 w.2) ws).
  rewrite IH; rewrite length_splice by done; done.
Qed.

Lemma apply_writes_app (d : bytes) (ws1 ws2 : list (nat * bytes)) :
  apply_writes d (ws1 ++ ws2) = apply_writes (apply_writes d ws1) ws2.
Proof. unfold apply_writes. apply foldl_app. Qed.

(** Writes that keep apart from a range leave it as it is. *)
Lemma apply_writes_frame (d : bytes) (ws : list (nat * bytes)) (a : nat)
    (bs : bytes) :
  Forall (λ w, (w.1 + length w.2 <= length d)%nat) ws →
  Forall (apart (a, bs)) ws →
  slice (apply_writes d ws) a (length bs) = slice d a (length bs).
Proof.
  revert d. induction ws as [| w ws IH]; intros d Hin Hap; [done |].
  apply Forall_cons in Hin as [Hw Hin]. apply Forall_cons in Hap as [Ha Hap].
  cbn [apply_writes foldl]. fold (apply_writes (splice d w.1 w.2) ws).
  rewrite IH; [| by rewrite length_splice | done].
  apply slice_splice_disjoint; [done |]. unfold apart in Ha. cbn in Ha. lia.
Qed.

(** After writes that keep apart from each other, each is read back. *)
Lemma apply_writes_read (d : bytes) (ws : list (nat * bytes))
    (w : nat * bytes) :
  Forall (λ w, (w.1 + length w.2 <= length d)%nat) ws →
  all_apart ws → w ∈ ws →
  slice (apply_writes d ws) w.1 (length w.2) = w.2.
Proof.
  revert d. induction ws as [| w0 ws IH]; intros d Hin Hap Hw.
  - by apply elem_of_nil in Hw.
  - apply Forall_cons in Hin as [Hw0 Hin]. destruct Hap as [Ha Hap].
    cbn [apply_writes foldl]. fold (apply_writes (splice d w0.1 w0.2) ws).
    apply elem_of_cons in Hw as [-> | Hw].
    + destruct w0 as [a bs]. cbn [fst snd] in *.
      rewrite apply_writes_frame; [| by rewrite length_splice | done].
      apply slice_splice_same. lia.
    + apply IH; [by rewrite length_splice | done | done].
Qed.

Lemma apart_sym (w1 w2 : nat * bytes) : apart w1 w2 → apart w2 w1.
Proof. unfold apart. lia. Qed.

Lemma all_apart_app (ws1 ws2 : list (nat * bytes)) :
  all_apart ws1 → all_apart ws2 →
  (∀ w1 w2, w1 ∈ ws1 → w2 ∈ ws2 → apart w1 w2) →
  all_apart (ws1 ++ ws2).
Proof.
  induction ws1 as [| w ws1 IH]; intros H1 H2 H12; [done |].
  destruct H1 as [Hw H1]. cbn [app all_apart]. split.
  - apply Forall_app. split; [done |].
    apply Forall_forall. intros w2 Hw2. apply H12; [left | done].
  - apply IH; [done | done |]. intros w1 w2 Hw1 Hw2.
    apply H12; [by right | done].
Qed.

(** *** Saving as a list of writes *)

Lemma field_ok_write (lo hi base : Z) (rdata : gmap string value)
    (e : string * fieldspec) :
  0 <= lo → field_ok lo hi base rdata e →
  (Z.to_nat lo <= (field_write base rdata e).1)%nat ∧
  ((field_write base rdata e).1 + length (field_write base rdata e).2
   <= Z.to_nat hi)%nat.
Proof.
  destruct e as [k [[o t] L]]. intros Hlo (v & Hv & Hval & Hw & H1 & H2).
  cbn [field_write fst snd]. rewrite Hv. cbn [from_option]. unfold id.
  rewrite length_field_bytes by (done || lia). lia.
Qed.

Lemma save_fields_writes (d : bytes) (base : Z) (rdata : gmap string value)
    (m : list (string * fieldspec)) :
  Forall (field_ok 0 (len d) base rdata) m →
  save_fields int_of_str d base rdata m
  = (apply_writes d (map (field_write base rdata) m), Ok tt).
Proof.
  revert d. induction m as [| [k [[o t] L]] m IH]; intros d H; [done |].
  apply Forall_cons in H as [Hk H].
  pose proof (field_ok_write 0 (len d) base rdata _ (Z.le_refl 0) Hk) as [_ Hr].
  destruct Hk as (v & Hv & Hval & Hw & H1 & H2).
  cbn [save_fields map apply_writes foldl field_write fst snd] in *.
  rewrite Hv in *. cbn [from_option] in *. unfold id in *.
  rewrite encode_field_valid by (done || lia).
  set (d1 := splice d (Z.to_nat (base + o)) (field_bytes k t L v)).
  assert (Hlen : len d1 = len d).
  { unfold len, d1. rewrite length_splice; [done |]. unfold len in Hr. lia. }
  rewrite IH by (by rewrite Hlen). done.
Qed.

Lemma save_records_writes (d : bytes) (recs : list Rec) :
  Forall (λ r, Forall (field_ok 0 (len d) (raw_off r) (data r))
                 (map_of (type r))) recs →
  save_records int_of_str d recs
  = (apply_writes d (flat_map record_writes recs), Ok tt).
Proof.
  revert d. induction recs as [| r recs IH]; intros d H; [done |].
  apply Forall_cons in H as [Hr H]. cbn [save_records flat_map].
  rewrite save_fields_writes by done. fold (record_writes r).
  assert (Hlen : len (apply_writes d (record_writes r)) = len d).
  { unfold len. rewrite length_apply_writes; [done |].
    unfold record_writes. apply Forall_fmap. eapply Forall_impl; [exact Hr |].
    intros e He. cbn.
    pose proof (field_ok_write 0 (len d) _ _ e (Z.le_refl 0) He) as [_ Hb].
    unfold len in Hb. lia. }
  rewrite IH by (by rewrite Hlen). by rewrite apply_writes_app.
Qed.

(** *** The writes of a laid-out list of records *)

Lemma map_of_no_overlap (T : rtype) : no_overlap (map_of T) = true.
Proof. by destruct T. Qed.

Lemma field_writes_apart (lo hi base : Z) (rdata : gmap string value)
    (m : list (string * fieldspec)) :
  0 <= lo → no_overlap m = true → Forall (field_ok lo hi base rdata) m →
  all_apart (map (field_write base rdata) m).
Proof.
  intros Hlo. induction m as [| [k [[o t] L]] m IH]; intros Hno Hok; [done |].
  apply Forall_cons in Hok as [Hk Hok]. cbn [no_overlap] in Hno.
  apply andb_prop in Hno as [Hno1 Hno]. cbn [map all_apart].
  split; [| by apply IH].
  rewrite forallb_forall in Hno1. apply Forall_fmap, Forall_forall.
  intros [k' [[o' t'] L']] He'.
  pose proof (proj1 (Forall_forall _ _) Hok _ He') as Hk'.
  specialize (Hno1 _ (proj1 (list_elem_of_In _ _) He')). cbn in Hno1.
  destruct Hk as (v & Hv & Hval & Hw & H1 & H2).
  destruct Hk' as (v' & Hv' & Hval' & Hw' & H1' & H2').
  unfold compose, apart. cbn [field_write fst snd]. rewrite Hv, Hv'.
  cbn [from_option]. unfold id.
  rewrite !length_field_bytes by (done || lia). lia.
Qed.

Lemma well_formed_fields (T : rtype) (i : Z) (r : Rec) :
  well_formed T i r = true →
  index r = i ∧ type r = T ∧ raw_off r = header + i * size_of T ∧
  valid_data T (data r) = true ∧
  Forall (field_ok (header + i * size_of T) (header + (i + 1) * size_of T)
            (raw_off r) (data r)) (map_of (type r)).
Proof.
  unfold well_formed. intros H. repeat (apply andb_prop in H as [H ?]).
  apply Z.eqb_eq in H. apply bool_decide_eq_true in H2. apply Z.eqb_eq in H1.
  repeat split; try done. rewrite H2. apply Forall_forall.
  intros [k [[o t] L]] He.
  pose proof (field_fits T k o t L He) as (Ho & Hw & Hs & _).
  unfold valid_data in H0. repeat (apply andb_prop in H0 as [H0 ?]).
  rewrite forallb_forall in H0.
  specialize (H0 _ (proj1 (list_elem_of_In _ _) He)). cbn in H0.
  destruct (data r !! k) as [v |] eqn:Hv; [| done].
  exists v. repeat split; try done; lia.
Qed.

Lemma field_ok_weaken (lo hi lo' hi' base : Z) (rdata : gmap string value)
    (e : string * fieldspec) :
  lo' <= lo → hi <= hi' →
  field_ok lo hi base rdata e → field_ok lo' hi' base rdata e.
Proof.
  destruct e as [k [[o t] L]]. intros Hlo Hhi (v & Hv & Hval & Hw & H1 & H2).
  exists v. repeat split; try done; lia.
Qed.

Lemma size_of_pos (T : rtype) : 0 < size_of T.
Proof. by destruct T. Qed.

Lemma laid_out_lookup (T : rtype) (i : Z) (recs : list Rec) (j : nat) (r : Rec) :
  laid_out T i recs = true → recs !! j = Some r →
  well_formed T (i + Z.of_nat j) r = true.
Proof.
  revert i j. induction recs as [| r0 recs IH]; intros i j H Hj; [done |].
  cbn [laid_out] in H. apply andb_prop in H as [H0 H].
  destruct j as [| j]; cbn in Hj.
  - injection Hj as <-. by rewrite Z.add_0_r.
  - replace (i + Z.of_nat (S j)) with (i + 1 + Z.of_nat j) by lia.
    by apply IH.
Qed.

(** The writes of the records of a file keep apart from each other and
    inside the part of the file that the records take. *)
Lemma laid_out_writes (T : rtype) (i : Z) (recs : list Rec) :
  0 <= i → laid_out T i recs = true →
  all_apart (flat_map record_writes recs) ∧
  Forall (λ w, (Z.to_nat (header + i * size_of T) <= w.1)%nat ∧
               (w.1 + length w.2
                <= Z.to_nat (header + (i + len recs) * size_of T))%nat)
         (flat_map record_writes recs).
Proof.
  pose proof (size_of_pos T) as Hs. unfold header.
  revert i. induction recs as [| r recs IH]; intros i Hi H.
  - split; [done | apply Forall_nil_2].
  - cbn [laid_out] in H. apply andb_prop in H as [Hr H].
    destruct (IH (i + 1) ltac:(lia) H) as [IHa IHr].
    apply well_formed_fields in Hr as (_ & HT & _ & _ & Hok).
    unfold header in Hok.
    assert (Hrange : Forall (λ w,
              (Z.to_nat (4 + i * size_of T) <= w.1)%nat ∧
              (w.1 + length w.2 <= Z.to_nat (4 + (i + 1) * size_of T))%nat)
              (record_writes r)).
    { unfold record_writes. apply Forall_fmap. eapply Forall_impl; [exact Hok |].
      intros e He. apply (field_ok_write _ _ _ _ e); [nia | done]. }
    cbn [flat_map]. split.
    + apply all_apart_app; [| done |].
      * unfold record_writes. eapply field_writes_apart; [| | exact Hok].
        -- nia.
        -- apply map_of_no_overlap.
      * intros w1 w2 H1 H2.
        apply (proj1 (Forall_forall _ _) Hrange) in H1 as [_ H1].
        apply (proj1 (Forall_forall _ _) IHr) in H2 as [H2 _].
        unfold apart. lia.
    + apply Forall_app. split.
      * eapply Forall_impl; [exact Hrange |]. intros w [H1 H2]. split; [done |].
        unfold len. cbn [length]. nia.
      * eapply Forall_impl; [exact IHr |]. intros w [H1 H2]. split; [nia |].
        unfold len in *. cbn [length]. 
        replace (i + Z.of_nat (S (length recs)))
          with (i + 1 + Z.of_nat (length recs)) by lia. done.
Qed.

Lemma lookup_range (n : Z) (j : nat) :
  (j < Z.to_nat n)%nat → range n !! j = Some (Z.of_nat j).
Proof.
  intros H. unfold range. rewrite list_lookup_fmap.
  by rewrite lookup_seq_lt.
Qed.

(** *** Reading the records back *)

Lemma Rec_eq (r1 r2 : Rec) :
  index r1 = index r2 → type r1 = type r2 → raw_off r1 = raw_off r2 →
  data r1 = data r2 → r1 = r2.
Proof. destruct r1, r2. cbn. by intros -> -> -> ->. Qed.

Lemma valid_data_lookup (T : rtype) (m : gmap string value) (k : string) :
  valid_data T m = true → spec_of (map_of T) k = None →
  m !! k = if decide (k ∈ other_fields T) then Some VNone else None.
Proof.
  unfold valid_data. intros H Hk. repeat (apply andb_prop in H as [H ?]).
  apply bool_decide_eq_true in H0. rewrite forallb_forall in H1.
  destruct (decide (k ∈ other_fields T)) as [Ho | Ho].
  - specialize (H1 _ (proj1 (list_elem_of_In _ _) Ho)).
    by apply bool_decide_eq_true in H1.
  - apply not_elem_of_dom. rewrite H0, <- (fields_of_variant T).
    rewrite elem_of_list_to_set, elem_of_app.
    apply spec_of_None in Hk. tauto.
Qed.

(** A record whose fields are in the buffer as the layout encodes them is
    the record that [_parse] reads there. *)
Lemma parse_record_written (d : bytes) (T : rtype) (j : Z) (r : Rec) :
  well_formed T j r = true → 0 <= j →
  header + (j + 1) * size_of T <= len d →
  (∀ e, e ∈ map_of T →
     slice d (field_write (raw_off r) (data r) e).1
             (length (field_write (raw_off r) (data r) e).2)
     = (field_write (raw_off r) (data r) e).2) →
  parse_record d (size_of T) j = r.
Proof.
  intros Hwf Hj Hlen Hread.
  apply well_formed_fields in Hwf as (Hi & HT & Hoff & Hval & Hok).
  assert (Hv : variant_of (size_of T) = T) by (by destruct T).
  apply Rec_eq; [done | by rewrite type_parse_record, Hv | done |].
  apply map_eq. intros k. rewrite lookup_parse_record, Hv.
  destruct (spec_of (map_of T) k) as [[[o t] L] |] eqn:E.
  - apply spec_of_Some in E; [| apply map_of_NoDup].
    rewrite HT in Hok.
    pose proof (proj1 (Forall_forall _ _) Hok _ E) as (v & Hkv & Hvv & Hw & H1 & H2).
    specialize (Hread _ E). cbn [field_write fst snd] in Hread.
    rewrite Hkv in *. cbn [from_option] in Hread. unfold id in Hread.
    rewrite length_field_bytes in Hread by (done || lia).
    pose proof (size_of_pos T). unfold header in *.
    rewrite <- Hoff. f_equal.
    apply parse_field_valid; try done; nia.
  - symmetry. by apply valid_data_lookup.
Qed.

Lemma elem_of_record_writes (recs : list Rec) (r : Rec)
    (e : string * fieldspec) :
  r ∈ recs → e ∈ map_of (type r) →
  field_write (raw_off r) (data r) e ∈ flat_map record_writes recs.
Proof.
  intros Hr He. apply list_elem_of_In, in_flat_map. exists r.
  split; [by apply list_elem_of_In |].
  apply list_elem_of_In. unfold record_writes. by apply list_elem_of_fmap_2.
Qed.

(** Saving a laid-out list of valid records into a buffer that holds them
    succeeds and keeps the length of the buffer; each field is then in the
    buffer as the layout encodes it. *)
Lemma save_laid_out (d : bytes) (recs : list Rec) (T : rtype) :
  header + len recs * size_of T <= len d →
  laid_out T 0 recs = true →
  ∃ d', save_records int_of_str d recs = (d', Ok tt) ∧ len d' = len d ∧
    ∀ (j : nat) r, recs !! j = Some r → parse_record d' (size_of T) (Z.of_nat j) = r.
Proof.
  intros Hfit Hlo. pose proof (size_of_pos T) as Hpos.
  destruct (laid_out_writes T 0 recs (Z.le_refl 0) Hlo) as [Hap Hrange].
  set (ws := flat_map record_writes recs) in *.
  assert (Hin : Forall (λ w, (w.1 + length w.2 <= length d)%nat) ws).
  { eapply Forall_impl; [exact Hrange |]. intros w [_ Hw].
    unfold len, header in *. lia. }
  assert (Hwf : ∀ (j : nat) r, recs !! j = Some r →
            well_formed T (Z.of_nat j) r = true ∧ Z.of_nat j + 1 <= len recs).
  { intros j r Hj. split.
    - by apply (laid_out_lookup T 0 recs j r Hlo).
    - apply lookup_lt_Some in Hj. unfold len. lia. }
  exists (apply_writes d ws).
  assert (Hlen : len (apply_writes d ws) = len d)
    by (unfold len; by rewrite length_apply_writes).
  split; [| split; [done |]].
  - apply save_records_writes. apply Forall_lookup. intros j r Hj.
    destruct (Hwf j r Hj) as [Hr Hb].
    apply well_formed_fields in Hr as (_ & _ & _ & _ & Hok).
    eapply Forall_impl; [exact Hok |]. intros e He.
    eapply field_ok_weaken; [| | exact He]; unfold header in *; nia.
  - intros j r Hj. destruct (Hwf j r Hj) as [Hr Hb].
    apply (parse_record_written _ T); [done | lia | | ].
    + rewrite Hlen. unfold header in *. nia.
    + intros e He. apply apply_writes_read; [done | done |].
      apply elem_of_record_writes; [by eapply list_elem_of_lookup_2 |].
      apply well_formed_fields in Hr as (_ & -> & _). done.
Qed.

(** When detection reads the length of the buffer as the variant and the
    number of the records, the buffer parses to the records. *)
Lemma save_then_parse (d : bytes) (recs : list Rec) (T : rtype) :
  variant_of (detect_record_size (len d)) = T →
  len recs = (len d - header) / detect_record_size (len d) →
  laid_out T 0 recs = true →
  ∃ d', save_records int_of_str d recs = (d', Ok tt) ∧
        len d' = len d ∧ _parse d' = recs.
Proof.
  intros HT Hn Hlo.
  assert (Hsz : size_of T = detect_record_size (len d))
    by (by rewrite <- HT, size_of_variant_detect).
  assert (Hfit : header + len recs * size_of T <= len d).
  { rewrite Hn, Hsz. unfold header.
    pose proof (Z.mul_div_le (len d - 4) _ (detect_record_size_pos (len d))).
    lia. }
  destruct (save_laid_out d recs T Hfit Hlo) as (d' & Hsave & Hlen & Hrec).
  exists d'. split; [done |]. split; [done |].
  unfold _parse. rewrite Hlen, <- Hn, <- Hsz. apply list_eq. intros j.
  rewrite list_lookup_fmap.
  destruct (recs !! j) as [r |] eqn:Hj.
  - rewrite lookup_range by (apply lookup_lt_Some in Hj; unfold len; lia).
    cbn. f_equal. by apply Hrec.
  - apply lookup_ge_None in Hj.
    rewrite (lookup_ge_None_2 (range _)); [done |].
    rewrite length_range. unfold len. lia.
Qed.

End RoundTrip.

(** ** The round trip *)

Lemma detect_normal_file (n : Z) :
  0 <= n → detect_record_size (header + n * NORMAL_SIZE) = NORMAL_SIZE.
Proof.
  intros H. unfold detect_record_size, header, NORMAL_SIZE.
  replace (Z.max 0 (4 + n * 644 - 4)) with (n * 644) by lia.
  by rewrite Z.mod_mul.
Qed.

Lemma detect_exitem_file (n : Z) :
  0 <= n → n mod 161 ≠ 0 →
  detect_record_size (header + n * EXITEM_SIZE) = EXITEM_SIZE.
Proof.
  intros H Hn. unfold detect_record_size, header, NORMAL_SIZE, EXITEM_SIZE.
  replace (Z.max 0 (4 + n * 684 - 4)) with (n * 684) by lia.
  rewrite Z.mod_mul by lia.
  destruct (Z.eqb_spec ((n * 684) mod 644) 0) as [E | E]; [| done].
  exfalso. apply Hn. Z.div_mod_to_equations. lia.
Qed.

Lemma detect_exact (T : rtype) (n : Z) :
  0 <= n → T = Normal ∨ n mod 161 ≠ 0 →
  detect_record_size (header + n * size_of T) = size_of T.
Proof.
  intros Hn [-> | H].
  - by apply detect_normal_file.
  - destruct T; [by apply detect_normal_file | by apply detect_exitem_file].
Qed.

Lemma parse_no_records (d : bytes) :
  0 = (len d - header) / detect_record_size (len d) → _parse d = [].
Proof. intros H. unfold _parse. by rewrite <- H. Qed.

(** C1, within the reach of detection. For a list of records laid out as
    [_parse] lays them out (the [i]-th at offset [4 + i * size]), of either
    variant, whose dictionaries hold valid values, and a buffer whose length
    detection reads as that number of records and, unless there is none, as
    that variant (as it does the length [4 + n * size], for Normal always
    and for Ex-item unless [n] is a multiple of 161 other than 0): the
    re-encoding of [save] succeeds, keeps the length of the buffer, and the
    buffer then parses to the same records. *)
Theorem save_parse_round_trip (int_of_str : pystr → result Z) (d : bytes)
    (recs : list Rec) (T : rtype) :
  laid_out T 0 recs = true →
  (len recs = (len d - header) / detect_record_size (len d) ∧
   (recs = [] ∨ variant_of (detect_record_size (len d)) = T)) ∨
  (len d = header + len recs * size_of T ∧
   (recs = [] ∨ T = Normal ∨ len recs mod 161 ≠ 0)) →
  ∃ d', save_records int_of_str d recs = (d', Ok tt) ∧
        len d' = len d ∧ _parse d' = recs.
Proof.
  intros Hlo H.
  assert (Hnone : recs = [] →
            0 = (len d - header) / detect_record_size (len d) →
            ∃ d', save_records int_of_str d recs = (d', Ok tt) ∧
                  len d' = len d ∧ _parse d' = recs).
  { intros -> H0. exists d. repeat split. by apply parse_no_records. }
  destruct H as [[Hn [-> | HT]] | [Hd [-> | HT]]].
  - by apply Hnone.
  - by apply (save_then_parse int_of_str d recs T).
  - apply Hnone; [done |].
    replace (len d) with header by (rewrite Hd; unfold len; cbn; lia).
    by rewrite Z.sub_diag.
  - pose proof (detect_exact T (len recs) (len_nonneg recs) HT) as Hdet.
    rewrite <- Hd in Hdet.
    apply (save_then_parse int_of_str d recs T); [| | done].
    + rewrite Hdet. by destruct T.
    + rewrite Hdet, Hd. replace (header + len recs * size_of T - header)
        with (len recs * size_of T) by lia.
      rewrite Z.div_mul; [done |]. pose proof (size_of_pos T). lia.
Qed.

Lemma save_parse_round_trip_witness :
  (laid_out Normal 0 [hero] = true ∧
   len one_record_buffer = header + len [hero] * size_of Normal) ∧
  ∃ d', save_records int_of_ascii one_record_buffer [hero] = (d', Ok tt) ∧
        len d' = len one_record_buffer ∧ _parse d' = [hero].
Proof.
  assert (H1 : laid_out Normal 0 [hero] = true) by (by vm_compute).
  assert (H2 : len one_record_buffer = header + len [hero] * size_of Normal)
    by (by vm_compute).
  split; [by split |].
  exact (save_parse_round_trip int_of_ascii one_record_buffer [hero] Normal
           H1 (or_intror (conj H2 (or_intror (or_introl eq_refl))))).
Defined.

Lemma laid_out_exitem_161 : laid_out ExItem 0 exitem_161 = true.
Proof. by vm_compute. Qed.

(** 161 valid Ex-item records take 110124 bytes, which 644 divides: saved
    into their file and parsed again they come back as 171 Normal
    records. *)
Lemma exitem_161_read_as_normal :
  laid_out ExItem 0 exitem_161 = true ∧
  len exitem_161_buffer = header + len exitem_161 * size_of ExItem ∧
  ∃ d', save_records int_of_ascii exitem_161_buffer exitem_161 = (d', Ok tt) ∧
        length exitem_161 = 161%nat ∧ length (_parse d') = 171%nat ∧
        Forall (λ r, type r = Normal) (_parse d') ∧
        _parse d' ≠ exitem_161.
Proof.
  assert (Hlen : len exitem_161_buffer = 110128).
  { unfold exitem_161_buffer, len. rewrite length_replicate. lia. }
  assert (Hn : length exitem_161 = 161%nat) by (by vm_compute).
  split; [apply laid_out_exitem_161 |]. split.
  { rewrite Hlen. unfold len. rewrite Hn. by vm_compute. }
  destruct (save_laid_out int_of_ascii exitem_161_buffer exitem_161 ExItem)
    as (d' & Hsave & Hd' & _).
  { rewrite Hlen. unfold len. rewrite Hn. by vm_compute. }
  { apply laid_out_exitem_161. }
  exists d'. split; [done |]. split; [done |].
  assert (Hp : length (_parse d') = 171%nat).
  { rewrite length_parse, Hd', Hlen. by vm_compute. }
  split; [done |]. split.
  - unfold _parse. rewrite Hd', Hlen. apply Forall_fmap, Forall_forall.
    intros i _. by vm_compute.
  - intros E. rewrite E, Hn in Hp. discriminate.
Qed.

(** ** The integer helpers at any offset *)

Lemma struct_offset_Ok (n off : Z) (i : nat) :
  0 <= n → struct_offset n off = Ok i → (i + 4 <= Z.to_nat n)%nat.
Proof.
  intros Hn. unfold struct_offset.
  destruct (Z.ltb_spec off 0).
  - destruct (Z.ltb_spec 0 (off + 4)); [done |].
    destruct (Z.ltb_spec (off + n) 0); [done |]. intros [= <-]. lia.
  - destruct (Z.ltb_spec (n - off) 4); [done |]. intros [= <-]. lia.
Qed.

Lemma pack_into4_Ok (d : bytes) (off : Z) (item : result bytes) (d' : bytes) :
  pack_into4 d off item = Ok d' →
  ∃ i bs, struct_offset (len d) off = Ok i ∧ item = Ok bs ∧
          d' = take i d ++ bs ++ drop (i + 4) d.
Proof.
  unfold pack_into4. destruct (struct_offset (len d) off) as [i | e]; [| done].
  destruct item as [bs | e]; [| done]. cbn. intros [= <-]. by exists i, bs.
Qed.

Lemma pack_into4_read (d : bytes) (off : Z) (bs : bytes) (d' : bytes) :
  length bs = 4%nat → pack_into4 d off (Ok bs) = Ok d' →
  len d' = len d ∧ unpack_from4 d' off = Ok bs.
Proof.
  intros Hbs H. apply pack_into4_Ok in H as (i & bs' & Hi & [= <-] & ->).
  pose proof (struct_offset_Ok _ _ _ (len_nonneg d) Hi) as Hr.
  unfold len in Hr. rewrite Nat2Z.id in Hr.
  assert (Hlen : len (take i d ++ bs ++ drop (i + 4) d) = len d).
  { unfold len. rewrite !length_app, length_take, length_drop. lia. }
  split; [done |]. unfold unpack_from4. rewrite Hlen, Hi. cbn.
  rewrite drop_app_length' by (rewrite length_take; lia).
  by rewrite take_app_length' by done.
Qed.

(** X1. [write_u32_le] succeeds only for a value of 32 bits; when it does,
    whatever the offset (also one counted from the end), the buffer keeps
    its length and [read_u32_le] at the same offset gives the value back. *)
Theorem u32_write_then_read (d : bytes) (off val : Z) (d' : bytes) :
  write_u32_le d off val = Ok d' →
  0 <= val < 2 ^ 32 ∧ len d' = len d ∧ read_u32_le d' off = Ok val.
Proof.
  unfold write_u32_le. intros H.
  destruct (pack_into4_Ok _ _ _ _ H) as (i & bs & _ & Hp & _).
  unfold pack_I in Hp.
  destruct (Z.leb_spec 0 val); [| done].
  destruct (Z.ltb_spec val (2 ^ 32)); [| done]. injection Hp as <-.
  destruct (unpack_pack_I val) as [Hpk Hu]; [lia |].
  rewrite Hpk in H. apply pack_into4_read in H as [Hl Hr]; [| done].
  split; [lia |]. split; [done |]. unfold read_u32_le. rewrite Hr.
  change (Ok (unpack_I (le_encode4 val)) = Ok val). by rewrite Hu.
Qed.

Lemma u32_write_then_read_witness :
  write_u32_le [x00; x01; x02; x03; x04; x05] (-5) 4000000000
  = Ok [x00; x00; x28; x6b; xee; x05] ∧
  read_u32_le [x00; x00; x28; x6b; xee; x05] (-5) = Ok 4000000000.
Proof.
  assert (H : write_u32_le [x00; x01; x02; x03; x04; x05] (-5) 4000000000
              = Ok [x00; x00; x28; x6b; xee; x05]) by (by vm_compute).
  split; [exact H |].
  exact (proj2 (proj2 (u32_write_then_read _ _ _ _ H))).
Defined.

(** X2. [write_i32_le] succeeds only for a value of 32 bits with sign; when
    it does, the buffer keeps its length and [read_i32_le] at the same
    offset gives the value back, sign included. *)
Theorem i32_write_then_read (d : bytes) (off val : Z) (d' : bytes) :
  write_i32_le d off val = Ok d' →
  - 2 ^ 31 <= val < 2 ^ 31 ∧ len d' = len d ∧ read_i32_le d' off = Ok val.
Proof.
  unfold write_i32_le. intros H.
  destruct (pack_into4_Ok _ _ _ _ H) as (i & bs & _ & Hp & _).
  unfold pack_i in Hp.
  destruct (Z.leb_spec (- 2 ^ 31) val); [| done].
  destruct (Z.ltb_spec val (2 ^ 31)); [| done]. injection Hp as <-.
  destruct (unpack_pack_i val) as [Hpk Hu]; [lia |].
  rewrite Hpk in H. apply pack_into4_read in H as [Hl Hr]; [| done].
  split; [lia |]. split; [done |]. unfold read_i32_le. rewrite Hr.
  change (Ok (unpack_i (le_encode4 val)) = Ok val). by rewrite Hu.
Qed.

Lemma i32_write_then_read_witness :
  write_i32_le [x00; x01; x02; x03; x04; x05] 1 (-2)
  = Ok [x00; xfe; xff; xff; xff; x05] ∧
  read_i32_le [x00; xfe; xff; xff; xff; x05] 1 = Ok (-2).
Proof.
  assert (H : write_i32_le [x00; x01; x02; x03; x04; x05] 1 (-2)
              = Ok [x00; xfe; xff; xff; xff; x05]) by (by vm_compute).
  split; [exact H |].
  exact (proj2 (proj2 (i32_write_then_read _ _ _ _ H))).
Defined.

(** X3. [write_u8] keeps the low eight bits of any integer: it succeeds at
    exactly the offsets at which [read_u8] does, keeps the length of the
    buffer, and [read_u8] then gives the value modulo 256. *)
Theorem u8_write_then_read (d : bytes) (off val : Z) :
  (is_ok (write_u8 d off val) = is_ok (read_u8 d off)) ∧
  ∀ d', write_u8 d off val = Ok d' →
    len d' = len d ∧ read_u8 d' off = Ok (val mod 256).
Proof.
  unfold write_u8, read_u8.
  destruct (py_index (len d) off) as [i |] eqn:Hi; [| done].
  pose proof (py_index_lt _ _ _ (len_nonneg d) Hi) as Hlt.
  unfold len in Hlt.
  destruct (lookup_lt_is_Some_2 d i ltac:(lia)) as [b Hb]. rewrite Hb.
  split; [done |]. intros d' [= <-].
  assert (Hl : len (<[i := byte_of_Z (Z.land val 255)]> d) = len d)
    by (unfold len; by rewrite length_insert).
  split; [done |]. rewrite Hl, Hi.
  rewrite list_lookup_insert_eq by lia.
  rewrite land_255, byte_to_of_Z; [done |]. apply Z.mod_pos_bound. lia.
Qed.

(** ** What a parsed record holds *)

Lemma le_decode_bound (bs : bytes) :
  0 <= le_decode bs < 256 ^ Z.of_nat (length bs).
Proof.
  induction bs as [| b bs IH]; [done |].
  cbn [le_decode foldr length]. fold (le_decode bs).
  rewrite Nat2Z.inj_succ, Z.pow_succ_r by lia.
  pose proof (byte_to_Z_range b). lia.
Qed.

Lemma le_decode_4 (bs : bytes) :
  (length bs <= 4)%nat → 0 <= le_decode bs < 2 ^ 32.
Proof.
  intros H. pose proof (le_decode_bound bs) as Hb.
  assert (256 ^ Z.of_nat (length bs) <= 256 ^ 4)
    by (apply Z.pow_le_mono_r; lia).
  change (256 ^ 4) with (2 ^ 32) in *. lia.
Qed.

Lemma length_slice_le (d : bytes) (a w : nat) : (length (slice d a w) <= w)%nat.
Proof. unfold slice. rewrite length_take. lia. Qed.

Lemma unpack_i_range (bs : bytes) :
  (length bs <= 4)%nat → - 2 ^ 31 <= unpack_i bs < 2 ^ 31.
Proof.
  intros H. pose proof (le_decode_4 bs H) as Hb. unfold unpack_i.
  change (2 ^ 32) with 4294967296 in *. change (2 ^ 31) with 2147483648 in *.
  destruct (Z.ltb_spec (le_decode bs) 2147483648); lia.
Qed.

(** What [_parse] leaves in a field of the record's own layout. *)
Lemma parsed_field_value (d : bytes) (r : Rec) (k : string) (o : Z)
    (t : ftype) (L : option Z) :
  r ∈ _parse d → (k, (o, t, L)) ∈ map_of (type r) →
  match t with
  | U32 => ∃ z, data r !! k = Some (VInt z) ∧ 0 <= z < 2 ^ 32
  | I32 => ∃ z, data r !! k = Some (VInt z) ∧ - 2 ^ 31 <= z < 2 ^ 31
  | U8 => ∃ z, data r !! k = Some (VInt z) ∧ 0 <= z < 256
  | Str => ∃ s, data r !! k = Some (VStr s)
  end.
Proof.
  intros Hr Hk.
  destruct (parsed_field_in_buffer d r k o t L Hr Hk) as (H0 & H1 & ->).
  pose proof (field_fits _ k o t L Hk) as (_ & Hw & _ & HL).
  unfold parse_field, decode_field.
  rewrite (proj2 (Z.leb_gt _ _)) by lia.
  destruct t; cbn [width] in *.
  - rewrite read_u32_le_in by lia. eexists. split; [reflexivity |].
    apply le_decode_4, length_slice_le.
  - rewrite read_i32_le_in by lia. eexists. split; [reflexivity |].
    apply unpack_i_range, length_slice_le.
  - destruct (read_u8_in d (raw_off r + o)) as (b & _ & ->); [lia |].
    pose proof (byte_to_Z_range b). cbn.
    destruct (String.eqb k "show_in_shop"); eexists; (split; [reflexivity |]);
      [destruct (byte_to_Z b =? 0); cbn; lia | lia].
  - destruct (HL eq_refl) as (n & -> & _). by eexists.
Qed.

(** X4. [_parse] reads whole records only, so no field of a record's own
    layout is ever [None]: the integer fields hold an integer of their
    range, the flags a byte value, the strings a string; and the record is
    at its place in the list, with its index and its offset in the file. *)
Theorem parsed_record_complete (d : bytes) (r : Rec) :
  r ∈ _parse d →
  (∃ j : nat, _parse d !! j = Some r ∧ index r = Z.of_nat j ∧
     raw_off r = 4 + Z.of_nat j * detect_record_size (len d) ∧
     raw_off r + detect_record_size (len d) <= len d) ∧
  ∀ k o t L, (k, (o, t, L)) ∈ map_of (type r) →
    match t with
    | U32 => ∃ z, data r !! k = Some (VInt z) ∧ 0 <= z < 2 ^ 32
    | I32 => ∃ z, data r !! k = Some (VInt z) ∧ - 2 ^ 31 <= z < 2 ^ 31
    | U8 => ∃ z, data r !! k = Some (VInt z) ∧ 0 <= z < 256
    | Str => ∃ s, data r !! k = Some (VStr s)
    end.
Proof.
  intros Hr.
  split; [| intros k o t L Hk; exact (parsed_field_value d r k o t L Hr Hk)].
  apply list_elem_of_lookup in Hr as [j Hj]. exists j. split; [done |].
  unfold _parse in Hj. rewrite list_lookup_fmap in Hj.
  destruct (range _ !! j) as [i |] eqn:Hi; [| done].
  injection Hj as <-.
  assert (Hlt : (j < Z.to_nat ((len d - header) / detect_record_size (len d)))%nat).
  { apply lookup_lt_Some in Hi. by rewrite length_range in Hi. }
  rewrite lookup_range in Hi by done. injection Hi as <-.
  cbn [index raw_off parse_record]. split; [done |]. split; [done |].
  set (count := (len d - header) / detect_record_size (len d)) in *.
  assert (Hj : 0 <= Z.of_nat j < count) by lia.
  pose proof (record_in_buffer (len d) _ (Z.of_nat j)
                (detect_record_size_pos _) Hj).
  unfold header in *. lia.
Qed.

Lemma parsed_record_complete_witness :
  (hero_file_record ∈ _parse one_record_buffer) ∧
  ∀ k o t L, (k, (o, t, L)) ∈ map_of (type hero_file_record) →
    match t with
    | U32 => ∃ z, data hero_file_record !! k = Some (VInt z) ∧ 0 <= z < 2 ^ 32
    | I32 => ∃ z, data hero_file_record !! k = Some (VInt z) ∧ - 2 ^ 31 <= z < 2 ^ 31
    | U8 => ∃ z, data hero_file_record !! k = Some (VInt z) ∧ 0 <= z < 256
    | Str => ∃ s, data hero_file_record !! k = Some (VStr s)
    end.
Proof.
  assert (H : hero_file_record ∈ _parse one_record_buffer).
  { assert (E : _parse one_record_buffer = [hero_file_record])
      by (by vm_compute).
    rewrite E. left. }
  split; [exact H |].
  exact (proj2 (parsed_record_complete one_record_buffer hero_file_record H)).
Defined.

(** ** What [_parse] reads of the buffer *)

Lemma slice_ext (d1 d2 : bytes) (a w : nat) :
  (∀ p : nat, (a <= p < a + w)%nat → d1 !! p = d2 !! p) →
  slice d1 a w = slice d2 a w.
Proof.
  intros H. unfold slice. apply list_eq. intros i.
  destruct (decide (i < w)%nat) as [Hi | Hi].
  - rewrite !lookup_take_lt, !lookup_drop by done. apply H. lia.
  - by rewrite !lookup_take_ge by lia.
Qed.

(** A field that lies inside the buffer is read from its own bytes only. *)
Lemma parse_field_ext (d1 d2 : bytes) (oo : Z) (k : string) (t : ftype)
    (L : option Z) :
  len d1 = len d2 → 0 <= oo → 0 < width t L → oo + width t L <= len d1 →
  slice d1 (Z.to_nat oo) (Z.to_nat (width t L))
  = slice d2 (Z.to_nat oo) (Z.to_nat (width t L)) →
  parse_field d1 oo k t L = parse_field d2 oo k t L.
Proof.
  intros Hl H0 Hw H1 Hs. unfold parse_field, decode_field. rewrite <- Hl.
  rewrite (proj2 (Z.leb_gt _ _)) by lia.
  destruct t; cbn [width] in *.
  - rewrite !read_u32_le_in by lia.
    change (Z.to_nat 4) with 4%nat in Hs. by rewrite Hs.
  - rewrite !read_i32_le_in by lia.
    change (Z.to_nat 4) with 4%nat in Hs. by rewrite Hs.
  - destruct (read_u8_in d1 oo) as (b1 & Hb1 & ->); [lia |].
    destruct (read_u8_in d2 oo) as (b2 & Hb2 & ->); [lia |].
    change (Z.to_nat 1) with 1%nat in Hs. rewrite Hs, Hb2 in Hb1.
    by injection Hb1 as ->.
  - destruct L as [n |]; [| done]. cbn [from_option] in *. unfold id in *.
    rewrite !read_str_in by lia. by rewrite Hs.
Qed.

(** X5. [_parse] reads the length of the buffer and the bytes of the whole
    records, nothing else: two buffers of one length that agree from byte 4
    to the end of the last whole record parse to the same records, whatever
    their headers and the bytes after the last whole record are. *)
Theorem parse_reads_records_only (d1 d2 : bytes) :
  len d1 = len d2 →
  (∀ p : nat,
     4 <= Z.of_nat p
       < 4 + (len d1 - 4) / detect_record_size (len d1)
             * detect_record_size (len d1) →
     d1 !! p = d2 !! p) →
  _parse d1 = _parse d2.
Proof.
  intros Hl H. unfold _parse. rewrite <- Hl.
  set (size := detect_record_size (len d1)) in *.
  pose proof (detect_record_size_pos (len d1)) as Hpos. fold size in Hpos.
  apply map_ext_in. intros i Hi.
  apply list_elem_of_In, elem_of_range in Hi.
  pose proof (record_in_buffer (len d1) size i Hpos Hi) as Hin.
  apply Rec_eq; try done. apply map_eq. intros k.
  rewrite !lookup_parse_record.
  destruct (spec_of _ k) as [[[o t] L] |] eqn:E; [| done].
  apply spec_of_Some in E; [| apply map_of_NoDup].
  pose proof (field_fits _ k o t L E) as (Ho & Hw & Hs & _).
  assert (Hsz : size_of (variant_of size) = size)
    by apply size_of_variant_detect.
  rewrite Hsz in Hs. unfold header in *. f_equal.
  apply parse_field_ext; [done | nia | done | nia |].
  apply slice_ext. intros p Hp. apply H. fold size. nia.
Qed.

Lemma parse_reads_records_only_witness :
  (len one_record_buffer = len relabelled_buffer ∧
   ∀ p : nat,
     4 <= Z.of_nat p
       < 4 + (len one_record_buffer - 4)
             / detect_record_size (len one_record_buffer)
             * detect_record_size (len one_record_buffer) →
     one_record_buffer !! p = relabelled_buffer !! p) ∧
  _parse one_record_buffer = _parse relabelled_buffer.
Proof.
  assert (H1 : len one_record_buffer = len relabelled_buffer) by (by vm_compute).
  assert (H2 : ∀ p : nat,
     4 <= Z.of_nat p
       < 4 + (len one_record_buffer - 4)
             / detect_record_size (len one_record_buffer)
             * detect_record_size (len one_record_buffer) →
     one_record_buffer !! p = relabelled_buffer !! p).
  { intros p Hp. unfold relabelled_buffer, one_record_buffer.
    change (replicate 648 x00) with (replicate 4 x00 ++ replicate 644 x00).
    rewrite !lookup_app_r by (cbn; lia). done. }
  split; [by split |].
  exact (parse_reads_records_only one_record_buffer relabelled_buffer H1 H2).
Defined.

(** ** What saving changes in the buffer *)

Section SaveFrame.

Variable int_of_str : pystr → result Z.

Lemma lookup_splice_outside (d : bytes) (a : nat) (bs : bytes) (p : nat) :
  (a + length bs <= length d)%nat → (p < a ∨ a + length bs <= p)%nat →
  splice d a bs !! p = d !! p.
Proof.
  intros Hin [Hp | Hp]; unfold splice.
  - rewrite lookup_app_l by (rewrite length_take; lia).
    by rewrite lookup_take_lt.
  - rewrite lookup_app_r by (rewrite length_take; lia).
    rewrite lookup_app_r by (rewrite length_take; lia).
    rewrite lookup_drop, length_take. f_equal. lia.
Qed.

(** A field that lies inside the buffer is written over its own bytes. *)
Lemma encode_field_splice (d : bytes) (oo : Z) (k : string) (t : ftype)
    (L : option Z) (v : value) (d' : bytes) :
  0 <= oo → 0 < width t L → oo + width t L <= len d →
  encode_field int_of_str d oo k t L v = Ok d' →
  ∃ bs, length bs = Z.to_nat (width t L) ∧ d' = splice d (Z.to_nat oo) bs.
Proof.
  intros H0 Hw H1. unfold encode_field.
  rewrite (proj2 (Z.leb_gt _ _)) by lia.
  destruct t; cbn [width] in *.
  - destruct (py_int int_of_str v) as [z | e]; [| done]. cbn.
    unfold write_u32_le. intros H.
    destruct (pack_into4_Ok _ _ _ _ H) as (i & bs & Hi & Hp & ->).
    rewrite struct_offset_in in Hi by lia. injection Hi as <-.
    exists bs. unfold pack_I in Hp.
    destruct (_ && _); [| done]. injection Hp as <-.
    split; [done |]. unfold splice. done.
  - destruct (py_int int_of_str v) as [z | e]; [| done]. cbn.
    unfold write_i32_le. intros H.
    destruct (pack_into4_Ok _ _ _ _ H) as (i & bs & Hi & Hp & ->).
    rewrite struct_offset_in in Hi by lia. injection Hi as <-.
    exists bs. unfold pack_i in Hp.
    destruct (_ && _); [| done]. injection Hp as <-.
    split; [done |]. unfold splice. done.
  - destruct (String.eqb k "show_in_shop").
    + rewrite write_u8_in by lia. intros [= <-]. eexists. split; [| reflexivity]. reflexivity.
    + destruct (py_int int_of_str v) as [z | e]; [| done]. cbn.
      rewrite write_u8_in by lia. intros [= <-]. eexists. split; [| reflexivity]. reflexivity.
  - destruct L as [n |]; [| done]. cbn [from_option] in *. unfold id in *.
    intros [= <-]. rewrite write_str_in by lia. eexists. split; [| done].
    apply length_fixed_field. lia.
Qed.

Lemma encode_field_frame (d : bytes) (oo : Z) (k : string) (t : ftype)
    (L : option Z) (v : value) (d' : bytes) :
  0 <= oo → 0 < width t L → oo + width t L <= len d →
  encode_field int_of_str d oo k t L v = Ok d' →
  len d' = len d ∧
  ∀ p : nat, Z.of_nat p < oo ∨ oo + width t L <= Z.of_nat p →
             d' !! p = d !! p.
Proof.
  intros H0 Hw H1 H.
  destruct (encode_field_splice d oo k t L v d' H0 Hw H1 H) as (bs & Hbs & ->).
  unfold len in *. split.
  - rewrite length_splice; [done | lia].
  - intros p Hp. apply lookup_splice_outside; lia.
Qed.

Lemma save_fields_frame (d : bytes) (base : Z) (rdata : gmap string value)
    (m : list (string * fieldspec)) (d' : bytes) (res : result unit) :
  Forall (λ '(k, (o, t, L)),
            0 <= base + o ∧ 0 < width t L ∧ base + o + width t L <= len d) m →
  save_fields int_of_str d base rdata m = (d', res) →
  len d' = len d ∧
  ∀ p : nat,
    Forall (λ '(k, (o, t, L)),
              Z.of_nat p < base + o ∨ base + o + width t L <= Z.of_nat p) m →
    d' !! p = d !! p.
Proof.
  revert d. induction m as [| [k [[o t] L]] m IH]; intros d Hin H.
  - injection H as <- _. done.
  - apply Forall_cons in Hin as [(H0 & Hw & H1) Hin]. cbn [save_fields] in H.
    destruct (rdata !! k) as [v |].
    + destruct (encode_field int_of_str d (base + o) k t L v) as [d1 | e] eqn:E.
      * destruct (encode_field_frame _ _ _ _ _ _ _ H0 Hw H1 E) as [Hl Hf].
        destruct (IH d1) as [Hl' Hf']; [by rewrite Hl | done |].
        split; [congruence |]. intros p Hp.
        apply Forall_cons in Hp as [Hp0 Hp].
        rewrite Hf' by done. by apply Hf.
      * injection H as <- _. done.
    + destruct (IH d Hin H) as [Hl Hf]. split; [done |]. intros p Hp.
      apply Forall_cons in Hp as [_ Hp]. by apply Hf.
Qed.

Lemma save_records_frame (d : bytes) (recs : list Rec) (d' : bytes)
    (res : result unit) :
  (∀ r k o t L, r ∈ recs → (k, (o, t, L)) ∈ map_of (type r) →
     0 <= raw_off r + o ∧ raw_off r + o + width t L <= len d) →
  save_records int_of_str d recs = (d', res) →
  len d' = len d ∧ ∀ p : nat, outside_fields recs p → d' !! p = d !! p.
Proof.
  revert d. induction recs as [| r recs IH]; intros d Hin H.
  - injection H as <- _. done.
  - cbn [save_records] in H.
    destruct (save_fields int_of_str d (raw_off r) (data r) (map_of (type r)))
      as [d1 res1] eqn:E.
    destruct (save_fields_frame _ _ _ _ _ _ 
                ltac:(apply Forall_forall; intros [k [[o t] L]] He;
                      destruct (Hin r k o t L ltac:(left) He) as [? ?];
                      pose proof (field_fits _ k o t L He) as (_ & ? & _);
                      done) E) as [Hl Hf].
    assert (Hhead : ∀ p, outside_fields (r :: recs) p → d1 !! p = d !! p).
    { intros p Hp. apply Hf. apply Forall_forall. intros [k [[o t] L]] He.
      apply (Hp r k o t L); [left | done]. }
    destruct res1 as [[] | e].
    + destruct (IH d1) as [Hl' Hf']; [| done |].
      * intros r' k o t L Hr' He. rewrite Hl.
        apply (Hin r' k o t L); [by right | done].
      * split; [congruence |]. intros p Hp. rewrite Hf'.
        -- by apply Hhead.
        -- intros r' k o t L Hr' He. apply (Hp r' k o t L); [by right | done].
    + injection H as <- _. split; [done |]. apply Hhead.
Qed.

End SaveFrame.

(** X6. Whether it ends well or raises, the re-encoding loop of [save], on
    records whose fields all lie inside the buffer, keeps the length of the
    buffer and every byte that lies in no field of the records. *)
Theorem save_changes_fields_only (int_of_str : pystr → result Z) (d : bytes)
    (recs : list Rec) (d' : bytes) (res : result unit) :
  (∀ r k o t L, r ∈ recs → (k, (o, t, L)) ∈ map_of (type r) →
     0 <= raw_off r + o ∧ raw_off r + o + width t L <= len d) →
  save_records int_of_str d recs = (d', res) →
  len d' = len d ∧ ∀ p : nat, outside_fields recs p → d' !! p = d !! p.
Proof. apply save_records_frame. Qed.

Lemma save_changes_fields_only_witness :
  (∀ r k o t L, r ∈ [overflowing] → (k, (o, t, L)) ∈ map_of (type r) →
     0 <= raw_off r + o ∧ raw_off r + o + width t L <= len one_record_buffer) ∧
  ∃ d', save_records int_of_ascii one_record_buffer [overflowing]
        = (d', Raise RuntimeError) ∧
        d' !! 4%nat = Some x14 ∧
        len d' = len one_record_buffer ∧
        ∀ p : nat, outside_fields [overflowing] p →
                   d' !! p = one_record_buffer !! p.
Proof.
  assert (H1 : ∀ r k o t L, r ∈ [overflowing] →
            (k, (o, t, L)) ∈ map_of (type r) →
            0 <= raw_off r + o ∧
            raw_off r + o + width t L <= len one_record_buffer).
  { intros r k o t L Hr Hk. apply list_elem_of_singleton in Hr as ->.
    pose proof (field_fits _ k o t L Hk) as (Ho & _ & Hs & _).
    change (raw_off overflowing) with 4. change (type overflowing) with Normal in Hs.
    change (len one_record_buffer) with 648. change (size_of Normal) with 644 in Hs.
    lia. }
  split; [done |].
  exists (fst (save_records int_of_ascii one_record_buffer [overflowing])).
  assert (E : save_records int_of_ascii one_record_buffer [overflowing]
              = (fst (save_records int_of_ascii one_record_buffer [overflowing]),
                 Raise RuntimeError)) by (by vm_compute).
  split; [done |]. split; [by vm_compute |].
  exact (save_changes_fields_only int_of_ascii one_record_buffer [overflowing]
           _ _ H1 E).
Defined.

(** ** Saving the records of a loaded file *)

Lemma records_of_file_elem (d : bytes) (recs : list Rec) (r : Rec) :
  records_of_file d recs → r ∈ recs →
  ∃ r0, r0 ∈ _parse d ∧ type r = type r0 ∧ raw_off r = raw_off r0.
Proof.
  intros HF Hr. apply list_elem_of_lookup in Hr as [i Hi].
  destruct (Forall2_lookup_r _ _ _ _ _ HF Hi) as (r0 & H0 & Ht & Ho).
  exists r0. split; [| done]. by apply list_elem_of_lookup; exists i.
Qed.

Lemma records_of_file_in_buffer (d : bytes) (recs : list Rec) :
  records_of_file d recs →
  ∀ r k o t L, r ∈ recs → (k, (o, t, L)) ∈ map_of (type r) →
    (0 <= raw_off r + o ∧ raw_off r + o + width t L <= len d) ∧
    header <= raw_off r + o ∧
    raw_off r + o + width t L <= whole_records_end (len d).
Proof.
  intros HF r k o t L Hr Hk.
  destruct (records_of_file_elem d recs r HF Hr) as (r0 & H0 & Ht & Ho).
  rewrite Ht in Hk. rewrite Ho.
  destruct (parsed_field_in_buffer d r0 k o t L H0 Hk) as (Ha & Hb & _).
  split; [done |].
  apply elem_of_parse in H0 as (i & -> & Hi).
  rewrite type_parse_record in Hk. rewrite raw_off_parse_record.
  pose proof (field_fits _ k o t L Hk) as (Hge & _ & Hs & _).
  rewrite size_of_variant_detect in Hs.
  pose proof (detect_record_size_pos (len d)) as Hpos.
  unfold whole_records_end, header in *.
  set (size := detect_record_size (len d)) in *.
  set (count := (len d - 4) / size) in *.
  split; nia.
Qed.

Section SaveLoaded.

Variable int_of_str : pystr → result Z.

Lemma encode_field_encodable (d : bytes) (base : Z)
    (rdata : gmap string value) (k : string) (o : Z) (t : ftype)
    (L : option Z) (v : value) :
  encodable (len d) base rdata (k, (o, t, L)) → rdata !! k = Some v →
  ∃ d', encode_field int_of_str d (base + o) k t L v = Ok d'.
Proof.
  unfold encodable. intros (H0 & Hw & H1 & Hv) Hk. rewrite Hk in Hv.
  unfold encode_field. rewrite (proj2 (Z.leb_gt _ _)) by lia.
  destruct t; cbn [width] in *.
  - destruct Hv as (z & -> & Hz). destruct (unpack_pack_I z Hz) as [Hp _].
    cbn. unfold write_u32_le. rewrite Hp, pack_into4_in by (done || lia).
    by eexists.
  - destruct Hv as (z & -> & Hz). destruct (unpack_pack_i z Hz) as [Hp _].
    cbn. unfold write_i32_le. rewrite Hp, pack_into4_in by (done || lia).
    by eexists.
  - destruct Hv as [-> | (z & ->)].
    + cbn. rewrite write_u8_in by lia. by eexists.
    + destruct (String.eqb k "show_in_shop"); cbn;
        rewrite write_u8_in by lia; by eexists.
  - destruct Hv as [n ->]. by eexists.
Qed.

Lemma save_fields_encodable (d : bytes) (base : Z)
    (rdata : gmap string value) (m : list (string * fieldspec)) :
  Forall (encodable (len d) base rdata) m →
  ∃ d', save_fields int_of_str d base rdata m = (d', Ok tt) ∧ len d' = len d.
Proof.
  revert d. induction m as [| [k [[o t] L]] m IH]; intros d Hm.
  - by exists d.
  - apply Forall_cons in Hm as [He Hm]. cbn [save_fields].
    destruct (rdata !! k) as [v |] eqn:Hk; [| by apply IH].
    destruct (encode_field_encodable d base rdata k o t L v He Hk) as [d1 E].
    rewrite E. destruct He as (H0 & Hw & H1 & _).
    destruct (encode_field_frame int_of_str _ _ _ _ _ _ _ H0 Hw H1 E) as [Hl _].
    destruct (IH d1) as (d2 & E2 & Hl2); [by rewrite Hl |].
    exists d2. split; [done | congruence].
Qed.

Lemma save_records_encodable (d : bytes) (recs : list Rec) :
  Forall (λ r, Forall (encodable (len d) (raw_off r) (data r))
                      (map_of (type r))) recs →
  ∃ d', save_records int_of_str d recs = (d', Ok tt) ∧ len d' = len d.
Proof.
  revert d. induction recs as [| r recs IH]; intros d Hr.
  - by exists d.
  - apply Forall_cons in Hr as [Hm Hr]. cbn [save_records].
    destruct (save_fields_encodable d _ _ _ Hm) as (d1 & E & Hl). rewrite E.
    destruct (IH d1) as (d2 & E2 & Hl2); [by rewrite Hl |].
    exists d2. split; [done | congruence].
Qed.

Lemma parsed_records_encodable (d : bytes) :
  Forall (λ r, Forall (encodable (len d) (raw_off r) (data r))
                      (map_of (type r))) (_parse d).
Proof.
  apply Forall_forall. intros r Hr. apply Forall_forall.
  intros [k [[o t] L]] Hk. unfold encodable.
  destruct (parsed_field_in_buffer d r k o t L Hr Hk) as (H0 & H1 & _).
  pose proof (field_fits _ k o t L Hk) as (_ & Hw & _ & HL).
  pose proof (parsed_field_value d r k o t L Hr Hk) as Hv.
  repeat split; [done .. |].
  destruct t.
  - destruct Hv as (z & -> & Hz). by exists z.
  - destruct Hv as (z & -> & Hz). by exists z.
  - destruct Hv as (z & -> & Hz). right. by exists z.
  - destruct Hv as (s & ->). destruct (HL eq_refl) as (n & -> & _). by eexists.
Qed.

End SaveLoaded.

(** X7. Whatever the editor has left in the dictionaries of the records of
    a loaded file, and whether the re-encoding loop of [save] ends well or
    raises, the buffer keeps its length, its four header bytes and the bytes
    after the last whole record. *)
Theorem save_keeps_header_and_tail (int_of_str : pystr → result Z)
    (d : bytes) (recs : list Rec) (d' : bytes) (res : result unit) :
  records_of_file d recs →
  save_records int_of_str d recs = (d', res) →
  len d' = len d ∧ take 4 d' = take 4 d ∧
  drop (Z.to_nat (whole_records_end (len d))) d'
  = drop (Z.to_nat (whole_records_end (len d))) d.
Proof.
  intros HF H. pose proof (records_of_file_in_buffer d recs HF) as Hin.
  destruct (save_records_frame int_of_str d recs d' res) as [Hl Hf];
    [intros r k o t L Hr Hk; by destruct (Hin r k o t L Hr Hk) | done |].
  split; [done |]. split; apply list_eq; intros i.
  - destruct (decide (i < 4)%nat) as [Hi | Hi].
    + rewrite !lookup_take_lt by done. apply Hf.
      intros r k o t L Hr Hk. destruct (Hin r k o t L Hr Hk) as (_ & Hh & _).
      unfold header in Hh. lia.
    + by rewrite !lookup_take_ge by lia.
  - rewrite !lookup_drop. apply Hf.
    intros r k o t L Hr Hk. destruct (Hin r k o t L Hr Hk) as (_ & _ & He).
    lia.
Qed.

Lemma save_keeps_header_and_tail_witness :
  records_of_file one_record_buffer [overflowing] ∧
  ∃ d', save_records int_of_ascii one_record_buffer [overflowing]
        = (d', Raise RuntimeError) ∧
        len d' = len one_record_buffer ∧
        take 4 d' = take 4 one_record_buffer ∧
        drop (Z.to_nat (whole_records_end (len one_record_buffer))) d'
        = drop (Z.to_nat (whole_records_end (len one_record_buffer)))
               one_record_buffer.
Proof.
  assert (H1 : records_of_file one_record_buffer [overflowing]).
  { unfold records_of_file.
    assert (E : _parse one_record_buffer = [hero_file_record]) by (by vm_compute).
    rewrite E. by repeat constructor. }
  split; [done |].
  exists (fst (save_records int_of_ascii one_record_buffer [overflowing])).
  assert (E : save_records int_of_ascii one_record_buffer [overflowing]
              = (fst (save_records int_of_ascii one_record_buffer [overflowing]),
                 Raise RuntimeError)) by (by vm_compute).
  split; [done |].
  exact (save_keeps_header_and_tail int_of_ascii one_record_buffer
           [overflowing] _ _ H1 E).
Defined.

(** X8. Saving a file right after loading it never fails in the
    re-encoding loop: when the output file can be written, [save] returns,
    the records are as loaded and the file written has the length of the
    file read. *)
Theorem save_after_load (int_of_str : pystr → result Z) (fs : filesystem)
    (p : string) (content : bytes) (q : option string) (out : string) :
  out_path (load p content) q = Some out →
  check_writable fs out = Ok tt →
  out ∉ blocked fs →
  ∃ d', save int_of_str fs (load p content) q
        = (Ok tt, mkModel (Some p) d' (_parse content),
           mkFs (<[out := (Writable, d')]> (files fs)) (blocked fs)) ∧
        len d' = len content.
Proof.
  intros Hout Hw Hb.
  destruct (save_records_encodable int_of_str content (_parse content)
              (parsed_records_encodable content)) as (d' & E & Hl).
  exists d'. split; [| done]. unfold save. rewrite Hout, Hw.
  cbn [load buffer records path]. rewrite E.
  unfold write_file. unfold check_writable in Hw.
  destruct (files fs !! out) as [[[] c] |]; try done.
  by rewrite bool_decide_false.
Qed.

Lemma save_after_load_witness :
  (out_path (load "avatar.dat" flags_buffer) None = Some "avatar.dat"%string ∧
   check_writable (mkFs ∅ ∅) "avatar.dat" = Ok tt ∧
   "avatar.dat"%string ∉ blocked (mkFs ∅ ∅)) ∧
  ∃ d', save int_of_ascii (mkFs ∅ ∅) (load "avatar.dat" flags_buffer) None
        = (Ok tt, mkModel (Some "avatar.dat"%string) d' (_parse flags_buffer),
           mkFs (<["avatar.dat"%string := (Writable, d')]> ∅) ∅) ∧
        len d' = len flags_buffer.
Proof.
  assert (H1 : out_path (load "avatar.dat" flags_buffer) None
               = Some "avatar.dat"%string) by done.
  assert (H2 : check_writable (mkFs ∅ ∅) "avatar.dat" = Ok tt) by done.
  assert (H3 : "avatar.dat"%string ∉ blocked (mkFs ∅ ∅))
    by (cbn; apply not_elem_of_empty).
  split; [done |].
  exact (save_after_load int_of_ascii (mkFs ∅ ∅) "avatar.dat" flags_buffer
           None "avatar.dat" H1 H2 H3).
Defined.

(** ** Values that [save] cannot write, and keys that it does not write *)

Section SaveValues.

Variable int_of_str : pystr → result Z.

Lemma encode_field_wide (d : bytes) (oo : Z) (k : string) (t : ftype)
    (L : option Z) (v : value) :
  t = U32 ∨ t = I32 →
  (∀ z, py_int int_of_str v = Ok z → ¬ int_range t z) →
  ∃ e, encode_field int_of_str d oo k t L v = Raise e.
Proof.
  intros Ht Hv. unfold encode_field.
  destruct (len d <=? oo); [by eexists |].
  destruct (py_int int_of_str v) as [z | e] eqn:E;
    [| destruct Ht as [-> | ->]; by eexists].
  specialize (Hv z eq_refl).
  destruct Ht as [-> | ->]; cbn [int_range] in Hv; cbn.
  - unfold write_u32_le, pack_into4, pack_I.
    destruct (struct_offset (len d) oo); [| by eexists]. cbn.
    destruct (Z.leb_spec 0 z); [| by eexists].
    destruct (Z.ltb_spec z (2 ^ 32)); [lia | by eexists].
  - unfold write_i32_le, pack_into4, pack_i.
    destruct (struct_offset (len d) oo); [| by eexists]. cbn.
    destruct (Z.leb_spec (- 2 ^ 31) z); [| by eexists].
    destruct (Z.ltb_spec z (2 ^ 31)); [lia | by eexists].
Qed.

Lemma save_fields_wide (d : bytes) (base : Z) (rdata : gmap string value)
    (m : list (string * fieldspec)) (k : string) (o : Z) (t : ftype)
    (L : option Z) (v : value) :
  (k, (o, t, L)) ∈ m → rdata !! k = Some v → t = U32 ∨ t = I32 →
  (∀ z, py_int int_of_str v = Ok z → ¬ int_range t z) →
  (save_fields int_of_str d base rdata m).2 = Raise RuntimeError.
Proof.
  intros Hk Hd Ht Hv. revert d.
  induction m as [| [k' [[o' t'] L']] m IH]; intros d.
  - by apply elem_of_nil in Hk.
  - cbn [save_fields]. apply elem_of_cons in Hk as [Hk | Hk].
    + injection Hk as <- <- <- <-. rewrite Hd.
      destruct (encode_field_wide d (base + o) k t L v Ht Hv) as [e ->]. done.
    + destruct (rdata !! k') as [v' |]; [| by apply IH].
      destruct (encode_field _ _ _ _ _ _ _); [by apply IH | done].
Qed.

Lemma save_records_wide (d : bytes) (recs : list Rec) (r : Rec) (k : string)
    (o : Z) (t : ftype) (L : option Z) (v : value) :
  r ∈ recs → (k, (o, t, L)) ∈ map_of (type r) → data r !! k = Some v →
  t = U32 ∨ t = I32 →
  (∀ z, py_int int_of_str v = Ok z → ¬ int_range t z) →
  (save_records int_of_str d recs).2 = Raise RuntimeError.
Proof.
  intros Hr Hk Hd Ht Hv. revert d.
  induction recs as [| r' recs IH]; intros d.
  - by apply elem_of_nil in Hr.
  - cbn [save_records]. apply elem_of_cons in Hr as [<- | Hr].
    + pose proof (save_fields_wide d (raw_off r) (data r) _ k o t L v
                    Hk Hd Ht Hv) as H.
      destruct (save_fields _ _ _ _ _) as [d1 [[] | e]]; cbn in H; [done |].
      by injection H as ->.
    + destruct (save_fields int_of_str d (raw_off r') (data r')
                  (map_of (type r'))) as [d1 [[] | e]] eqn:E.
      * by apply IH.
      * assert (H : (save_fields int_of_str d (raw_off r') (data r')
                       (map_of (type r'))).2 = Raise e) by (by rewrite E).
        clear E. revert H. generalize (map_of (type r')). intros m. revert d.
        induction m as [| [k' [[o' t'] L']] m IHm]; intros d; [done |].
        cbn [save_fields]. destruct (data r' !! k') as [v' |]; [| apply IHm].
        destruct (encode_field _ _ _ _ _ _ _); [apply IHm |].
        cbn. by intros [= <-].
Qed.

Lemma save_fields_agree (d : bytes) (base : Z)
    (rdata rdata' : gmap string value) (m : list (string * fieldspec)) :
  (∀ k, k ∈ m.*1 → rdata !! k = rdata' !! k) →
  save_fields int_of_str d base rdata m
  = save_fields int_of_str d base rdata' m.
Proof.
  revert d. induction m as [| [k [[o t] L]] m IH]; intros d H; [done |].
  cbn [save_fields]. rewrite <- (H k) by (cbn; left).
  destruct (rdata !! k) as [v |].
  - destruct (encode_field _ _ _ _ _ _ _); [| done].
    apply IH. intros k' Hk'. apply H. cbn. by right.
  - apply IH. intros k' Hk'. apply H. cbn. by right.
Qed.

Lemma save_records_agree (d : bytes) (recs recs' : list Rec) :
  Forall2 agree_on_layout recs recs' →
  save_records int_of_str d recs = save_records int_of_str d recs'.
Proof.
  intros H. revert d. induction H as [| r r' recs recs' (Ht & Ho & Hd) _ IH];
    intros d; [done |].
  cbn [save_records]. rewrite <- Ht, <- Ho.
  rewrite (save_fields_agree d (raw_off r) (data r) (data r') _ Hd).
  destruct (save_fields _ _ _ _ _) as [d1 [[] | e]]; [apply IH | done].
Qed.

End SaveValues.

(** X9. [save] does not write a record one of whose 32-bit fields holds a
    value that [int] refuses or turns into an integer outside the range of
    the field: it raises and leaves every file as it is, whatever the
    output path. *)
Theorem save_refuses_wide_integer (int_of_str : pystr → result Z)
    (fs : filesystem) (self : DATModel) (p : option string) (r : Rec)
    (k : string) (o : Z) (t : ftype) (L : option Z) (v : value) :
  r ∈ records self → (k, (o, t, L)) ∈ map_of (type r) →
  data r !! k = Some v → t = U32 ∨ t = I32 →
  (∀ z, py_int int_of_str v = Ok z → ¬ int_range t z) →
  ∃ e self', save int_of_str fs self p = (Raise e, self', fs) ∧
             records self' = records self.
Proof.
  intros Hr Hk Hd Ht Hv. unfold save.
  destruct (out_path self p) as [out |]; [| by eexists _, _].
  destruct (check_writable fs out) as [[] | []]; try by eexists _, _.
  pose proof (save_records_wide int_of_str (buffer self) (records self)
                r k o t L v Hr Hk Hd Ht Hv) as H.
  destruct (save_records _ _ _) as [d res]. cbn in H. subst res.
  by eexists _, _.
Qed.

Lemma save_refuses_wide_integer_witness :
  (overflowing ∈ [overflowing] ∧
   ("defense"%string, (112, I32, None)) ∈ map_of (type overflowing) ∧
   data overflowing !! "defense"%string = Some (VInt (2 ^ 31)) ∧
   (∀ z, py_int int_of_ascii (VInt (2 ^ 31)) = Ok z → ¬ int_range I32 z)) ∧
  ∃ e self',
    save int_of_ascii (mkFs ∅ ∅)
         (mkModel (Some "avatar.dat"%string) one_record_buffer [overflowing])
         None
    = (Raise e, self', mkFs ∅ ∅) ∧
    records self' = [overflowing].
Proof.
  assert (H1 : overflowing ∈ [overflowing]) by left.
  assert (H2 : ("defense"%string, (112, I32, None : option Z))
               ∈ map_of (type overflowing)).
  { apply (spec_of_Some _ _ _ (map_of_NoDup _)). by vm_compute. }
  assert (H3 : data overflowing !! "defense"%string = Some (VInt (2 ^ 31)))
    by (by vm_compute).
  assert (H4 : ∀ z, py_int int_of_ascii (VInt (2 ^ 31)) = Ok z →
               ¬ int_range I32 z).
  { intros z [= <-]. cbn [int_range]. lia. }
  split; [done |].
  exact (save_refuses_wide_integer int_of_ascii (mkFs ∅ ∅)
           (mkModel (Some "avatar.dat"%string) one_record_buffer [overflowing])
           None overflowing "defense" 112 I32 None (VInt (2 ^ 31))
           H1 H2 H3 (or_intror eq_refl) H4).
Defined.

(** X10. [save] writes the keys of the layout of each record and no other:
    two lists of records that agree on those keys, record by record, leave
    the same buffer and the same result. *)
Theorem save_ignores_other_keys (int_of_str : pystr → result Z) (d : bytes)
    (recs recs' : list Rec) :
  Forall2 agree_on_layout recs recs' →
  save_records int_of_str d recs = save_records int_of_str d recs'.
Proof. apply save_records_agree. Qed.

Lemma save_ignores_other_keys_witness :
  Forall2 agree_on_layout [hero_file_record] [numbered] ∧
  data numbered ≠ data hero_file_record ∧
  save_records int_of_ascii one_record_buffer [hero_file_record]
  = save_records int_of_ascii one_record_buffer [numbered].
Proof.
  assert (H1 : Forall2 agree_on_layout [hero_file_record] [numbered]).
  { repeat constructor. intros k Hk. unfold numbered, set_field. cbn [data].
    rewrite lookup_insert_ne; [done |]. intros <-.
    apply (spec_of_None (map_of (type hero_file_record))) in Hk; [done |].
    by vm_compute. }
  split; [done |]. split.
  - intros E. apply (f_equal (λ m, m !! "ex_number"%string)) in E.
    by vm_compute in E.
  - exact (save_ignores_other_keys int_of_ascii one_record_buffer
             [hero_file_record] [numbered] H1).
Defined.

(** ** The batch edit: all rows or none *)

Section Batch.

Variable int_of_str : pystr → result Z.

(** A dialog for one row means that the value is refused for every row. *)
Lemma apply_batch_row_refused (field : string) (vtxt : pystr)
    (rec rec' : Rec) (n : notice) :
  apply_batch_row int_of_str field vtxt rec = Ok (rec', n) → n ≠ Silent →
  ∀ rec2 rec2' n2,
    apply_batch_row int_of_str field vtxt rec2 = Ok (rec2', n2) → rec2' = rec2.
Proof.
  unfold apply_batch_row, edit_show_in_shop. intros H Hn rec2 rec2' n2 H2.
  destruct (is_stat_field field && bool_decide (type rec = ExItem));
    [by injection H as <- <- |].
  destruct (is_stat_field field && bool_decide (type rec2 = ExItem));
    [by injection H2 as <- <- |].
  destruct (String.eqb field "name").
  { destruct (utf8_encode_strict vtxt) as [raw | e]; [| done]. cbn in *.
    destruct (19 <? len raw); [by injection H2 as <- <- |].
    by injection H as <- <-. }
  destruct (String.eqb field "show_in_shop").
  { destruct (int_of_str vtxt) as [val | e]; [| by injection H2 as <- <-].
    destruct ((val =? 0) || (val =? 1)); [| by injection H2 as <- <-].
    by injection H as <- <-. }
  destruct (int_of_str vtxt) as [val | e]; [| by injection H2 as <- <-].
  by injection H as <- <-.
Qed.

Lemma apply_batch_rows_refused (field : string) (vtxt : pystr)
    (sels : list Z) (recs recs' : list Rec) (msgs : list string) :
  (∀ rec rec' n,
     apply_batch_row int_of_str field vtxt rec = Ok (rec', n) → rec' = rec) →
  apply_batch_rows int_of_str field vtxt recs sels = Ok (recs', msgs) →
  recs' = recs.
Proof.
  intros Href. revert recs recs' msgs.
  induction sels as [| idx rest IH]; intros recs recs' msgs H;
    cbn [apply_batch_rows] in H.
  - by injection H as <- _.
  - destruct (py_index (len recs) idx) as [i |]; [| done].
    destruct (recs !! i) as [rec |] eqn:Hi; [| done].
    destruct (apply_batch_row int_of_str field vtxt rec) as [[rec' n] | e] eqn:E;
      [| done].
    apply Href in E as ->. cbn [mbind result_bind] in H.
    rewrite list_insert_id in H by done.
    destruct n as [| msg | msg].
    + by apply IH in H.
    + destruct (apply_batch_rows int_of_str field vtxt recs rest)
        as [[recs2 msgs2] | e] eqn:E2; [| done].
      cbn in H. injection H as <- _. by apply IH in E2.
    + by injection H as <- _.
Qed.

Lemma apply_batch_rows_dialog (field : string) (vtxt : pystr)
    (sels : list Z) (recs recs' : list Rec) (msgs : list string) :
  apply_batch_rows int_of_str field vtxt recs sels = Ok (recs', msgs) →
  msgs ≠ [] →
  ∀ rec rec' n,
    apply_batch_row int_of_str field vtxt rec = Ok (rec', n) → rec' = rec.
Proof.
  revert recs recs' msgs.
  induction sels as [| idx rest IH]; intros recs recs' msgs H Hm;
    cbn [apply_batch_rows] in H.
  - by injection H as _ <-.
  - destruct (py_index (len recs) idx) as [i |]; [| done].
    destruct (recs !! i) as [rec |] eqn:Hi; [| done].
    destruct (apply_batch_row int_of_str field vtxt rec) as [[rec' n] | e] eqn:E;
      [| done].
    cbn [mbind result_bind] in H. destruct n as [| msg | msg].
    + by apply (IH _ _ _ H).
    + by apply (apply_batch_row_refused _ _ _ _ _ E).
    + by apply (apply_batch_row_refused _ _ _ _ _ E).
Qed.

End Batch.

(** X11. A batch edit that shows any dialog changes no record: a value that
    is refused for one selected row has been applied to none of the rows
    before it and is applied to none after it. *)
Theorem batch_edit_all_or_nothing (int_of_str : pystr → result Z)
    (field : string) (vtxt : pystr) (recs : list Rec) (sels : list Z)
    (recs' : list Rec) (msgs : list string) :
  apply_batch int_of_str field vtxt recs sels = Ok (recs', msgs) →
  msgs ≠ [] → recs' = recs.
Proof.
  unfold apply_batch. intros H Hm.
  destruct (String.eqb field EmptyString); [by injection H as <- _ |].
  destruct vtxt as [| c vtxt]; [by injection H as <- _ |].
  destruct sels as [| idx rest]; [by injection H as <- _ |].
  apply (apply_batch_rows_refused int_of_str field (c :: vtxt) (idx :: rest)
           recs recs' msgs); [| done].
  by apply (apply_batch_rows_dialog int_of_str field (c :: vtxt) (idx :: rest)
              recs recs' msgs).
Qed.

Lemma batch_edit_all_or_nothing_witness :
  (apply_batch int_of_ascii "attack" (lit "five")
     [exitem_sample; hero; hero_file_record] [0; 1; 2]
   = Ok ([exitem_sample; hero; hero_file_record],
         ["attack harus angka"%string]) ∧
   ["attack harus angka"%string] ≠ []) ∧
  [exitem_sample; hero; hero_file_record]
  = [exitem_sample; hero; hero_file_record].
Proof.
  assert (H1 : apply_batch int_of_ascii "attack" (lit "five")
                 [exitem_sample; hero; hero_file_record] [0; 1; 2]
               = Ok ([exitem_sample; hero; hero_file_record],
                     ["attack harus angka"%string])) by (by vm_compute).
  assert (H2 : ["attack harus angka"%string] ≠ []) by done.
  split; [exact (conj H1 H2) |].
  exact (batch_edit_all_or_nothing int_of_ascii "attack" (lit "five")
           [exitem_sample; hero; hero_file_record] [0; 1; 2] _ _ H1 H2).
Defined.

(** ** What no edit changes *)

Lemma same_place_refl (r : Rec) : same_place r r.
Proof. by repeat split. Qed.

Lemma same_place_set_field (r : Rec) (k : string) (v : value) :
  same_place r (set_field r k v).
Proof.
  repeat split. cbn [set_field data]. rewrite dom_insert. set_solver.
Qed.

Lemma same_places_refl (recs : list Rec) : Forall2 same_place recs recs.
Proof. apply Forall_Forall2_diag, Forall_forall. intros r _. apply same_place_refl. Qed.

Lemma same_places_trans (l1 l2 l3 : list Rec) :
  Forall2 same_place l1 l2 → Forall2 same_place l2 l3 →
  Forall2 same_place l1 l3.
Proof.
  intros H1. revert l3. induction H1 as [| a b l1 l2 (Ha & Hb & Hc & Hd) _ IH];
    intros l3 H2; inversion H2 as [| b' c l2' l3' (Ha' & Hb' & Hc' & Hd') H2']; subst;
    constructor; [| by apply IH].
  repeat split; [congruence .. | set_solver].
Qed.

Lemma same_places_insert (recs : list Rec) (i : nat) (rec rec' : Rec) :
  recs !! i = Some rec → same_place rec rec' →
  Forall2 same_place recs (<[i := rec']> recs).
Proof.
  intros Hi H. rewrite <- (list_insert_id recs i rec Hi) at 1.
  apply Forall2_insert; [apply same_places_refl | done].
Qed.

Section EditSteps.

Variable int_of_str : pystr → result Z.

Lemma finish_same_place (column : string) (newv : pystr) (rec rec' : Rec)
    (n : notice) :
  finish int_of_str column newv rec = Ok (rec', n) → same_place rec rec'.
Proof.
  unfold finish, edit_show_in_shop. intros H.
  repeat match type of H with
         | context [if ?b then _ else _] => destruct b
         | context [mbind _ ?r] => destruct r; cbn [mbind result_bind] in H
         | context [match ?r with Ok _ => _ | Raise _ => _ end] => destruct r
         end;
    try done; injection H as <- <-;
    apply same_place_refl || apply same_place_set_field.
Qed.

Lemma apply_batch_row_same_place (field : string) (vtxt : pystr)
    (rec rec' : Rec) (n : notice) :
  apply_batch_row int_of_str field vtxt rec = Ok (rec', n) →
  same_place rec rec'.
Proof.
  unfold apply_batch_row, edit_show_in_shop. intros H.
  repeat match type of H with
         | context [if ?b then _ else _] => destruct b
         | context [mbind _ ?r] => destruct r; cbn [mbind result_bind] in H
         | context [match ?r with Ok _ => _ | Raise _ => _ end] => destruct r
         end;
    try done; injection H as <- <-;
    apply same_place_refl || apply same_place_set_field.
Qed.

Lemma apply_batch_rows_same_places (field : string) (vtxt : pystr)
    (sels : list Z) (recs recs' : list Rec) (msgs : list string) :
  apply_batch_rows int_of_str field vtxt recs sels = Ok (recs', msgs) →
  Forall2 same_place recs recs'.
Proof.
  revert recs recs' msgs.
  induction sels as [| idx rest IH]; intros recs recs' msgs H;
    cbn [apply_batch_rows] in H.
  - injection H as <- _. apply same_places_refl.
  - destruct (py_index (len recs) idx) as [i |]; [| done].
    destruct (recs !! i) as [rec |] eqn:Hi; [| done].
    destruct (apply_batch_row int_of_str field vtxt rec) as [[rec' n] | e] eqn:E;
      [| done].
    cbn [mbind result_bind] in H.
    pose proof (same_places_insert recs i rec rec' Hi
                  (apply_batch_row_same_place _ _ _ _ _ E)) as Hstep.
    destruct n as [| msg | msg].
    + eapply same_places_trans; [done | by eapply IH].
    + destruct (apply_batch_rows int_of_str field vtxt (<[i:=rec']> recs) rest)
        as [[recs2 msgs2] | e] eqn:E2; [| done].
      cbn in H. injection H as <- _.
      eapply same_places_trans; [done | by eapply IH].
    + by injection H as <- _.
Qed.

Lemma change_image_rows_same_places (newval : Z) (sels : list Z)
    (recs recs' : list Rec) :
  change_image_rows newval recs sels = Ok recs' →
  Forall2 same_place recs recs'.
Proof.
  revert recs recs'.
  induction sels as [| idx rest IH]; intros recs recs' H;
    cbn [change_image_rows] in H.
  - injection H as <-. apply same_places_refl.
  - destruct (py_index (len recs) idx) as [i |]; [| done].
    destruct (recs !! i) as [rec |] eqn:Hi; [| done].
    eapply same_places_trans; [| by eapply IH].
    apply (same_places_insert recs i rec); [done |].
    unfold change_image_row. destruct (bool_decide _); apply same_place_set_field.
Qed.

Lemma edit_step_same_places (recs recs' : list Rec) :
  edit_step int_of_str recs recs' → Forall2 same_place recs recs'.
Proof.
  intros [column newv l i rec rec' n Hi H
         | field vtxt l sels l' msgs H
         | txt l sels l' msgs H].
  - apply (same_places_insert l i rec); [done |].
    by apply (finish_same_place column newv rec rec' n).
  - unfold apply_batch in H.
    destruct (String.eqb field EmptyString);
      [injection H as <- _; apply same_places_refl |].
    destruct vtxt as [| c vtxt]; [injection H as <- _; apply same_places_refl |].
    destruct sels as [| idx rest]; [injection H as <- _; apply same_places_refl |].
    by apply (apply_batch_rows_same_places field (c :: vtxt) (idx :: rest) l l' msgs).
  - unfold on_change_image_number in H.
    destruct sels as [| idx rest]; [injection H as <- _; apply same_places_refl |].
    destruct (int_of_str txt) as [newval | e];
      [| injection H as <- _; apply same_places_refl].
    destruct (change_image_rows newval l (idx :: rest)) as [l2 | e] eqn:E;
      [| done].
    cbn in H. injection H as <- _.
    by apply (change_image_rows_same_places newval (idx :: rest)).
Qed.

End EditSteps.

(** X12. No sequence of cell edits, batch edits and changes of the image
    number adds, removes or moves a record: every record keeps its index,
    its variant, its place in the file and the keys it had, so the records
    stay those of the file they were loaded from. *)
Theorem edits_keep_the_layout (int_of_str : pystr → result Z)
    (recs recs' : list Rec) :
  rtc (edit_step int_of_str) recs recs' →
  Forall2 same_place recs recs' ∧
  ∀ d, records_of_file d recs → records_of_file d recs'.
Proof.
  intros H.
  assert (HS : Forall2 same_place recs recs').
  { induction H as [l | l1 l2 l3 Hstep _ IH]; [apply same_places_refl |].
    eapply same_places_trans; [| done].
    by apply (edit_step_same_places int_of_str). }
  split; [done |]. unfold records_of_file. intros d Hd.
  clear H. revert recs' HS.
  induction Hd as [| r0 r l0 l [Ht Ho] _ IH]; intros recs' HS;
    inversion HS as [| r1 r' l1 l' (_ & Ht' & Ho' & _) HS']; subst;
    constructor; [split; congruence | by apply IH].
Qed.

Lemma edits_keep_the_layout_witness :
  rtc (edit_step int_of_ascii) [hero_file_record; exitem_sample]
      [set_field hero_file_record "image_number" (VInt 3);
       set_field (set_field exitem_sample "ex_number" (VInt 3))
                 "name" (VStr (lit "Hat"))] ∧
  Forall2 same_place [hero_file_record; exitem_sample]
      [set_field hero_file_record "image_number" (VInt 3);
       set_field (set_field exitem_sample "ex_number" (VInt 3))
                 "name" (VStr (lit "Hat"))].
Proof.
  assert (H1 : on_change_image_number int_of_ascii (lit "3")
                 [hero_file_record; exitem_sample] [0; 1]
               = Ok ([set_field hero_file_record "image_number" (VInt 3);
                      set_field exitem_sample "ex_number" (VInt 3)], []))
    by (vm_compute; reflexivity).
  assert (H2 : finish int_of_ascii "name" (lit "Hat")
                 (set_field exitem_sample "ex_number" (VInt 3))
               = Ok (set_field (set_field exitem_sample "ex_number" (VInt 3))
                       "name" (VStr (lit "Hat")), Silent))
    by (vm_compute; reflexivity).
  assert (H : rtc (edit_step int_of_ascii) [hero_file_record; exitem_sample]
                [set_field hero_file_record "image_number" (VInt 3);
                 set_field (set_field exitem_sample "ex_number" (VInt 3))
                           "name" (VStr (lit "Hat"))]).
  { apply (rtc_l _ _ _ _ (image_edit int_of_ascii _ _ _ _ _ H1)).
    apply rtc_once.
    exact (cell_edit int_of_ascii "name" (lit "Hat")
             [set_field hero_file_record "image_number" (VInt 3);
              set_field exitem_sample "ex_number" (VInt 3)] 1 _ _ Silent
             eq_refl H2). }
  split; [exact H |].
  exact (proj1 (edits_keep_the_layout int_of_ascii _ _ H)).
Defined.

(** ** Texts that the editor accepts *)

Lemma text_columns (T : rtype) (column : string) (o : Z) (L : option Z) :
  (column, (o, Str, L)) ∈ map_of T →
  (column = "name"%string ∧ L = Some 19) ∨
  (column = "description"%string ∧ L = Some 63).
Proof.
  intros H. destruct T; cbn [map_of] in H;
    unfold NORMAL_MAP, EXITEM_MAP in H;
    repeat (apply elem_of_cons in H as [H | H];
            [try discriminate H; injection H as -> _ ->; auto |]);
    by apply elem_of_nil in H.
Qed.

Lemma python_text_plain (s : pystr) :
  Forall (λ c, 0 < c <= 0x10FFFF) s → existsb is_surrogate s = false →
  plain_text s = true.
Proof.
  intros H Hs. apply plain_text_spec. split; [| done].
  induction H as [| c s Hc _ IH]; [done |].
  cbn [existsb forallb] in *. apply orb_false_elim in Hs as [Hc' Hs].
  rewrite IH by done. rewrite andb_true_r. apply is_scalar_spec.
  unfold is_surrogate in Hc'. lia.
Qed.

Section AcceptedText.

Variable int_of_str : pystr → result Z.

Lemma accepted_text_fits (column : string) (newv : pystr) (rec rec' : Rec)
    (o : Z) (L : option Z) :
  finish int_of_str column newv rec = Ok (rec', Silent) ∨
  column = "name"%string ∧
  apply_batch_row int_of_str column newv rec = Ok (rec', Silent) →
  (column, (o, Str, L)) ∈ map_of (type rec) →
  rec' = set_field rec column (VStr newv) ∧
  existsb is_surrogate newv = false ∧
  len (utf8_encode newv) <= default 0 L.
Proof.
  intros H Hk.
  assert (Hstat : is_stat_field column && bool_decide (type rec = ExItem)
                  = false).
  { by destruct (text_columns _ _ _ _ Hk) as [[-> _] | [-> _]]. }
  destruct (text_columns _ _ _ _ Hk) as [[-> ->] | [-> ->]];
    (destruct H as [H | [? H]]; [| try discriminate]);
    unfold finish, apply_batch_row in H; rewrite Hstat in H;
    cbn [String.eqb Ascii.eqb Bool.eqb] in H; unfold utf8_encode_strict in *;
    (destruct (existsb is_surrogate newv); [done |]);
    cbn [mbind result_bind from_option] in *; unfold id;
    match type of H with
    | context [?a <? ?b] => destruct (Z.ltb_spec a b); [done |]
    end;
    injection H as <-; done.
Qed.

End AcceptedText.

(** X13. A name or a description that the cell editor accepts, and a name
    that the batch edit accepts, fits its field: for a text with no NUL,
    [save] writes it in full and [_parse] reads the same text back from the
    bytes written. *)
Theorem accepted_text_is_read_back (int_of_str : pystr → result Z)
    (column : string) (newv : pystr) (rec rec' : Rec) (o : Z)
    (L : option Z) (d : bytes) :
  finish int_of_str column newv rec = Ok (rec', Silent) ∨
  column = "name"%string ∧
  apply_batch_row int_of_str column newv rec = Ok (rec', Silent) →
  (column, (o, Str, L)) ∈ map_of (type rec) →
  Forall (λ c, 0 < c <= 0x10FFFF) newv →
  0 <= raw_off rec + o → raw_off rec + o + width Str L <= len d →
  data rec' !! column = Some (VStr newv) ∧
  ∃ d', encode_field int_of_str d (raw_off rec' + o) column Str L (VStr newv)
        = Ok d' ∧
        parse_field d' (raw_off rec' + o) column Str L = VStr newv.
Proof.
  intros H Hk Hs H0 H1.
  destruct (accepted_text_fits int_of_str column newv rec rec' o L H Hk)
    as (-> & Hsur & Hfit).
  pose proof (field_fits _ column o Str L Hk) as (_ & Hw & _ & HL).
  destruct (HL eq_refl) as (n & -> & Hn). cbn [from_option] in Hfit.
  unfold id in Hfit. cbn [set_field data raw_off].
  split; [by rewrite lookup_insert_eq |].
  assert (Hv : valid_value column Str (Some n) (VStr newv) = true).
  { cbn [valid_value]. rewrite (python_text_plain newv Hs Hsur).
    by apply Z.leb_le. }
  rewrite (encode_field_valid int_of_str d _ column Str (Some n) (VStr newv)
             Hv H0 Hw H1).
  eexists. split; [done |].
  assert (Hf : length (field_bytes column Str (Some n) (VStr newv))
               = Z.to_nat n).
  { cbn [field_bytes from_option]. unfold id. apply length_fixed_field. lia. }
  cbn [width from_option] in *. unfold id in *.
  apply parse_field_valid; [done | done | done | |].
  - cbn [width from_option]. unfold id, len in *.
    rewrite length_splice; lia.
  - cbn [width from_option]. unfold id. rewrite <- Hf.
    apply slice_splice_same. unfold len in *. lia.
Qed.

Lemma accepted_text_is_read_back_witness :
  ((finish int_of_ascii "description" (lit "A red hat") hero_file_record
    = Ok (set_field hero_file_record "description" (VStr (lit "A red hat")),
          Silent) ∨
    "description"%string = "name"%string ∧
    apply_batch_row int_of_ascii "description" (lit "A red hat")
      hero_file_record
    = Ok (set_field hero_file_record "description" (VStr (lit "A red hat")),
          Silent)) ∧
   ("description"%string, (132, Str, Some 63))
     ∈ map_of (type hero_file_record) ∧
   Forall (λ c, 0 < c <= 0x10FFFF) (lit "A red hat") ∧
   0 <= raw_off hero_file_record + 132 ∧
   raw_off hero_file_record + 132 + width Str (Some 63)
   <= len one_record_buffer) ∧
  ∃ d', encode_field int_of_ascii one_record_buffer
          (raw_off (set_field hero_file_record "description"
                      (VStr (lit "A red hat"))) + 132)
          "description" Str (Some 63) (VStr (lit "A red hat")) = Ok d' ∧
        parse_field d'
          (raw_off (set_field hero_file_record "description"
                      (VStr (lit "A red hat"))) + 132)
          "description" Str (Some 63) = VStr (lit "A red hat").
Proof.
  assert (H1 : finish int_of_ascii "description" (lit "A red hat")
                 hero_file_record
               = Ok (set_field hero_file_record "description"
                       (VStr (lit "A red hat")), Silent)) by (by vm_compute).
  assert (H2 : ("description"%string, (132, Str, Some 63))
               ∈ map_of (type hero_file_record)).
  { apply (spec_of_Some _ _ _ (map_of_NoDup _)). by vm_compute. }
  assert (H3 : Forall (λ c, 0 < c <= 0x10FFFF) (lit "A red hat")).
  { assert (E : lit "A red hat" = [65; 32; 114; 101; 100; 32; 104; 97; 116])
      by (vm_compute; reflexivity).
    rewrite E. repeat (constructor; [lia |]). constructor. }
  assert (H4 : 0 <= raw_off hero_file_record + 132) by (by vm_compute).
  assert (H5 : raw_off hero_file_record + 132 + width Str (Some 63)
               <= len one_record_buffer) by (by vm_compute).
  split; [exact (conj (or_introl H1) (conj H2 (conj H3 (conj H4 H5)))) |].
  exact (proj2 (accepted_text_is_read_back int_of_ascii "description"
                  (lit "A red hat") hero_file_record _ 132 (Some 63)
                  one_record_buffer (or_introl H1) H2 H3 H4 H5)).
Defined.

(** ** What [read_str] returns *)

Lemma length_get_slice {A : Type} (l : list A) (start n : Z) :
  0 <= n → len (get_slice l start (start + n)) <= n.
Proof.
  intros Hn. unfold get_slice, slice_end, len. rewrite length_take, length_drop.
  destruct (Z.ltb_spec start 0), (Z.ltb_spec (start + n) 0); lia.
Qed.

Lemma before_nul_spec (bs : bytes) :
  Forall (λ b, b ≠ x00) (before_nul bs) ∧
  (length (before_nul bs) <= length bs)%nat.
Proof.
  induction bs as [| b bs [IH1 IH2]]; cbn [before_nul]; [by split |].
  destruct (Byte.eqb b x00) eqn:E; [split; [done | cbn; lia] |].
  split; [| cbn; lia]. constructor; [| done].
  intros ->. discriminate E.
Qed.

Lemma byte_to_Z_zero (b : byte) : byte_to_Z b = 0 → b = x00.
Proof.
  intros H. rewrite <- (byte_of_to_Z b), H. done.
Qed.

Lemma cont_in_range (lo hi : Z) (b : byte) (y : Z) :
  cont_in lo hi b = Some y → lo - 128 <= y <= hi - 128.
Proof.
  unfold cont_in. cbv zeta.
  destruct (Z.leb_spec lo (byte_to_Z b)), (Z.leb_spec (byte_to_Z b) hi);
    cbn [andb]; intros [= <-]; lia.
Qed.

(** What the strict decoder returns for bytes with no zero among them: as
    many code points as bytes at most, none of them 0, a surrogate or
    above U+10FFFF. *)
Lemma utf8_decode_plain (bs : bytes) (s : pystr) :
  utf8_decode bs = Some s → Forall (λ b, b ≠ x00) bs →
  plain_text s = true ∧ (length s <= length bs)%nat.
Proof.
  remember (length bs) as m eqn:Hm. revert bs s Hm.
  induction m as [m IH] using lt_wf_ind. intros bs s -> H Hnz.
  destruct bs as [| b0 r0]; [by injection H as <- |].
  apply Forall_cons in Hnz as [Hb0 Hnz].
  assert (Hx0 : 0 < byte_to_Z b0).
  { pose proof (byte_to_Z_range b0).
    destruct (decide (byte_to_Z b0 = 0)) as [E | E]; [| lia].
    by apply byte_to_Z_zero in E. }
  cbn [utf8_decode] in H. cbv zeta in H.
  assert (Hstep : ∀ (r : bytes) (c : Z) (t : pystr),
            (length r < length (b0 :: r0))%nat → Forall (λ b, b ≠ x00) r →
            utf8_decode r = Some t → is_scalar c = true → c ≠ 0 →
            plain_text (c :: t) = true ∧
            (length (c :: t) <= length (b0 :: r0))%nat).
  { intros r c t Hr Hrz Ht Hc Hc0.
    destruct (IH (length r) Hr r t eq_refl Ht Hrz) as [Hp Hl].
    split; [| cbn in *; lia]. cbn [plain_text forallb].
    fold (plain_text t). rewrite Hc, Hp.
    by destruct (Z.eqb_spec c 0). }
  destruct (Z.ltb_spec (byte_to_Z b0) 128).
  { destruct (utf8_decode r0) as [t |] eqn:Et; [| done]. injection H as <-.
    apply (Hstep r0); [cbn; lia | done | done | | lia].
    apply is_scalar_spec. lia. }
  destruct (Z.ltb_spec (byte_to_Z b0) 194); [done |].
  destruct (Z.ltb_spec (byte_to_Z b0) 224).
  { destruct r0 as [| b1 r1]; [done |].
    apply Forall_cons in Hnz as [_ Hnz].
    destruct (cont_in 128 191 b1) as [y1 |] eqn:E1; [| done].
    apply cont_in_range in E1. cbn [mbind option_bind] in H.
    destruct (utf8_decode r1) as [t |] eqn:Et; [| done]. injection H as <-.
    apply (Hstep r1); [cbn; lia | done | done | | lia].
    apply is_scalar_spec. lia. }
  destruct (Z.ltb_spec (byte_to_Z b0) 240).
  { destruct r0 as [| b1 [| b2 r2]]; [done | done |].
    apply Forall_cons in Hnz as [_ Hnz]. apply Forall_cons in Hnz as [_ Hnz].
    destruct (cont_in _ _ b1) as [y1 |] eqn:E1; [| done].
    apply cont_in_range in E1. cbn [mbind option_bind] in H.
    destruct (cont_in 128 191 b2) as [y2 |] eqn:E2; [| done].
    apply cont_in_range in E2. cbn [mbind option_bind] in H.
    destruct (utf8_decode r2) as [t |] eqn:Et; [| done]. injection H as <-.
    apply (Hstep r2); [cbn; lia | done | done | |];
      [apply is_scalar_spec |];
      destruct (Z.eqb_spec (byte_to_Z b0) 224),
               (Z.eqb_spec (byte_to_Z b0) 237); lia. }
  destruct (Z.ltb_spec (byte_to_Z b0) 245); [| done].
  destruct r0 as [| b1 [| b2 [| b3 r3]]]; [done | done | done |].
  apply Forall_cons in Hnz as [_ Hnz]. apply Forall_cons in Hnz as [_ Hnz].
  apply Forall_cons in Hnz as [_ Hnz].
  destruct (cont_in _ _ b1) as [y1 |] eqn:E1; [| done].
  apply cont_in_range in E1. cbn [mbind option_bind] in H.
  destruct (cont_in 128 191 b2) as [y2 |] eqn:E2; [| done].
  apply cont_in_range in E2. cbn [mbind option_bind] in H.
  destruct (cont_in 128 191 b3) as [y3 |] eqn:E3; [| done].
  apply cont_in_range in E3. cbn [mbind option_bind] in H.
  destruct (utf8_decode r3) as [t |] eqn:Et; [| done]. injection H as <-.
  apply (Hstep r3); [cbn; lia | done | done | |];
    [apply is_scalar_spec |];
    destruct (Z.eqb_spec (byte_to_Z b0) 240),
             (Z.eqb_spec (byte_to_Z b0) 244); lia.
Qed.

Lemma latin1_plain (bs : bytes) :
  Forall (λ b, b ≠ x00) bs → plain_text (map byte_to_Z bs) = true.
Proof.
  induction 1 as [| b bs Hb _ IH]; [done |].
  cbn [map plain_text forallb]. fold (plain_text (map byte_to_Z bs)).
  rewrite IH, andb_true_r. pose proof (byte_to_Z_range b).
  assert (byte_to_Z b ≠ 0) by (intros E; by apply byte_to_Z_zero in E).
  apply andb_true_intro. split.
  - apply is_scalar_spec. lia.
  - by destruct (Z.eqb_spec (byte_to_Z b) 0).
Qed.

Lemma decode_text_spec (bs : bytes) :
  Forall (λ b, b ≠ x00) bs →
  plain_text (decode_text bs) = true ∧
  (length (decode_text bs) <= length bs)%nat.
Proof.
  intros H. unfold decode_text.
  destruct (utf8_decode bs) as [s |] eqn:E.
  - by apply (utf8_decode_plain bs).
  - split; [by apply latin1_plain | by rewrite length_map].
Qed.

Lemma read_str_decode_text (d : bytes) (off n : Z) :
  read_str d off n = decode_text (before_nul (get_slice d off (off + n))).
Proof. done. Qed.

(** X14. Whatever the bytes, the offset and the length, [read_str] returns
    a text with no NUL in it and no code point that UTF-8 cannot encode;
    for a length that is not negative the text has at most that many
    characters. *)
Theorem read_str_gives_plain_text (d : bytes) (off length : Z) :
  plain_text (read_str d off length) = true ∧
  (0 <= length → len (read_str d off length) <= length).
Proof.
  rewrite read_str_decode_text.
  destruct (before_nul_spec (get_slice d off (off + length))) as [Hnz Hl].
  destruct (decode_text_spec _ Hnz) as [Hp Hl'].
  split; [done |]. intros Hn.
  pose proof (length_get_slice d off length Hn). unfold len in *. lia.
Qed.

(** ** Loading, saving and loading again *)

Lemma laid_out_intro (T : rtype) (i : Z) (recs : list Rec) :
  (∀ (j : nat) r, recs !! j = Some r →
                  well_formed T (i + Z.of_nat j) r = true) →
  laid_out T i recs = true.
Proof.
  revert i. induction recs as [| r recs IH]; intros i H; [done |].
  cbn [laid_out]. apply andb_true_intro. split.
  - rewrite <- (Z.add_0_r i). by apply (H 0%nat).
  - apply IH. intros j r' Hj.
    replace (i + 1 + Z.of_nat j) with (i + Z.of_nat (S j)) by lia.
    by apply H.
Qed.

Lemma lookup_parse (d : bytes) (j : nat) (r : Rec) :
  _parse d !! j = Some r →
  r = parse_record d (detect_record_size (len d)) (Z.of_nat j).
Proof.
  unfold _parse. rewrite list_lookup_fmap. intros H.
  destruct (range _ !! j) as [i |] eqn:E; [| done]. injection H as <-.
  unfold range in E. rewrite list_lookup_fmap in E.
  destruct (seq _ _ !! j) as [m |] eqn:E'; [| done]. injection E as <-.
  apply lookup_seq in E' as [-> _]. done.
Qed.

Lemma other_fields_not_in_layout (T : rtype) (k : string) :
  k ∈ other_fields T → spec_of (map_of T) k = None.
Proof.
  intros H. destruct T; cbn [other_fields] in H; unfold STAT_FIELDS in H;
    repeat (apply elem_of_cons in H as [-> | H]; [by vm_compute |]);
    by apply elem_of_nil in H.
Qed.

(** What [_parse] leaves in a field of the record's own layout is a value
    of the field, but for a text that may be too long for it. *)
Lemma parsed_value_valid (d : bytes) (r : Rec) (k : string) (o : Z)
    (t : ftype) (L : option Z) :
  r ∈ _parse d → (k, (o, t, L)) ∈ map_of (type r) →
  ∃ v, data r !! k = Some v ∧
       match t with
       | Str => ∃ s, v = VStr s ∧ plain_text s = true
       | _ => valid_value k t L v = true
       end.
Proof.
  intros Hr Hk.
  destruct (parsed_field_in_buffer d r k o t L Hr Hk) as (H0 & H1 & ->).
  pose proof (field_fits _ k o t L Hk) as (_ & Hw & _ & HL).
  eexists. split; [reflexivity |].
  unfold parse_field, decode_field.
  rewrite (proj2 (Z.leb_gt _ _)) by lia.
  destruct t; cbn [width] in *.
  - rewrite read_u32_le_in by lia. cbn [mbind result_bind valid_value].
    pose proof (le_decode_4 (slice d (Z.to_nat (raw_off r + o)) 4)
                  (length_slice_le _ _ _)) as Hz.
    apply andb_true_intro. split; [apply Z.leb_le | apply Z.ltb_lt];
      apply Hz.
  - rewrite read_i32_le_in by lia. cbn [mbind result_bind valid_value].
    pose proof (unpack_i_range (slice d (Z.to_nat (raw_off r + o)) 4)
                  (length_slice_le _ _ _)) as Hz.
    apply andb_true_intro. split; [apply Z.leb_le | apply Z.ltb_lt];
      apply Hz.
  - destruct (read_u8_in d (raw_off r + o)) as (b & _ & ->); [lia |].
    pose proof (byte_to_Z_range b). cbn [mbind result_bind].
    destruct (String.eqb k "show_in_shop") eqn:E; cbn [valid_value];
      rewrite E.
    + by destruct (byte_to_Z b =? 0).
    + apply andb_true_intro. split; [apply Z.leb_le | apply Z.ltb_lt]; lia.
  - destruct (HL eq_refl) as (n & -> & _). eexists. split; [reflexivity |].
    rewrite read_str_decode_text. apply decode_text_spec, before_nul_spec.
Qed.

(** X15. Saving a file right after loading it and loading the result gives
    the same records, as long as every text read from the file still fits
    its field when it is encoded as UTF-8 (a text of Latin-1 bytes may not,
    and [show_in_shop] bytes other than 0 and 1 are rewritten as 1, so the
    bytes of the file may change). *)
Theorem reload_is_stable (int_of_str : pystr → result Z) (d : bytes) :
  (∀ r k o n s, r ∈ _parse d → (k, (o, Str, Some n)) ∈ map_of (type r) →
     data r !! k = Some (VStr s) → len (utf8_encode s) <= n) →
  ∃ d', save_records int_of_str d (_parse d) = (d', Ok tt) ∧
        len d' = len d ∧ _parse d' = _parse d.
Proof.
  intros Hfit.
  set (size := detect_record_size (len d)).
  set (T := variant_of size).
  destruct (Z.le_gt_cases ((len d - header) / size) 0) as [Hc | Hc].
  { assert (E : _parse d = []).
    { unfold _parse, range. fold size.
      by replace (Z.to_nat ((len d - header) / size)) with 0%nat by lia. }
    rewrite E. by exists d. }
  apply (save_then_parse int_of_str d (_parse d) T); [done | |].
  { unfold len at 1. rewrite length_parse. fold size. lia. }
  apply laid_out_intro. intros j r Hj. rewrite Z.add_0_l.
  assert (Hr : r ∈ _parse d) by (by apply list_elem_of_lookup; exists j).
  pose proof (lookup_parse d j r Hj) as Er. fold size in Er.
  unfold well_formed.
  assert (Hsz : size_of T = size) by apply size_of_variant_detect.
  repeat (apply andb_true_intro; split).
  - rewrite Er. by apply Z.eqb_eq.
  - rewrite Er. by apply bool_decide_eq_true.
  - rewrite Er, raw_off_parse_record, Hsz. by apply Z.eqb_eq.
  - apply forallb_forall. intros [k [[o t] L]] Hk.
    apply list_elem_of_In in Hk.
    assert (Hk' : (k, (o, t, L)) ∈ map_of (type r))
      by (by rewrite Er, type_parse_record).
    destruct (parsed_value_valid d r k o t L Hr Hk') as (v & Hd & Hv).
    rewrite Hd. destruct t; try done.
    destruct Hv as (s & -> & Hp).
    pose proof (field_fits _ k o Str L Hk') as (_ & _ & _ & HL).
    destruct (HL eq_refl) as (n & -> & _). cbn [valid_value]. rewrite Hp.
    apply Z.leb_le. by apply (Hfit r k o n s Hr Hk').
  - apply forallb_forall. intros k Hk. apply list_elem_of_In in Hk.
    apply bool_decide_eq_true. rewrite Er, lookup_parse_record.
    fold T. rewrite (other_fields_not_in_layout T k Hk).
    by rewrite decide_True.
  - apply bool_decide_eq_true. rewrite Er. apply dom_parse_record.
Qed.

Lemma reload_is_stable_witness :
  (∀ r k o n s, r ∈ _parse named_buffer →
     (k, (o, Str, Some n)) ∈ map_of (type r) →
     data r !! k = Some (VStr s) → len (utf8_encode s) <= n) ∧
  ∃ d', save_records int_of_ascii named_buffer (_parse named_buffer)
        = (d', Ok tt) ∧
        len d' = len named_buffer ∧ _parse d' = _parse named_buffer.
Proof.
  assert (H1 : ∀ r k o n s, r ∈ _parse named_buffer →
            (k, (o, Str, Some n)) ∈ map_of (type r) →
            data r !! k = Some (VStr s) → len (utf8_encode s) <= n).
  { assert (E : _parse named_buffer = [parse_record named_buffer 644 0])
      by (vm_compute; reflexivity).
    rewrite E. intros r k o n s Hr Hk Hd.
    apply list_elem_of_singleton in Hr as ->.
    destruct (text_columns _ _ _ _ Hk) as [[-> [= ->]] | [-> [= ->]]];
      vm_compute in Hd; injection Hd as <-; by vm_compute. }
  split; [exact H1 |].
  exact (reload_is_stable int_of_ascii named_buffer H1).
Defined.

(** ** A text field past the end of the buffer *)

Lemma set_slice_past_end (d : bytes) (off n : Z) (x : bytes) :
  len d <= off → 0 <= n → set_slice d off (off + n) x = d ++ x.
Proof.
  intros H1 H2. pose proof (len_nonneg d). unfold set_slice.
  rewrite !slice_end_over by lia. rewrite Nat.max_id.
  unfold len. rewrite Nat2Z.id, firstn_all, drop_all. by rewrite app_nil_r.
Qed.

Lemma take_zeros (m : nat) (n : Z) :
  take m (zeros n) = zeros (Z.min (Z.of_nat m) n).
Proof.
  unfold zeros. rewrite take_replicate. f_equal. lia.
Qed.

(** X16. [write_str] does not fail for an offset at or past the end of the
    buffer: it appends the field, after as many zero bytes as the offset
    lies past the end, and never more than the length of the field, so a
    field with an offset more than its length past the end does not land at its
    offset. *)
Theorem write_str_past_end (d : bytes) (off n : Z) (text : pystr) :
  len d <= off → 0 <= n →
  write_str d off n text
  = d ++ zeros (Z.min (off - len d) n) ++ fixed_field n text.
Proof.
  intros H1 H2. pose proof (len_nonneg d) as Hd. unfold write_str.
  rewrite get_slice_prefix by done. fold (fixed_field n text).
  rewrite (set_slice_past_end d) by done.
  assert (Hl : len (d ++ zeros n) = len d + n).
  { unfold len. rewrite length_app, length_zeros. lia. }
  destruct (Z.le_gt_cases off (len d + n)) as [Hle | Hgt].
  - unfold set_slice. rewrite Hl.
    rewrite (slice_end_in _ off) by lia.
    rewrite (slice_end_over _ (off + n)) by lia.
    rewrite Nat.max_r by lia.
    replace (Z.to_nat (len d + n)) with (length (d ++ zeros n))
      by (unfold len in *; lia).
    rewrite drop_all, app_nil_r.
    rewrite take_app_ge by (unfold len in *; lia).
    rewrite take_zeros. rewrite <- app_assoc. do 3 f_equal.
    unfold len in *. lia.
  - rewrite set_slice_past_end by lia.
    rewrite Z.min_r by lia. by rewrite <- app_assoc.
Qed.

Lemma write_str_past_end_witness :
  (len [x01; x02] <= 4 ∧ 0 <= 3) ∧
  write_str [x01; x02] 4 3 (lit "Hat")
  = [x01; x02] ++ zeros (Z.min (4 - len [x01; x02]) 3)
    ++ fixed_field 3 (lit "Hat").
Proof.
  assert (H1 : len [x01; x02] <= 4) by (by vm_compute).
  assert (H2 : 0 <= 3) by lia.
  split; [exact (conj H1 H2) |].
  exact (write_str_past_end [x01; x02] 4 3 (lit "Hat") H1 H2).
Defined.

(** ** The item export: all statements or no file *)

Lemma item_sql_raise_from (recs : list Rec) (e : exn) :
  foldl (λ acc rec,
           sql ← acc;
           if not_shown rec then Ok sql
           else line ← item_statement rec; Ok (sql ++ line))
        (Raise e) recs
  = Raise e.
Proof. induction recs as [| r recs IH]; [done | apply IH]. Qed.

Lemma item_sql_raise (recs : list Rec) (r : Rec) (e : exn)
    (acc : result pystr) :
  r ∈ recs → not_shown r = false → item_statement r = Raise e →
  ∃ e',
    foldl (λ acc rec,
             sql ← acc;
             if not_shown rec then Ok sql
             else line ← item_statement rec; Ok (sql ++ line))
          acc recs
    = Raise e'.
Proof.
  intros Hr Hs He. revert acc.
  induction recs as [| r' recs IH]; intros acc; [by apply elem_of_nil in Hr |].
  cbn [foldl]. apply elem_of_cons in Hr as [<- | Hr]; [| by apply IH].
  destruct acc as [sql | e0]; cbn [mbind result_bind].
  - rewrite Hs, He. cbn [mbind result_bind]. exists e.
    apply item_sql_raise_from.
  - exists e0. apply item_sql_raise_from.
Qed.

(** X17. The item export builds the whole text before it opens the file:
    if the refund of one record in the shop cannot be computed, it raises
    and no file is created, emptied or written. *)
Theorem item_export_all_or_nothing (fs : filesystem) (self : DATModel)
    (p : string) (r : Rec) (e : exn) :
  r ∈ records self → not_shown r = false → item_statement r = Raise e →
  ∃ e', export_sql_item fs self p = (Raise e', fs).
Proof.
  intros Hr Hs He. unfold export_sql_item, item_sql.
  destruct (item_sql_raise (records self) r e (Ok banner) Hr Hs He)
    as [e' ->].
  by exists e'.
Qed.

Lemma item_export_all_or_nothing_witness :
  (overpriced ∈ [shown_sample; overpriced] ∧
   not_shown overpriced = false ∧
   item_statement overpriced = Raise OverflowError) ∧
  ∃ e', export_sql_item
          (mkFs {[ "item.sql"%string := (Writable, [x2d; x2d]) ]} ∅)
          (mkModel None [] [shown_sample; overpriced]) "item.sql"
        = (Raise e',
           mkFs {[ "item.sql"%string := (Writable, [x2d; x2d]) ]} ∅).
Proof.
  assert (H1 : overpriced ∈ [shown_sample; overpriced]) by (right; left).
  assert (H2 : not_shown overpriced = false) by (vm_compute; reflexivity).
  assert (H3 : item_statement overpriced = Raise OverflowError)
    by (vm_compute; reflexivity).
  split; [exact (conj H1 (conj H2 H3)) |].
  exact (item_export_all_or_nothing
           (mkFs {[ "item.sql"%string := (Writable, [x2d; x2d]) ]} ∅)
           (mkModel None [] [shown_sample; overpriced]) "item.sql"
           overpriced OverflowError H1 H2 H3).
Defined.

(** ** Parsing reads whole records only *)

Lemma length_slice_in (d : bytes) (a w : nat) :
  (a + w <= length d)%nat → length (slice d a w) = w.
Proof. intros H. unfold slice. rewrite length_take, length_drop. lia. Qed.

Lemma before_nul_split (bs : bytes) :
  (bs = before_nul bs ∨ ∃ post, bs = before_nul bs ++ x00 :: post) ∧
  x00 ∉ before_nul bs.
Proof.
  induction bs as [| b bs [IH1 IH2]]; cbn [before_nul].
  - split; [by left | apply not_elem_of_nil].
  - destruct (Byte.eqb b x00) eqn:E.
    + apply Byte.byte_dec_bl in E as ->.
      split; [right; by exists bs | apply not_elem_of_nil].
    + split.
      * destruct IH1 as [IH1 | [post IH1]]; [left | right; exists post];
          cbn [app]; by rewrite <- IH1.
      * apply not_elem_of_cons. split; [| done].
        intros <-. discriminate E.
Qed.

(** What [_parse] stores for a field that lies inside the buffer is what
    the bytes of the field denote. *)
Lemma parse_field_decodes (d : bytes) (oo : Z) (k : string) (t : ftype)
    (L : option Z) :
  0 <= oo → 0 < width t L → oo + width t L <= len d →
  (t = Str → is_Some L) →
  decodes_to k t (slice d (Z.to_nat oo) (Z.to_nat (width t L)))
             (parse_field d oo k t L) ∧
  parse_field d oo k t L ≠ VNone.
Proof.
  intros H0 Hw H1 HL. unfold parse_field, decode_field.
  rewrite (proj2 (Z.leb_gt _ _)) by lia.
  assert (Hlen : length (slice d (Z.to_nat oo) (Z.to_nat (width t L)))
                 = Z.to_nat (width t L))
    by (apply length_slice_in; unfold len in *; lia).
  destruct t; cbn [width decodes_to] in *.
  - rewrite read_u32_le_in by lia. cbn [mbind result_bind].
    change (Z.to_nat 4) with 4%nat in *.
    destruct (slice d (Z.to_nat oo) 4) as [| b0 [| b1 [| b2 [| b3 [| b4 bs]]]]];
      try discriminate Hlen.
    split; [| done]. exists b0, b1, b2, b3. split; [done |].
    unfold unpack_I, le_decode, little_endian. cbn [foldr]. f_equal. lia.
  - rewrite read_i32_le_in by lia. cbn [mbind result_bind].
    change (Z.to_nat 4) with 4%nat in *.
    destruct (slice d (Z.to_nat oo) 4) as [| b0 [| b1 [| b2 [| b3 [| b4 bs]]]]];
      try discriminate Hlen.
    split; [| done]. exists b0, b1, b2, b3. split; [done |].
    unfold unpack_i, le_decode, little_endian. cbn [foldr].
    replace (byte_to_Z b0 + 256 * (byte_to_Z b1 + 256 * (byte_to_Z b2
               + 256 * (byte_to_Z b3 + 256 * 0))))
      with (byte_to_Z b0 + 256 * byte_to_Z b1 + 65536 * byte_to_Z b2
            + 16777216 * byte_to_Z b3) by lia.
    done.
  - destruct (read_u8_in d oo) as (b & Hb & ->); [lia |].
    cbn [mbind result_bind]. change (Z.to_nat 1) with 1%nat.
    split.
    + exists b. split; [done |].
      destruct (String.eqb k "show_in_shop"); [| done].
      by destruct (byte_to_Z b =? 0).
    + by destruct (String.eqb k "show_in_shop").
  - destruct (HL eq_refl) as [n ->]. cbn [from_option] in *. unfold id in *.
    split; [| done]. rewrite read_str_in by lia.
    exists (before_nul (slice d (Z.to_nat oo) (Z.to_nat n))).
    destruct (before_nul_split (slice d (Z.to_nat oo) (Z.to_nat n)))
      as [Hs Hn].
    done.
Qed.

(** C7, as the code has it. [_parse] reads whole records only: it returns
    one record for each whole record that fits behind the header, in
    order, and the bytes of a file cut short inside a record give no
    record for it. In every record returned, each field of the layout of
    its variant lies inside the buffer and holds the value that its bytes
    denote, never [None]; each field that only the other variant has is
    present and holds [None]; and the keys are the same for every
    record. *)
Theorem parse_decodes_whole_records (d : bytes) :
  let size := detect_record_size (len d) in
  length (_parse d) = Z.to_nat ((len d - header) / size) ∧
  ∀ (j : nat) (r : Rec), _parse d !! j = Some r →
    index r = Z.of_nat j ∧ type r = variant_of size ∧
    raw_off r = header + Z.of_nat j * size ∧
    raw_off r + size <= len d ∧
    (∀ k o t L, (k, (o, t, L)) ∈ map_of (type r) →
       raw_off r + o + width t L <= len d ∧
       ∃ v, data r !! k = Some v ∧ v ≠ VNone ∧
            decodes_to k t (slice d (Z.to_nat (raw_off r + o))
                                    (Z.to_nat (width t L))) v) ∧
    (∀ k, k ∈ other_fields (type r) → data r !! k = Some VNone) ∧
    dom (data r) = list_to_set FIELD_NAMES.
Proof.
  intros size. split; [apply length_parse |]. intros j r Hj.
  assert (Hr : r ∈ _parse d) by (by apply list_elem_of_lookup; exists j).
  pose proof (lookup_parse d j r Hj) as Er. fold size in Er.
  assert (Hjc : 0 <= Z.of_nat j < (len d - header) / size).
  { apply lookup_lt_Some in Hj. rewrite length_parse in Hj. fold size in Hj.
    lia. }
  pose proof (record_in_buffer (len d) size (Z.of_nat j)
                (detect_record_size_pos _) Hjc) as Hin.
  repeat split.
  - by rewrite Er.
  - by rewrite Er.
  - by rewrite Er.
  - by rewrite Er, raw_off_parse_record.
  - by destruct (parsed_field_in_buffer d r k o t L Hr H) as (_ & ? & _).
  - rename H into Hk.
    destruct (parsed_field_in_buffer d r k o t L Hr Hk) as (H0 & H1 & Hd).
    pose proof (field_fits _ k o t L Hk) as (_ & Hw & _ & HL).
    destruct (parse_field_decodes d (raw_off r + o) k t L H0 Hw H1)
      as [Hdec Hne].
    { intros ->. destruct (HL eq_refl) as (n & -> & _). by eexists. }
    by exists (parse_field d (raw_off r + o) k t L).
  - intros k Hk. rewrite Er in *. rewrite lookup_parse_record.
    rewrite type_parse_record in Hk.
    by rewrite (other_fields_not_in_layout _ k Hk), decide_True.
  - rewrite Er. apply dom_parse_record.
Qed.

Lemma parse_decodes_whole_records_witness :
  _parse named_buffer !! 0%nat = Some (parse_record named_buffer 644 0) ∧
  ∃ v, data (parse_record named_buffer 644 0) !! "name"%string = Some v ∧
       v = VStr (lit "Hat") ∧ v ≠ VNone ∧
       decodes_to "name" Str
         (slice named_buffer
            (Z.to_nat (raw_off (parse_record named_buffer 644 0) + 12))
            (Z.to_nat (width Str (Some 19)))) v.
Proof.
  assert (H1 : _parse named_buffer !! 0%nat
               = Some (parse_record named_buffer 644 0))
    by (vm_compute; reflexivity).
  assert (H2 : ("name"%string, (12, Str, Some 19))
               ∈ map_of (type (parse_record named_buffer 644 0))).
  { apply (spec_of_Some _ _ _ (map_of_NoDup _)). vm_compute. reflexivity. }
  split; [exact H1 |].
  destruct (parse_decodes_whole_records named_buffer) as [_ H].
  destruct (H 0%nat _ H1) as (_ & _ & _ & _ & Hf & _).
  destruct (Hf "name"%string 12 Str (Some 19) H2) as (_ & v & Hv & Hne & Hd).
  exists v. split; [exact Hv |]. split; [| exact (conj Hne Hd)].
  assert (E : data (parse_record named_buffer 644 0) !! "name"%string
              = Some (VStr (lit "Hat"))) by (vm_compute; reflexivity).
  rewrite E in Hv. by injection Hv as <-.
Defined.

(** A file cut short inside its first record: the four bytes of
    [avatar_code] are there and hold 42, and [_parse] returns no record,
    not a record with the fields beyond the end set to [None]. *)
Lemma truncated_file_has_no_record :
  len truncated_buffer = 40 ∧
  slice truncated_buffer 4 4 = [x2a; x00; x00; x00] ∧
  _parse truncated_buffer = [].
Proof. repeat split. Qed.
